(** * OBI Buffer Protocol: normalizer, automaton, cost evaluator and audit log

    A shallow embedding of the protocol engine of the obibuf repository and
    the properties its specification states about it.

    Conventions.
    - A C [char]/[uint8_t] is a [Z] (its unsigned value, 0..255); a C string
      or byte array together with its length is a [list byte].
    - [size_t] positions and lengths are [nat].
    - [uint32_t] arithmetic is [Z] arithmetic reduced modulo 2^32.
    - [double] values are idealised as real numbers ([R]) in the cost
      evaluator, whose logarithms have no exact double counterpart; the
      comparisons of the validator's constructor are also given on IEEE 754
      binary64 values (module [ValidatorDouble]).
    - Pointer arguments are always present: the [NULL] checks of the C entry
      points are outside the state modelled here, except where a claim talks
      about them (then the pointer is an [option]). *)

From Stdlib Require Import String Ascii DecimalString.
From Stdlib Require PrimFloat SpecFloat FloatAxioms.
From Stdlib Require Import Reals Lra.
From Stdlib Require Import ZArith List Bool Lia.
Import ListNotations.

Definition byte := Z.

Definition bytes_of_string (s : string) : list byte :=
  map (fun a => Z.of_N (N_of_ascii a)) (list_ascii_of_string s).

Abbreviation str := bytes_of_string (only parsing).

Definition OBI_MAX_BUFFER_SIZE : nat := Z.to_nat 8192.

(** Result codes ([obi_result_t], with the names [obi_result_to_string] and
    the error taxonomy use). *)
Inductive obi_result_t : Type :=
| OBI_SUCCESS
| OBI_ERROR_INVALID_INPUT
| OBI_ERROR_VALIDATION_FAILED
| OBI_ERROR_NORMALIZATION_FAILED
| OBI_ERROR_AUDIT_REQUIRED
| OBI_ERROR_ZERO_TRUST_VIOLATION
| OBI_ERROR_BUFFER_OVERFLOW
| OBI_ERROR_NUMERICAL_INSTABILITY
| OBI_ERROR_SINPHASE_VIOLATION
| OBI_ERROR_DFA_TRANSITION_FAILED
| OBI_ERROR_SCHEMA_MISMATCH.

Fixpoint bytes_eqb (a b : list byte) : bool :=
  match a, b with
  | [], [] => true
  | x :: a', y :: b' => Z.eqb x y && bytes_eqb a' b'
  | _, _ => false
  end.

(** The buffer of the protocol engine ([obi_buffer_t] as the normalizer and
    the automaton use it).  [data] holds the first [length] bytes of the C
    array, so [buffer->length] is [length (data b)]. *)
Record obi_buffer_t : Type := mk_buffer {
  data : list byte;
  max_size : nat;
  normalized : bool;
  validated : bool;
  pattern_hash : list byte
}.

(* ================================================================= *)
(** ** Normalizer (USCN) *)

Module Normalizer.

Definition USCN_CANONICAL_BUFFER_SIZE : nat := Z.to_nat 8192.

Record uscn_mapping_t : Type := mk_mapping {
  encoded_form : list byte;
  canonical_form : list byte;
  encoded_len : nat;
  canonical_len : nat
}.

(** The predefined table, in source order (the end marker is the end of the
    list). *)
Definition uscn_mappings : list uscn_mapping_t :=
  [ mk_mapping (str "%2e%2e%2f") (str "../") 9 3;
    mk_mapping (str "%c0%af") (str "../") 6 3;
    mk_mapping (str ".%2e/") (str "../") 5 3;
    mk_mapping (str "%2e%2e/") (str "../") 7 3;
    mk_mapping (str "%2f") (str "/") 3 1;
    mk_mapping (str "%2e") (str ".") 3 1;
    mk_mapping (str "%20") (str " ") 3 1;
    mk_mapping (str "%c0%ae") (str ".") 6 1;
    mk_mapping (str "%c0%af") (str "/") 6 1 ].

Record obi_normalizer : Type := mk_normalizer {
  initialized : bool;
  case_sensitive : bool;
  whitespace_normalize : bool;
  canonical_buffer : list byte;
  buffer_used : nat
}.

(** [input_pos + encoded_len <= input_len && memcmp(input + input_pos,
    encoded_form, encoded_len) == 0], with [rest] the input from
    [input_pos] on. *)
Definition mapping_matches (m : uscn_mapping_t) (rest : list byte) : bool :=
  (encoded_len m <=? length rest)%nat
  && bytes_eqb (firstn (encoded_len m) rest) (firstn (encoded_len m) (encoded_form m)).

(** One pass of the inner [for] loop over a table: the first entry that
    matches and whose canonical form still fits. *)
Definition find_mapping (table : list uscn_mapping_t) (rest : list byte)
    (output_pos output_max : nat) : option uscn_mapping_t :=
  find (fun m => mapping_matches m rest
                 && (output_pos + canonical_len m <? output_max)%nat) table.

(** The [while] loop of [apply_character_mappings], with [rest] the input
    from [input_pos] on.  Every iteration advances [input_pos] by at least
    one, so [length input] iterations always suffice; [fuel] counts them
    (lemma [pass_fuel] below: more fuel changes nothing). *)
Fixpoint apply_loop (table : list uscn_mapping_t) (output_max : nat)
    (fuel : nat) (rest : list byte) (output_pos : nat) : list byte :=
  match fuel with
  | O => []
  | S fuel' =>
    match rest with
    | [] => []
    | c :: rest' =>
      if (output_pos <? output_max - 1)%nat then
        match find_mapping table rest output_pos output_max with
        | Some m =>
            firstn (canonical_len m) (canonical_form m)
            ++ apply_loop table output_max fuel' (skipn (encoded_len m) rest)
                 (output_pos + canonical_len m)
        | None => c :: apply_loop table output_max fuel' rest' (output_pos + 1)
        end
      else []
    end
  end.

Definition apply_character_mappings_with (table : list uscn_mapping_t)
    (input : list byte) (output_max : nat) : list byte :=
  apply_loop table output_max (length input) input 0.

Definition apply_character_mappings (input : list byte) (output_max : nat)
    : list byte :=
  apply_character_mappings_with uscn_mappings input output_max.

(** [tolower] and [isspace] of the C locale (bytes above 127 are neither
    letters nor whitespace). *)
Definition tolower (c : byte) : byte :=
  if (65 <=? c)%Z && (c <=? 90)%Z then (c + 32)%Z else c.

Definition isspace (c : byte) : bool :=
  (c =? 32)%Z || ((9 <=? c)%Z && (c <=? 13)%Z).

Definition normalize_case (str : list byte) (case_sensitive : bool) : list byte :=
  if case_sensitive then str else map tolower str.

(** The [for] loop of [normalize_whitespace].  The C code writes in place
    at [write_pos <= i], so the bytes still to be read are never
    overwritten: the written bytes are the output list. *)
Fixpoint fold_whitespace (in_whitespace : bool) (str : list byte) : list byte :=
  match str with
  | [] => []
  | c :: str' =>
    if isspace c then
      if in_whitespace then fold_whitespace true str'
      else 32%Z :: fold_whitespace true str'
    else c :: fold_whitespace false str'
  end.

(** The trailing [while (write_pos > 0 && str[write_pos - 1] == ' ')]. *)
Fixpoint trim_trailing (str : list byte) (write_pos : nat) : nat :=
  match write_pos with
  | O => O
  | S p => if (nth p str 0%Z =? 32)%Z then trim_trailing str p else S p
  end.

Definition normalize_whitespace (str : list byte) : list byte :=
  let written := fold_whitespace false str in
  firstn (trim_trailing written (length written)) written.

Definition obi_normalizer_create : obi_normalizer :=
  {| initialized := true;
     case_sensitive := false;
     whitespace_normalize := true;
     canonical_buffer := [];
     buffer_used := 0 |}.

Definition obi_normalize_buffer (normalizer : obi_normalizer) (buffer : obi_buffer_t)
    : obi_result_t * obi_normalizer * obi_buffer_t :=
  if negb (initialized normalizer) then
    (OBI_ERROR_INVALID_INPUT, normalizer, buffer)
  else
    (* Phase 1 *)
    let temp1 := apply_character_mappings (data buffer) USCN_CANONICAL_BUFFER_SIZE in
    if (length temp1 =? 0)%nat then
      (OBI_ERROR_NORMALIZATION_FAILED, normalizer, buffer)
    else
      (* Phase 2 *)
      let temp2 := normalize_case temp1 (case_sensitive normalizer) in
      (* Phase 3 *)
      let temp3 :=
        if whitespace_normalize normalizer then normalize_whitespace temp2
        else temp2 in
      let normalized_len := length temp3 in
      if (USCN_CANONICAL_BUFFER_SIZE <=? normalized_len)%nat then
        (OBI_ERROR_BUFFER_OVERFLOW, normalizer, buffer)
      else
        let normalizer' :=
          {| initialized := initialized normalizer;
             case_sensitive := case_sensitive normalizer;
             whitespace_normalize := whitespace_normalize normalizer;
             canonical_buffer := temp3;
             buffer_used := normalized_len |} in
        if (max_size buffer <? normalized_len)%nat then
          (OBI_ERROR_BUFFER_OVERFLOW, normalizer', buffer)
        else
          (OBI_SUCCESS, normalizer',
           {| data := temp3;
              max_size := max_size buffer;
              normalized := true;
              validated := validated buffer;
              pattern_hash := pattern_hash buffer |}).

Definition USCN_PATTERN_HASH_SIZE : nat := 32.

(** [(uint8_t)(hash >> (i * 8))] for [i = 0..3]. *)
Definition hash_to_bytes (hash : Z) : list byte :=
  map (fun i => (Z.shiftr hash (i * 8) mod 256)%Z) [0; 1; 2; 3]%Z.

(** The FNV-1a loop of [obi_generate_canonical_hash]. *)
Definition canonical_fnv1a (bytes : list byte) : Z :=
  fold_left (fun hash c => (Z.lxor hash c * 16777619) mod 2 ^ 32)%Z
            bytes 2166136261%Z.

(** [obi_generate_canonical_hash]: [hash_output] is the caller's array, of
    which the first [hash_size] bytes are written on success. *)
Definition obi_generate_canonical_hash (normalizer : obi_normalizer)
    (hash_output : list byte) (hash_size : nat) : obi_result_t * list byte :=
  if (hash_size <? USCN_PATTERN_HASH_SIZE)%nat then
    (OBI_ERROR_INVALID_INPUT, hash_output)
  else if negb (initialized normalizer) || (buffer_used normalizer =? 0)%nat then
    (OBI_ERROR_NORMALIZATION_FAILED, hash_output)
  else
    let hash :=
      canonical_fnv1a (firstn (buffer_used normalizer) (canonical_buffer normalizer)) in
    (OBI_SUCCESS,
     hash_to_bytes hash ++ repeat 0%Z (hash_size - 4)
     ++ skipn hash_size hash_output).

End Normalizer.

(* ================================================================= *)
(** ** Automaton (DFA) *)

Module Automaton.

Definition DFA_MAX_STATES : Z := 256.
Definition DFA_ALPHABET_SIZE : Z := 256.
Definition DFA_PATTERN_BUFFER_SIZE : nat := 4096.

Inductive dfa_state_type_t : Type :=
| DFA_STATE_INITIAL
| DFA_STATE_PROCESSING
| DFA_STATE_ACCEPTING
| DFA_STATE_REJECTING
| DFA_STATE_CANONICAL.

Record dfa_state_t : Type := mk_state {
  state_id : Z;
  type : dfa_state_type_t;
  is_accepting : bool;
  canonical_pattern : string
}.

(** A state as [memset(.., 0, ..)] leaves it. *)
Definition zero_state : dfa_state_t := mk_state 0 DFA_STATE_INITIAL false "".

Definition transition_table_t : Type := Z -> Z -> Z.

(** [automaton->transition_table[s][c] = v]. *)
Definition set_transition (t : transition_table_t) (s c v : Z) : transition_table_t :=
  fun s' c' => if (s' =? s)%Z && (c' =? c)%Z then v else t s' c'.

(** The integers [lo, lo+1, ..., hi] of a [for (i = lo; i <= hi; i++)]. *)
Definition range (lo hi : Z) : list Z :=
  map (fun k => (lo + Z.of_nat k)%Z) (seq 0 (Z.to_nat (hi - lo + 1))).

Record obi_automaton : Type := mk_automaton {
  initialized : bool;
  current_state : Z;
  state_count : Z;
  states : list dfa_state_t;
  transition_table : transition_table_t;
  pattern_buffer : list byte;   (* the first [buffer_position] bytes *)
  canonical_hash : Z
}.

(** The character-level table of the automaton: (input_char, canonical_char)
    pairs up to the end marker. *)
Definition uscn_mappings : list (byte * byte) :=
  [ (9, 32); (10, 32); (13, 32); (11, 32); (12, 32) ]%Z
  ++ map (fun c => (c, c + 32)%Z) (range 65 90)
  ++ map (fun c => (c, c)) (range 97 122)
  ++ map (fun c => (c, c)) (range 48 57).

Definition calculate_pattern_hash (pattern : list byte) : Z :=
  fold_left (fun hash c => (Z.lxor hash c * 16777619) mod 2 ^ 32)%Z
            pattern 2166136261%Z.

Definition normalize_character (input : byte) : byte :=
  match find (fun m => (fst m =? input)%Z) uscn_mappings with
  | Some m => snd m
  | None => input
  end.

Definition initialize_default_states : list dfa_state_t :=
  [ mk_state 0 DFA_STATE_INITIAL false "INIT";
    mk_state 1 DFA_STATE_PROCESSING false "JSON_START";
    mk_state 2 DFA_STATE_PROCESSING false "FIELD_NAME";
    mk_state 3 DFA_STATE_PROCESSING false "FIELD_VALUE";
    mk_state 4 DFA_STATE_ACCEPTING true "CANONICAL_ACCEPT";
    mk_state 5 DFA_STATE_REJECTING false "REJECT" ].

Definition build_transition_table : transition_table_t :=
  (* every entry starts at the reject state *)
  let t := (fun _ _ => 5%Z) : transition_table_t in
  (* from INIT (0) *)
  let t := set_transition t 0 123 1 in          (* '{' *)
  let t := set_transition t 0 32 0 in           (* ' ' *)
  let t := set_transition t 0 9 0 in            (* '\t' *)
  let t := set_transition t 0 10 0 in           (* '\n' *)
  let t := set_transition t 0 13 0 in           (* '\r' *)
  (* from JSON_START (1) *)
  let t := set_transition t 1 34 2 in           (* double quote *)
  let t := set_transition t 1 32 1 in           (* ' ' *)
  let t := set_transition t 1 125 4 in          (* '}' *)
  (* from FIELD_NAME (2) *)
  let t := fold_left (fun t i => set_transition t 2 i 2) (range 97 122) t in
  let t := fold_left (fun t i => set_transition t 2 i 2) (range 65 90) t in
  let t := fold_left (fun t i => set_transition t 2 i 2) (range 48 57) t in
  let t := set_transition t 2 95 2 in           (* '_' *)
  let t := set_transition t 2 34 3 in           (* double quote *)
  (* from FIELD_VALUE (3) *)
  let t := set_transition t 3 58 3 in           (* ':' *)
  let t := set_transition t 3 32 3 in           (* ' ' *)
  let t := set_transition t 3 34 3 in           (* double quote *)
  let t := fold_left (fun t i =>
                        if negb (i =? 34)%Z && negb (i =? 92)%Z
                        then set_transition t 3 i 3 else t)
                     (range 32 126) t in
  let t := set_transition t 3 44 1 in           (* ',' *)
  let t := set_transition t 3 125 4 in          (* '}' *)
  t.

(** [obi_automaton_create].  The minimization pass only writes the
    [is_minimal] marks of the states, which no transition and no result
    depends on; the marks are not part of this model. *)
Definition obi_automaton_create : obi_automaton :=
  {| initialized := true;
     current_state := 0;
     state_count := 6;
     states := initialize_default_states;
     transition_table := build_transition_table;
     pattern_buffer := [];
     canonical_hash := 0 |}.

Definition set_run (a : obi_automaton) (st : Z) (pb : list byte) : obi_automaton :=
  {| initialized := initialized a;
     current_state := st;
     state_count := state_count a;
     states := states a;
     transition_table := transition_table a;
     pattern_buffer := pb;
     canonical_hash := canonical_hash a |}.

(** The [for] loop of [obi_automaton_process] over the remaining input:
    [inr a'] when the input is consumed, [inl (r, a')] on an early return. *)
Fixpoint process_loop (a : obi_automaton) (input : list byte)
    : (obi_result_t * obi_automaton) + obi_automaton :=
  match input with
  | [] => inr a
  | original_char :: input' =>
    let canonical_char := normalize_character original_char in
    let pb :=
      if (List.length (pattern_buffer a) <? DFA_PATTERN_BUFFER_SIZE - 1)%nat
      then pattern_buffer a ++ [canonical_char] else pattern_buffer a in
    let next_state := transition_table a (current_state a) canonical_char in
    if (state_count a <=? next_state)%Z then
      inl (OBI_ERROR_DFA_TRANSITION_FAILED, set_run a 5 pb)
    else if (next_state =? 5)%Z then
      inl (OBI_ERROR_VALIDATION_FAILED, set_run a next_state pb)
    else process_loop (set_run a next_state pb) input'
  end.

Definition state_is_accepting (a : obi_automaton) (s : Z) : bool :=
  is_accepting (nth (Z.to_nat s) (states a) zero_state).

(** [(uint8_t)(hash >> (i * 8))] for [i = 0..3]. *)
Definition hash_bytes_le (h : Z) : list byte :=
  map (fun i => (Z.shiftr h (i * 8) mod 256)%Z) [0; 1; 2; 3]%Z.

Definition obi_automaton_process (automaton : obi_automaton) (buffer : obi_buffer_t)
    : obi_result_t * obi_automaton * obi_buffer_t :=
  if negb (initialized automaton) then
    (OBI_ERROR_INVALID_INPUT, automaton, buffer)
  else
    match process_loop (set_run automaton 0 []) (data buffer) with
    | inl (r, a) => (r, a, buffer)
    | inr a =>
      if negb (state_is_accepting a (current_state a)) then
        (OBI_ERROR_VALIDATION_FAILED, a, buffer)
      else
        let h := calculate_pattern_hash (pattern_buffer a) in
        (OBI_SUCCESS,
         {| initialized := initialized a;
            current_state := current_state a;
            state_count := state_count a;
            states := states a;
            transition_table := transition_table a;
            pattern_buffer := pattern_buffer a;
            canonical_hash := h |},
         {| data := data buffer;
            max_size := max_size buffer;
            normalized := normalized buffer;
            validated := validated buffer;
            pattern_hash := hash_bytes_le h ++ skipn 4 (pattern_hash buffer) |})
    end.

(** *** State minimization *)

Definition equivalence_matrix_t : Type := Z -> Z -> bool.

Definition set_equivalence (m : equivalence_matrix_t) (i j : Z) (v : bool)
    : equivalence_matrix_t :=
  fun i' j' => if (i' =? i)%Z && (j' =? j)%Z then v else m i' j'.

(** The pairs [(i, j)] with [i < j < state_count], in the order of the two
    nested [for] loops. *)
Definition state_pairs (state_count : Z) : list (Z * Z) :=
  flat_map (fun i => map (fun j => (i, j)) (range (i + 1) (state_count - 1)))
           (range 0 (state_count - 1)).

Definition mark_unequal (m : equivalence_matrix_t) (i j : Z) : equivalence_matrix_t :=
  set_equivalence (set_equivalence m i j false) j i false.

(** One round of the [while (changed)] loop: the matrix after the round
    and the value of [changed]. *)
Definition refine_round (a : obi_automaton) (m : equivalence_matrix_t)
    : equivalence_matrix_t * bool :=
  fold_left
    (fun (acc : equivalence_matrix_t * bool) (p : Z * Z) =>
       let '(m, changed) := acc in
       let '(i, j) := p in
       if m i j then
         if existsb
              (fun input =>
                 let next_i := transition_table a i input in
                 let next_j := transition_table a j input in
                 (next_i <? state_count a)%Z && (next_j <? state_count a)%Z
                 && negb (m next_i next_j))
              (range 0 (DFA_ALPHABET_SIZE - 1))
         then (mark_unequal m i j, true)
         else (m, changed)
       else (m, changed))
    (state_pairs (state_count a)) (m, false).

(** The [while (changed)] loop.  A round that changes the matrix clears
    one of at most [state_count * state_count] entries, so [fuel] rounds
    beyond that number are never needed. *)
Fixpoint refine (fuel : nat) (a : obi_automaton) (m : equivalence_matrix_t)
    : equivalence_matrix_t :=
  match fuel with
  | O => m
  | S fuel' =>
    let '(m', changed) := refine_round a m in
    if changed then refine fuel' a m' else m'
  end.

(** The matrix after the first two loop nests of [minimize_dfa_states]:
    all pairs equivalent, except those that differ in acceptance. *)
Definition initial_equivalence (a : obi_automaton) : equivalence_matrix_t :=
  fold_left
    (fun m (p : Z * Z) =>
       let '(i, j) := p in
       if negb (Bool.eqb (state_is_accepting a i) (state_is_accepting a j))
       then mark_unequal m i j else m)
    (state_pairs (state_count a)) (fun _ _ => true).

Definition refined_equivalence (a : obi_automaton) : equivalence_matrix_t :=
  refine (S (Z.to_nat (state_count a * state_count a))) a (initial_equivalence a).

(** [minimize_dfa_states]: the [is_minimal] mark of every state. *)
Definition minimize_dfa_states (a : obi_automaton) : list bool :=
  let m := refined_equivalence a in
  map (fun i => negb (existsb (fun j => m i j) (range 0 (i - 1))))
      (range 0 (state_count a - 1)).

(** [obi_automaton_is_state_minimal], reading the marks that
    [obi_automaton_create] leaves. *)
Definition obi_automaton_is_state_minimal (a : obi_automaton) (state_id : Z) : bool :=
  if negb (initialized a) || (state_id <? 0)%Z || (state_count a <=? state_id)%Z
  then false
  else nth (Z.to_nat state_id) (minimize_dfa_states a) false.

End Automaton.

(* ================================================================= *)
(** ** Field checks of the schema validator *)

Module FieldChecks.

(** A field value is a C string: the bytes before the terminating NUL. *)

Definition is_digit (c : byte) : bool := (48 <=? c)%Z && (c <=? 57)%Z.

Definition is_hex (c : byte) : bool :=
  is_digit c || ((97 <=? c)%Z && (c <=? 102)%Z) || ((65 <=? c)%Z && (c <=? 70)%Z).

Definition is_base64 (c : byte) : bool :=
  ((65 <=? c)%Z && (c <=? 90)%Z) || ((97 <=? c)%Z && (c <=? 122)%Z)
  || is_digit c || (c =? 43)%Z || (c =? 47)%Z.

Definition validate_uint64_field (value : list byte) : bool :=
  if (List.length value =? 0)%nat then false
  else if negb (forallb is_digit value) then false
  else if (1 <? List.length value)%nat && (nth 0 value 0 =? 48)%Z then false
  else true.

(** [strtoull(value, NULL, 10)] on a string of digits: the number, or
    [ULLONG_MAX] when it does not fit. *)
Definition digits_value (value : list byte) : Z :=
  fold_left (fun acc c => (acc * 10 + (c - 48))%Z) value 0%Z.

Definition strtoull (value : list byte) : Z :=
  Z.min (digits_value value) (2 ^ 64 - 1).

(** [validate_timestamp_field], with [current_time] the value of
    [time(NULL)] as a [uint64_t]. *)
Definition validate_timestamp_field (value : list byte) (current_time : Z) : bool :=
  if negb (validate_uint64_field value) then false
  else (strtoull value <=? (current_time + 365 * 24 * 3600) mod 2 ^ 64)%Z.

Definition validate_sha256_digest (value : list byte) : bool :=
  if negb (List.length value =? 64)%nat then false
  else forallb is_hex value.

(** The loop of [validate_base64_binary]: [None] for [return false],
    otherwise the final [padding_count]. *)
Fixpoint base64_scan (value : list byte) (padding_count : nat) : option nat :=
  match value with
  | [] => Some padding_count
  | c :: value' =>
    if (c =? 61)%Z then base64_scan value' (S padding_count)
    else if (0 <? padding_count)%nat then None
    else if is_base64 c then base64_scan value' padding_count
    else None
  end.

Definition validate_base64_binary (value : list byte) (max_length : nat) : bool :=
  if (max_length <? List.length value)%nat then false
  else
    match base64_scan value 0 with
    | None => false
    | Some padding_count => (padding_count <=? 2)%nat
    end.

End FieldChecks.

(* ================================================================= *)
(** ** Audit log *)

Module Audit.

Definition OBI_AUDIT_HASH_SIZE : nat := 32.
Definition OBI_AUDIT_CONTEXT_MAX : nat := 128.

(** [obi_audit_entry_t]; the character arrays hold C strings, kept here as
    the bytes before the terminating NUL. *)
Record obi_audit_entry_t : Type := mk_entry {
  timestamp : Z;
  operation : list byte;
  hash_reference : list byte;
  context : list byte;
  compliance_level : list byte;
  sequence_number : Z;
  checksum : Z
}.

(** The log file is a list of lines; a line is the seven fields that
    [fprintf] writes, in order. *)
Definition log_line : Type := obi_audit_entry_t.

Record audit_state_t : Type := mk_audit_state {
  initialized : bool;
  log_file : option (list log_line);
  sequence_counter : Z;
  current_session_id : list byte
}.

Definition calculate_fnv1a_hash (bytes : list byte) : Z :=
  fold_left (fun hash c => (Z.lxor hash c * 16777619) mod 2 ^ 32)%Z
            bytes 2166136261%Z.

(** The object representation of a [uint64_t], least significant byte
    first (the layout of the platforms the library is built for). *)
Definition uint64_bytes (v : Z) : list byte :=
  map (fun i => (Z.shiftr v (8 * i) mod 256)%Z) [0; 1; 2; 3; 4; 5; 6; 7]%Z.

Definition hex_chars : list byte := str "0123456789ABCDEF".

Definition bytes_to_hex (bytes : list byte) (hex_size : nat) : list byte :=
  let max_bytes := ((hex_size - 1) / 2)%nat in
  flat_map (fun b =>
              [ nth (Z.to_nat (Z.land (Z.shiftr b 4) 15)) hex_chars 0%Z;
                nth (Z.to_nat (Z.land b 15)) hex_chars 0%Z ])
           (firstn max_bytes bytes).

Definition calculate_entry_checksum (entry : obi_audit_entry_t) : Z :=
  let hash := calculate_fnv1a_hash (uint64_bytes (timestamp entry)) in
  let hash := Z.lxor hash (calculate_fnv1a_hash (operation entry)) in
  let hash := Z.lxor hash (calculate_fnv1a_hash (hash_reference entry)) in
  let hash := Z.lxor hash (calculate_fnv1a_hash (context entry)) in
  let hash := Z.lxor hash (sequence_number entry) in
  hash.

(** [%u] of a sequence number. *)
Definition decimal (n : Z) : list byte :=
  bytes_of_string (DecimalString.NilEmpty.string_of_uint (N.to_uint (Z.to_N n))).

(** [obi_audit_log_operation] on an initialized audit state, at time
    [now]: the updated state (the line appended to the file, when there is
    one) and the entry built. *)
Definition obi_audit_log_operation (st : audit_state_t) (now : Z)
    (operation : list byte) (hash : list byte)
    : obi_result_t * audit_state_t * obi_audit_entry_t :=
  let seq := ((sequence_counter st + 1) mod 2 ^ 32)%Z in
  let hash_ref :=
    match hash with
    | [] => str "NULL_HASH"
    | _ => bytes_to_hex hash (OBI_AUDIT_HASH_SIZE * 2 + 1)
    end in
  let ctx :=
    firstn (OBI_AUDIT_CONTEXT_MAX - 1)
           (str "SESSION_" ++ current_session_id st ++ str "_SEQ_" ++ decimal seq) in
  let entry0 :=
    {| timestamp := now;
       operation := firstn 63 operation;
       hash_reference := hash_ref;
       context := ctx;
       compliance_level := str "NASA-STD-8739.8";
       sequence_number := seq;
       checksum := 0 |} in
  let entry :=
    {| timestamp := timestamp entry0;
       operation := Audit.operation entry0;
       hash_reference := hash_reference entry0;
       context := context entry0;
       compliance_level := compliance_level entry0;
       sequence_number := sequence_number entry0;
       checksum := calculate_entry_checksum entry0 |} in
  (OBI_SUCCESS,
   {| initialized := initialized st;
      log_file := option_map (fun lines => lines ++ [entry]) (log_file st);
      sequence_counter := seq;
      current_session_id := current_session_id st |},
   entry).

(** What [sscanf] makes of one line: the seven converted fields, or nothing
    when fewer than seven conversions succeed.  A line whose fields are
    non-empty and free of the separator converts to those fields. *)
Definition parsed_line : Type := option (obi_audit_entry_t * Z).

(** The loop of [obi_audit_verify_integrity] over the lines read: the
    number of integrity failures. *)
Fixpoint count_failures (lines : list parsed_line) : nat :=
  match lines with
  | [] => 0
  | l :: lines' =>
    let rest := count_failures lines' in
    match l with
    | Some (entry, stored_checksum) =>
      if (calculate_entry_checksum entry =? stored_checksum)%Z
      then rest else S rest
    | None => S rest
    end
  end.

(** [obi_audit_verify_integrity]; [file] is [None] when the log cannot be
    opened. *)
Definition obi_audit_verify_integrity (file : option (list parsed_line))
    : obi_result_t :=
  match file with
  | None => OBI_ERROR_AUDIT_REQUIRED
  | Some lines =>
    if (0 <? count_failures lines)%nat then OBI_ERROR_VALIDATION_FAILED
    else OBI_SUCCESS
  end.

(** The line as [sscanf] reads it back after [fprintf] wrote it: the
    seven fields as they were written.  This is what the conversions give
    for an entry whose text fields are non-empty, free of the separator and
    of line breaks and within the widths of the format, and whose numbers
    are within the ranges of their types; for other entries the
    conversions stop early, cut a field or reduce a number. *)
Definition read_back (l : log_line) : parsed_line := Some (l, checksum l).

Definition set_compliance_level (e : obi_audit_entry_t) (tag : list byte)
    : obi_audit_entry_t :=
  {| timestamp := timestamp e;
     operation := operation e;
     hash_reference := hash_reference e;
     context := context e;
     compliance_level := tag;
     sequence_number := sequence_number e;
     checksum := checksum e |}.

(** [%08X] of a [uint32_t]. *)
Definition hex8 (v : Z) : list byte :=
  map (fun i => nth (Z.to_nat (Z.land (Z.shiftr v (4 * i)) 15)) hex_chars 0%Z)
      [7; 6; 5; 4; 3; 2; 1; 0]%Z.

(** [generate_session_id], with [now] the value of [time(NULL)] (a 64-bit
    [time_t], least significant byte first). *)
Definition generate_session_id (now : Z) (size : nat) : list byte :=
  firstn (size - 1)
    (str "OBI_" ++ hex8 (now mod 2 ^ 32) ++ str "_"
     ++ hex8 (calculate_fnv1a_hash (uint64_bytes now))).

(** [obi_audit_init].  [file] is what [fopen(.., "a")] gives: [None] when
    it fails, otherwise the lines already in the log; [now_id] and
    [now_entry] are the values of [time(NULL)] when the session id is
    generated and when the first entry is written. *)
Definition obi_audit_init (st : audit_state_t) (file : option (list log_line))
    (now_id now_entry : Z) : obi_result_t * audit_state_t :=
  if initialized st then (OBI_SUCCESS, st)
  else
    match file with
    | None =>
      (OBI_ERROR_AUDIT_REQUIRED,
       {| initialized := false; log_file := None;
          sequence_counter := sequence_counter st;
          current_session_id := current_session_id st |})
    | Some lines =>
      let st1 :=
        {| initialized := true; log_file := Some lines;
           sequence_counter := 0;
           current_session_id := generate_session_id now_id 32 |} in
      let '(r, st2, _) := obi_audit_log_operation st1 now_entry (str "AUDIT_INIT") [] in
      (r, st2)
    end.

(** [obi_audit_cleanup]: the lines of the closed log (when there was one)
    and the cleared state. *)
Definition obi_audit_cleanup (st : audit_state_t) (now : Z)
    : option (list log_line) * audit_state_t :=
  if negb (initialized st) then (None, st)
  else
    let '(_, st1, _) := obi_audit_log_operation st now (str "AUDIT_CLEANUP") [] in
    (log_file st1,
     {| initialized := false; log_file := None; sequence_counter := 0;
        current_session_id := [] |}).

(** [obi_generate_protocol_hash]: the first [hash_size] bytes of
    [hash_output] are written on success. *)
Definition obi_generate_protocol_hash (data : list byte) (hash_output : list byte)
    (hash_size : nat) : obi_result_t * list byte :=
  if (hash_size <? 4)%nat then (OBI_ERROR_INVALID_INPUT, hash_output)
  else
    let hash := calculate_fnv1a_hash data in
    (OBI_SUCCESS,
     map (fun i => (Z.shiftr hash (i * 8) mod 256)%Z) [0; 1; 2; 3]%Z
     ++ repeat 0%Z (hash_size - 4) ++ skipn hash_size hash_output).

End Audit.

(* ================================================================= *)
(** ** Cost evaluator and validator construction (obi_validator.c) *)

Module Validator.

Local Open Scope R_scope.

(** Modelled from the spec: the macro [OBI_EPSILON_MIN] is declared in a
    header that is not part of the sources; the specification gives the
    epsilon floor as 10^-12. *)
Definition OBI_EPSILON_MIN : R := / 10 ^ 12.

(** Modelled from the spec: the macros [OBI_COST_THRESHOLD] and
    [OBI_WARNING_THRESHOLD] are declared in a header that is not part of
    the sources; the specification (and the comments of the zone
    enumeration) give the zone bounds 0.5 and 0.6. *)
Definition OBI_COST_THRESHOLD : R := 5 / 10.
Definition OBI_WARNING_THRESHOLD : R := 6 / 10.

Inductive obi_governance_zone_t : Type :=
| OBI_ZONE_AUTONOMOUS
| OBI_ZONE_WARNING
| OBI_ZONE_GOVERNANCE.

Record obi_validation_context_t : Type := mk_context {
  zero_trust_enforced : bool;
  canonical_only : bool;
  alpha : R;
  beta : R;
  epsilon_min : R
}.

Record obi_validator : Type := mk_validator {
  context : obi_validation_context_t;
  initialized : bool;
  validation_count : Z
}.

(** The buffer as the cost evaluator uses it. *)
Record obi_buffer_t : Type := mk_buffer {
  data : list byte;
  security_level : Z;
  normalized : bool;
  validated : bool;
  cost_value : R;
  governance_zone : obi_governance_zone_t
}.

Definition log2 (x : R) : R := ln x / ln 2.

Definition obi_kl_divergence (p q : list R) (n : nat) : R :=
  if (n =? 0)%nat then -1
  else
    fold_left
      (fun kl_div i =>
         let pi := nth i p 0 in
         let qi := nth i q 0 in
         if Rle_dec pi 0 then kl_div
         else
           let q_safe := if Rlt_dec qi OBI_EPSILON_MIN then OBI_EPSILON_MIN else qi in
           kl_div + pi * log2 (pi / q_safe))
      (seq 0 n) 0.

Definition obi_entropy_change (entropy_i entropy_j : R) : R :=
  entropy_i - entropy_j.

(** The entropy loop of [obi_calculate_traversal_cost]: the pair
    [(entropy_i, entropy_j)] after [n] rounds. *)
Definition entropies (pi pj : list R) (n : nat) : R * R :=
  fold_left
    (fun e i =>
       let x := nth i pi 0 in
       let y := nth i pj 0 in
       let ei := if Rlt_dec 0 x then fst e - x * log2 x else fst e in
       let ej := if Rlt_dec 0 y then snd e - y * log2 y else snd e in
       (ei, ej))
    (seq 0 n) (0, 0).

(** [obi_calculate_traversal_cost] in exact arithmetic.  The C code rounds
    the divergence and the two entropy sums separately, so its result
    agrees with this one up to rounding.  Where the two distributions are
    the same, every term of the divergence is the logarithm of 1 and the
    two entropy sums are computed alike, so the program's cost is exactly
    0 as well; elsewhere a cost within rounding distance of 0 can differ
    in sign from the program's. *)
Definition obi_calculate_traversal_cost (pi pj : list R) (n : nat)
    (alpha beta : R) : R :=
  if (n =? 0)%nat then -1
  else if Rlt_dec alpha 0 then -1
  else if Rlt_dec beta 0 then -1
  else if Rlt_dec (10001 / 10000) (alpha + beta) then -1
  else
    let kl_component := obi_kl_divergence pi pj n in
    if Rlt_dec kl_component 0 then -1
    else
      let e := entropies pi pj n in
      let entropy_delta := obi_entropy_change (fst e) (snd e) in
      alpha * kl_component + beta * entropy_delta.

Definition obi_assess_governance_zone (cost : R) : obi_governance_zone_t :=
  if Rle_dec cost OBI_COST_THRESHOLD then OBI_ZONE_AUTONOMOUS
  else if Rle_dec cost OBI_WARNING_THRESHOLD then OBI_ZONE_WARNING
  else OBI_ZONE_GOVERNANCE.

(** [obi_validator_create]: [context] is the caller's pointer ([None] for
    [NULL]) and [alloc_ok] tells whether [calloc] succeeds.  The second
    component is the value left in [*validator].  The weights are real
    numbers here, so this is the constructor on weights that are numbers,
    with an exact sum; its comparisons on doubles, which a NaN weight
    passes, are [ValidatorDouble.obi_validator_create]. *)
Definition obi_validator_create (alloc_ok : bool)
    (context : option obi_validation_context_t)
    : obi_result_t * option obi_validator :=
  match context with
  | None => (OBI_ERROR_INVALID_INPUT, None)
  | Some ctx =>
    if negb alloc_ok then (OBI_ERROR_BUFFER_OVERFLOW, None)
    else if Rlt_dec (alpha ctx) 0 then (OBI_ERROR_NUMERICAL_INSTABILITY, None)
    else if Rlt_dec (beta ctx) 0 then (OBI_ERROR_NUMERICAL_INSTABILITY, None)
    else if Rlt_dec (10001 / 10000) (alpha ctx + beta ctx)
      then (OBI_ERROR_NUMERICAL_INSTABILITY, None)
    else if negb (zero_trust_enforced ctx)
      then (OBI_ERROR_ZERO_TRUST_VIOLATION, None)
    else
      (OBI_SUCCESS,
       Some {| context := ctx; initialized := true; validation_count := 0 |})
  end.

(** The two distributions that [validate_mathematical_properties] builds
    from the first [n = min(length, 16)] bytes. *)
Definition sample_count (buffer : obi_buffer_t) : nat :=
  if (List.length (data buffer) <? 16)%nat then List.length (data buffer) else 16%nat.

Definition raw_weights (buffer : obi_buffer_t) : list R :=
  map (fun b => IZR (b + 1) / 256) (firstn (sample_count buffer) (data buffer)).

Definition distribution_pi (buffer : obi_buffer_t) : list R :=
  let sum := fold_left Rplus (raw_weights buffer) 0 in
  map (fun w => w / sum) (raw_weights buffer).

Definition distribution_pj (buffer : obi_buffer_t) : list R :=
  repeat (1 / INR (sample_count buffer)) (sample_count buffer).

Definition validate_mathematical_properties (validator : obi_validator)
    (buffer : obi_buffer_t) : obi_result_t * obi_buffer_t :=
  let n := sample_count buffer in
  let cost :=
    obi_calculate_traversal_cost (distribution_pi buffer) (distribution_pj buffer) n
      (alpha (context validator)) (beta (context validator)) in
  if Rlt_dec cost 0 then (OBI_ERROR_NUMERICAL_INSTABILITY, buffer)
  else
    let buffer' :=
      {| data := data buffer;
         security_level := security_level buffer;
         normalized := normalized buffer;
         validated := validated buffer;
         cost_value := cost;
         governance_zone := obi_assess_governance_zone cost |} in
    match governance_zone buffer' with
    | OBI_ZONE_GOVERNANCE => (OBI_ERROR_SINPHASE_VIOLATION, buffer')
    | _ => (OBI_SUCCESS, buffer')
    end.

(** Modelled from the spec: the enumeration of security levels is declared
    in a header that is not part of the sources; the specification orders
    it NONE < LOW < MEDIUM < HIGH < CRITICAL, so CRITICAL is 4. *)
Definition OBI_SECURITY_CRITICAL : Z := 4.

Definition validate_buffer_structure (buffer : obi_buffer_t) : obi_result_t :=
  if (List.length (data buffer) =? 0)%nat
     || (OBI_MAX_BUFFER_SIZE <? List.length (data buffer))%nat
  then OBI_ERROR_BUFFER_OVERFLOW
  else if (OBI_SECURITY_CRITICAL <? security_level buffer)%Z
  then OBI_ERROR_VALIDATION_FAILED
  else OBI_SUCCESS.

Definition enforce_canonical_validation (validator : obi_validator)
    (buffer : obi_buffer_t) : obi_result_t :=
  if negb (canonical_only (context validator)) then OBI_ERROR_ZERO_TRUST_VIOLATION
  else if negb (normalized buffer) then OBI_ERROR_VALIDATION_FAILED
  else OBI_SUCCESS.

(** [obi_validate_buffer] of obi_validator.c.  The audit handle of a
    validator is NULL after [obi_validator_create] ([calloc]) and nothing
    in the file sets it, so the audit record built on the way is not
    logged; it is not part of this model. *)
Definition obi_validate_buffer (validator : obi_validator) (buffer : obi_buffer_t)
    : obi_result_t * obi_validator * obi_buffer_t :=
  if negb (initialized validator) then
    (OBI_ERROR_VALIDATION_FAILED, validator, buffer)
  else
    match validate_buffer_structure buffer with
    | OBI_SUCCESS =>
      match enforce_canonical_validation validator buffer with
      | OBI_SUCCESS =>
        match validate_mathematical_properties validator buffer with
        | (OBI_SUCCESS, buffer1) =>
          (OBI_SUCCESS,
           {| context := context validator;
              initialized := initialized validator;
              validation_count := ((validation_count validator + 1) mod 2 ^ 64)%Z |},
           {| data := data buffer1;
              security_level := security_level buffer1;
              normalized := normalized buffer1;
              validated := true;
              cost_value := cost_value buffer1;
              governance_zone := governance_zone buffer1 |})
        | (result, buffer1) => (result, validator, buffer1)
        end
      | result => (result, validator, buffer)
      end
    | result => (result, validator, buffer)
    end.

Definition is_governance (z : obi_governance_zone_t) : bool :=
  match z with OBI_ZONE_GOVERNANCE => true | _ => false end.

Definition obi_check_sinphase_compliance (buffer : obi_buffer_t) : bool :=
  validated buffer && normalized buffer && negb (is_governance (governance_zone buffer)).

Definition obi_check_nasa_compliance (buffer : obi_buffer_t) : bool :=
  validated buffer
  && (0 <? List.length (data buffer))%nat
  && (List.length (data buffer) <=? OBI_MAX_BUFFER_SIZE)%nat
  && (if Rle_dec 0 (cost_value buffer) then true else false).

End Validator.

(* ================================================================= *)
(** ** Validator construction on doubles (obi_validator.c) *)

(** The constructor compares its weights as the C code does, on IEEE 754
    binary64 values: [<] and [>] are the comparisons of [PrimFloat], which
    are false whenever an operand is not a number, and the sum is the
    rounded sum.  A decimal constant denotes the nearest double, as in C. *)
Module ValidatorDouble.

Import PrimFloat.
#[local] Set Warnings "-inexact-float".

Record obi_validation_context_t : Type := mk_context {
  zero_trust_enforced : bool;
  canonical_only : bool;
  alpha : float;
  beta : float;
  epsilon_min : float
}.

Record obi_validator : Type := mk_validator {
  context : obi_validation_context_t;
  initialized : bool;
  validation_count : Z
}.

(** [obi_validator_create]: [context] is the caller's pointer ([None] for
    [NULL]) and [alloc_ok] tells whether [calloc] succeeds.  The second
    component is the value left in [*validator]. *)
Definition obi_validator_create (alloc_ok : bool)
    (context : option obi_validation_context_t)
    : obi_result_t * option obi_validator :=
  match context with
  | None => (OBI_ERROR_INVALID_INPUT, None)
  | Some ctx =>
    if negb alloc_ok then (OBI_ERROR_BUFFER_OVERFLOW, None)
    else if (alpha ctx <? 0)%float || (beta ctx <? 0)%float
            || (1.0001 <? alpha ctx + beta ctx)%float
      then (OBI_ERROR_NUMERICAL_INSTABILITY, None)
    else if negb (zero_trust_enforced ctx)
      then (OBI_ERROR_ZERO_TRUST_VIOLATION, None)
    else
      (OBI_SUCCESS,
       Some {| context := ctx; initialized := true; validation_count := 0 |})
  end.

End ValidatorDouble.

(* ================================================================= *)
(** * Definitions used to state and prove the properties *)

Section NormalizerNotions.

Import Normalizer.
Local Open Scope Z_scope.

(** The canonical bytes the three phases compute for an input. *)
Definition canonical_bytes (n : obi_normalizer) (input : list byte) : list byte :=
  let temp := normalize_case
                (apply_character_mappings input USCN_CANONICAL_BUFFER_SIZE)
                (case_sensitive n) in
  if whitespace_normalize n then normalize_whitespace temp else temp.

Definition store_canonical (n : obi_normalizer) (bytes : list byte) : obi_normalizer :=
  {| initialized := initialized n;
     case_sensitive := case_sensitive n;
     whitespace_normalize := whitespace_normalize n;
     canonical_buffer := bytes;
     buffer_used := List.length bytes |}.

Definition store_data (b : obi_buffer_t) (bytes : list byte) : obi_buffer_t :=
  {| data := bytes;
     max_size := max_size b;
     normalized := true;
     validated := validated b;
     pattern_hash := pattern_hash b |}.

Definition traversal_class : list (list byte) :=
  [ str "../"; str "%2e%2e%2f"; str "%c0%af"; str ".%2e/" ].

Definition is_lower (c : byte) : bool := (97 <=? c) && (c <=? 122).
Definition is_upper (c : byte) : bool := (65 <=? c) && (c <=? 90).

(** The table restricted to its one entry without a letter. *)
Definition space_table : list uscn_mapping_t :=
  [ mk_mapping (str "%20") (str " ") 3 1 ].

(** No table entry matches at the head of [s]. *)
Definition unmatched (s : list byte) : Prop :=
  forall m, In m uscn_mappings -> mapping_matches m s = false.

(** No table entry matches anywhere in [y]. *)
Fixpoint reduced (y : list byte) : Prop :=
  match y with
  | [] => True
  | _ :: y' => unmatched y /\ reduced y'
  end.

(** The bytes that canonical forms start with. *)
Definition is_canonical_byte (c : byte) : bool :=
  (c =? 46) || (c =? 47) || (c =? 32).

(** The percent-sequences that some one-byte entry reduces. *)
Definition cores : list (list byte) :=
  [ str "%2e"; str "%2f"; str "%20"; str "%c0%ae"; str "%c0%af" ].

(** The shape of folded bytes: the only whitespace is a single space
    between other bytes ([w] tells whether a space came just before). *)
Fixpoint folded (w : bool) (l : list byte) : Prop :=
  match l with
  | [] => True
  | c :: l' =>
    if isspace c then c = 32 /\ w = false /\ folded true l'
    else folded false l'
  end.

End NormalizerNotions.

Section AutomatonNotions.

Import Automaton.

Definition with_data (b : obi_buffer_t) (bytes : list byte) : obi_buffer_t :=
  {| data := bytes;
     max_size := max_size b;
     normalized := normalized b;
     validated := validated b;
     pattern_hash := pattern_hash b |}.

(** Two automata that differ at most in the run-time fields. *)
Definition same_machine (a a' : obi_automaton) : Prop :=
  initialized a' = initialized a
  /\ state_count a' = state_count a
  /\ states a' = states a
  /\ transition_table a' = transition_table a.

End AutomatonNotions.

Section ValidatorNotions.

Import Validator.
Local Open Scope R_scope.

(** A context that [obi_validator_create] accepts, and a two-byte payload
    whose second weight is twice the first. *)
Definition skewed_context : obi_validation_context_t :=
  {| zero_trust_enforced := true; canonical_only := true;
     alpha := 0; beta := 1; epsilon_min := OBI_EPSILON_MIN |}.

Definition skewed_buffer : obi_buffer_t :=
  {| data := str "0a"; security_level := 0; normalized := true;
     validated := false; cost_value := 0;
     governance_zone := OBI_ZONE_AUTONOMOUS |}.

(** A payload whose bytes are all the same, and a context with the
    default weights. *)
Definition constant_buffer : obi_buffer_t :=
  {| data := str "AA"; security_level := 0; normalized := true;
     validated := false; cost_value := 0;
     governance_zone := OBI_ZONE_AUTONOMOUS |}.

Definition default_context : obi_validation_context_t :=
  {| zero_trust_enforced := true; canonical_only := true;
     alpha := 6 / 10; beta := 4 / 10; epsilon_min := OBI_EPSILON_MIN |}.

End ValidatorNotions.

Section ConstructionNotions.

Import ValidatorDouble.
Import PrimFloat.
#[local] Set Warnings "-inexact-float".

(** The constraint alpha >= 0, beta >= 0, alpha + beta <= 1.0001, decided
    by the comparisons of doubles. *)
Definition satisfies_constraints (ctx : obi_validation_context_t) : bool :=
  (0 <=? alpha ctx)%float && (0 <=? beta ctx)%float
  && (alpha ctx + beta ctx <=? 1.0001)%float.

(** A context with zero trust enforced and the given weights. *)
Definition weights (a b : float) : obi_validation_context_t :=
  {| zero_trust_enforced := true; canonical_only := true;
     alpha := a; beta := b; epsilon_min := 1e-12 |}.

End ConstructionNotions.

Section AuditNotions.

Import Audit.

(** Logging a list of operations (time, operation tag, hash bytes), one
    [obi_audit_log_operation] after the other: the final state and the
    entries built, in order. *)
Fixpoint log_operations (st : audit_state_t)
    (ops : list (Z * list byte * list byte)) : audit_state_t * list obi_audit_entry_t :=
  match ops with
  | [] => (st, [])
  | (now, operation, hash) :: ops' =>
    let '(_, st1, e) := obi_audit_log_operation st now operation hash in
    let '(st2, es) := log_operations st1 ops' in
    (st2, e :: es)
  end.

Definition set_sequence_number (e : obi_audit_entry_t) (seq : Z) : obi_audit_entry_t :=
  {| timestamp := timestamp e;
     operation := operation e;
     hash_reference := hash_reference e;
     context := context e;
     compliance_level := compliance_level e;
     sequence_number := seq;
     checksum := checksum e |}.

(** The entry with its operation tag and its context exchanged. *)
Definition swap_operation_context (e : obi_audit_entry_t) : obi_audit_entry_t :=
  {| timestamp := timestamp e;
     operation := context e;
     hash_reference := hash_reference e;
     context := operation e;
     compliance_level := compliance_level e;
     sequence_number := sequence_number e;
     checksum := checksum e |}.

(** A byte that a text field of a log line gives back: a byte of a C
    string other than the field separator and the line break. *)
Definition field_byte (c : byte) : bool :=
  (0 <? c)%Z && (c <? 256)%Z && negb (c =? 124)%Z && negb (c =? 10)%Z.

(** A text field that the conversion [%width[^|]] gives back whole. *)
Definition text_field (width : nat) (s : list byte) : bool :=
  negb (List.length s =? 0)%nat && (List.length s <=? width)%nat
  && forallb field_byte s.

(** The entries whose line, as [fprintf] writes it, is turned back into
    the same seven fields by [fgets] and the [sscanf] of
    [obi_audit_verify_integrity]: the text fields fit the conversions
    [%63[^|]], [%64[^|]], [%127[^|]] and [%31[^|]], and the numbers are in
    the ranges of [%llu], [%u] and [%08X].  On these entries [read_back]
    is what the program reads. *)
Definition converts_back (e : obi_audit_entry_t) : bool :=
  text_field 63 (operation e) && text_field 64 (hash_reference e)
  && text_field 127 (context e) && text_field 31 (compliance_level e)
  && (0 <=? timestamp e)%Z && (timestamp e <? 2 ^ 64)%Z
  && (0 <=? sequence_number e)%Z && (sequence_number e <? 2 ^ 32)%Z
  && (0 <=? checksum e)%Z && (checksum e <? 2 ^ 32)%Z.

(** An operation that can be logged and read back: a time within
    [uint64_t] and a non-empty operation tag made of field bytes. *)
Definition loggable (op : Z * list byte * list byte) : Prop :=
  (0 <= fst (fst op) < 2 ^ 64)%Z
  /\ snd (fst op) <> []
  /\ forallb field_byte (snd (fst op)) = true.

(** The characters of [hex_chars]: a digit or an upper-case letter up to F. *)
Definition is_upper_hex (c : byte) : bool :=
  ((48 <=? c)%Z && (c <=? 57)%Z) || ((65 <=? c)%Z && (c <=? 70)%Z).

End AuditNotions.

Section HashNotions.

Local Open Scope Z_scope.

(** The number that bytes denote, least significant byte first. *)
Definition le_value (bytes : list byte) : Z :=
  fold_right (fun b acc => b + 256 * acc) 0 bytes.

(** What the character table of the automaton does to a byte. *)
Definition canonical_character (c : byte) : byte :=
  if (65 <=? c) && (c <=? 90) then c + 32
  else if (9 <=? c) && (c <=? 13) then 32
  else c.

(** Every entry of a table is one of the six states. *)
Definition table_in_range (t : Automaton.transition_table_t) : Prop :=
  forall s c, 0 <= t s c <= 5.

(** A table leads to the accepting state on a closing brace only. *)
Definition accepts_on_brace (t : Automaton.transition_table_t) : Prop :=
  forall s c, t s c = 4 -> c = 125.

End HashNotions.

(** A comparison of [tolower c] against a comparison of [c]: only an
    upper-case letter is changed, and every comparison is then decided. *)
Ltac folded_letter c :=
  unfold Normalizer.tolower;
  let E := fresh "E" in
  destruct ((65 <=? c)%Z && (c <=? 90)%Z) eqn:E; [|reflexivity];
  apply andb_prop in E; destruct E as [?E ?E];
  unfold FieldChecks.is_base64, FieldChecks.is_hex, FieldChecks.is_digit;
  repeat match goal with
         | |- context [(?a <=? ?b)%Z] =>
           destruct (Z.leb_spec a b); try (exfalso; lia)
         | |- context [(?a =? ?b)%Z] =>
           destruct (Z.eqb_spec a b); try (exfalso; lia)
         end;
  reflexivity.

(** Refuting a match from the shape of the head of [s]. *)
Ltac refute_matches Hin E :=
  simpl in Hin;
  repeat (destruct Hin as [<-|Hin]; [simpl in E; discriminate E|]);
  contradiction.

(* ================================================================= *)
(** * Properties of the normalizer *)

Section NormalizerFacts.

Import Normalizer.

Lemma find_mapping_some table rest opos omax m :
  find_mapping table rest opos omax = Some m ->
  In m table /\ mapping_matches m rest = true
  /\ (opos + canonical_len m < omax)%nat.
Proof.
  unfold find_mapping. intros H. apply find_some in H.
  destruct H as [Hin H]. apply andb_true_iff in H. destruct H as [H1 H2].
  apply Nat.ltb_lt in H2. auto.
Qed.

Lemma apply_loop_length table omax fuel : forall rest opos,
  (opos <= omax - 1)%nat ->
  (List.length (apply_loop table omax fuel rest opos) + opos <= omax - 1)%nat.
Proof.
  induction fuel as [|fuel IH]; intros rest opos Hle; simpl; [lia|].
  destruct rest as [|c rest']; simpl; [lia|].
  destruct (opos <? omax - 1)%nat eqn:Hlt; simpl; [|lia].
  apply Nat.ltb_lt in Hlt.
  destruct (find_mapping table (c :: rest') opos omax) as [m|] eqn:Hf.
  - apply find_mapping_some in Hf. destruct Hf as (_ & _ & Hroom).
    rewrite length_app.
    assert (Hfn : (List.length (firstn (canonical_len m) (canonical_form m))
                   <= canonical_len m)%nat) by apply firstn_le_length.
    specialize (IH (skipn (encoded_len m) (c :: rest')) (opos + canonical_len m)%nat).
    lia.
  - simpl. specialize (IH rest' (opos + 1)%nat). lia.
Qed.

Lemma apply_character_mappings_length input omax :
  (List.length (apply_character_mappings input omax) <= omax - 1)%nat.
Proof.
  unfold apply_character_mappings, apply_character_mappings_with.
  pose proof (apply_loop_length uscn_mappings omax (List.length input) input 0).
  lia.
Qed.

Lemma fold_whitespace_length : forall str w,
  (List.length (fold_whitespace w str) <= List.length str)%nat.
Proof.
  induction str as [|c str IH]; intros w; simpl; [lia|].
  destruct (isspace c); [destruct w|]; simpl;
    [specialize (IH true)|specialize (IH true)|specialize (IH false)]; lia.
Qed.

Lemma normalize_whitespace_length str :
  (List.length (normalize_whitespace str) <= List.length str)%nat.
Proof.
  unfold normalize_whitespace.
  rewrite length_firstn.
  pose proof (fold_whitespace_length str false). lia.
Qed.

Lemma normalize_case_length str cs :
  List.length (normalize_case str cs) = List.length str.
Proof. unfold normalize_case. destruct cs; [reflexivity|apply length_map]. Qed.

Lemma buffer_size_positive : (0 < USCN_CANONICAL_BUFFER_SIZE)%nat.
Proof. apply Nat.ltb_lt. vm_compute. reflexivity. Qed.

Lemma canonical_bytes_length n input :
  (List.length (canonical_bytes n input) < USCN_CANONICAL_BUFFER_SIZE)%nat.
Proof.
  unfold canonical_bytes.
  pose proof (apply_character_mappings_length input USCN_CANONICAL_BUFFER_SIZE) as H1.
  pose proof buffer_size_positive as H0.
  pose proof (normalize_case_length
                (apply_character_mappings input USCN_CANONICAL_BUFFER_SIZE)
                (case_sensitive n)) as H2.
  destruct (whitespace_normalize n).
  - pose proof (normalize_whitespace_length
                  (normalize_case
                     (apply_character_mappings input USCN_CANONICAL_BUFFER_SIZE)
                     (case_sensitive n))). lia.
  - lia.
Qed.

(** The mapping pass yields no byte exactly when there is no input byte. *)
Lemma apply_character_mappings_nil input :
  apply_character_mappings input USCN_CANONICAL_BUFFER_SIZE = [] <-> input = [].
Proof.
  split; [|intros ->; reflexivity].
  unfold apply_character_mappings, apply_character_mappings_with.
  destruct input as [|c rest]; [reflexivity|]. simpl List.length.
  cbn [apply_loop].
  assert (Hlt : (0 <? USCN_CANONICAL_BUFFER_SIZE - 1)%nat = true)
    by (vm_compute; reflexivity).
  rewrite Hlt.
  destruct (find_mapping uscn_mappings (c :: rest) 0 USCN_CANONICAL_BUFFER_SIZE)
    as [m|] eqn:Hf; [|discriminate].
  apply find_mapping_some in Hf. destruct Hf as (Hin & _ & _).
  simpl in Hin.
  repeat (destruct Hin as [<-|Hin]; [simpl; intros Habs; discriminate Habs|]).
  contradiction.
Qed.

(** The three outcomes of [obi_normalize_buffer] on an initialized
    normalizer. *)
Lemma obi_normalize_buffer_empty n b :
  initialized n = true -> data b = [] ->
  obi_normalize_buffer n b = (OBI_ERROR_NORMALIZATION_FAILED, n, b).
Proof.
  intros Hi Hd. unfold obi_normalize_buffer. rewrite Hi, Hd. reflexivity.
Qed.

Lemma obi_normalize_buffer_overflow n b :
  initialized n = true -> data b <> [] ->
  (max_size b < List.length (canonical_bytes n (data b)))%nat ->
  obi_normalize_buffer n b =
  (OBI_ERROR_BUFFER_OVERFLOW, store_canonical n (canonical_bytes n (data b)), b).
Proof.
  intros Hi Hd Hlen. unfold obi_normalize_buffer. rewrite Hi. simpl negb. cbv iota.
  replace (List.length (apply_character_mappings (data b) USCN_CANONICAL_BUFFER_SIZE) =? 0)%nat
    with false.
  2:{ symmetry. apply Nat.eqb_neq. intros Hz. apply length_zero_iff_nil in Hz.
      apply (proj1 (apply_character_mappings_nil _)) in Hz. contradiction. }
  cbv zeta. fold (canonical_bytes n (data b)).
  pose proof (canonical_bytes_length n (data b)) as Hb.
  apply Nat.leb_gt in Hb. rewrite Hb.
  apply Nat.ltb_lt in Hlen. rewrite Hlen.
  unfold store_canonical. rewrite Hi. reflexivity.
Qed.

Lemma obi_normalize_buffer_success n b :
  initialized n = true -> data b <> [] ->
  (List.length (canonical_bytes n (data b)) <= max_size b)%nat ->
  obi_normalize_buffer n b =
  (OBI_SUCCESS, store_canonical n (canonical_bytes n (data b)),
   store_data b (canonical_bytes n (data b))).
Proof.
  intros Hi Hd Hlen. unfold obi_normalize_buffer. rewrite Hi. simpl negb. cbv iota.
  replace (List.length (apply_character_mappings (data b) USCN_CANONICAL_BUFFER_SIZE) =? 0)%nat
    with false.
  2:{ symmetry. apply Nat.eqb_neq. intros Hz. apply length_zero_iff_nil in Hz.
      apply (proj1 (apply_character_mappings_nil _)) in Hz. contradiction. }
  cbv zeta. fold (canonical_bytes n (data b)).
  pose proof (canonical_bytes_length n (data b)) as Hb.
  apply Nat.leb_gt in Hb. rewrite Hb.
  apply Nat.ltb_ge in Hlen. rewrite Hlen.
  unfold store_canonical. rewrite Hi. reflexivity.
Qed.

End NormalizerFacts.

(** ** Confluence on the path-traversal class *)

Lemma traversal_class_canonical x :
  In x traversal_class ->
  Normalizer.apply_character_mappings x Normalizer.USCN_CANONICAL_BUFFER_SIZE <> []
  /\ canonical_bytes Normalizer.obi_normalizer_create x = str "../".
Proof.
  intros Hin. simpl in Hin.
  repeat (destruct Hin as [<-|Hin];
          [split; [vm_compute; discriminate|vm_compute; reflexivity]|]).
  contradiction.
Qed.

(** C2. Each of the four inputs "../", "%2e%2e%2f", "%c0%af" and ".%2e/"
    is normalized successfully, by a normalizer with the default settings,
    to the same canonical bytes "../" (in a buffer that can hold three
    bytes). *)
Theorem normalization_confluence_path_traversal (b : obi_buffer_t) :
  In (data b) traversal_class ->
  (3 <= max_size b)%nat ->
  Normalizer.obi_normalize_buffer Normalizer.obi_normalizer_create b =
  (OBI_SUCCESS,
   store_canonical Normalizer.obi_normalizer_create (str "../"),
   store_data b (str "../")).
Proof.
  intros Hin Hmax.
  destruct (traversal_class_canonical _ Hin) as [Hne Hcan].
  rewrite obi_normalize_buffer_success.
  - rewrite Hcan. reflexivity.
  - reflexivity.
  - intros Hd. rewrite Hd in Hne. apply Hne. reflexivity.
  - rewrite Hcan. exact Hmax.
Qed.

Lemma normalization_confluence_path_traversal_witness :
  let b := {| data := str "%c0%af"; max_size := 16; normalized := false;
              validated := false; pattern_hash := [] |} in
  In (data b) traversal_class /\ (3 <= max_size b)%nat
  /\ Normalizer.obi_normalize_buffer Normalizer.obi_normalizer_create b =
     (OBI_SUCCESS,
      store_canonical Normalizer.obi_normalizer_create (str "../"),
      store_data b (str "../")).
Proof.
  intros b.
  assert (Hin : In (data b) traversal_class) by (simpl; tauto).
  assert (Hmax : (3 <= max_size b)%nat) by (simpl; lia).
  split; [exact Hin|]. split; [exact Hmax|].
  exact (normalization_confluence_path_traversal b Hin Hmax).
Defined.

(** ** Outcomes of normalization *)

(** C6, as the specification states it, fails: a canonical form that does
    not fit [max_size] is reported as BUFFER_OVERFLOW, not as
    NORMALIZATION_FAILED. *)
Lemma normalize_overflow_is_not_normalization_failed :
  let b := {| data := str "abc"; max_size := 2; normalized := false;
              validated := false; pattern_hash := [] |} in
  (max_size b < List.length (canonical_bytes Normalizer.obi_normalizer_create (data b)))%nat
  /\ fst (fst (Normalizer.obi_normalize_buffer Normalizer.obi_normalizer_create b))
     = OBI_ERROR_BUFFER_OVERFLOW
  /\ fst (fst (Normalizer.obi_normalize_buffer Normalizer.obi_normalizer_create b))
     <> OBI_ERROR_NORMALIZATION_FAILED.
Proof.
  vm_compute. repeat split; try discriminate. lia.
Qed.

(** The emptiness check follows the mapping pass only: input that
    whitespace folding empties is reported as a success with no bytes. *)
Example whitespace_only_input_succeeds :
  Normalizer.obi_normalize_buffer Normalizer.obi_normalizer_create
    {| data := str " "; max_size := 8; normalized := false;
       validated := false; pattern_hash := [] |}
  = (OBI_SUCCESS,
     store_canonical Normalizer.obi_normalizer_create [],
     {| data := []; max_size := 8; normalized := true;
        validated := false; pattern_hash := [] |}).
Proof. vm_compute. reflexivity. Qed.

(** C6 (amended). On an initialized normalizer, [obi_normalize_buffer]
    fails with NORMALIZATION_FAILED when the input is empty, fails with
    BUFFER_OVERFLOW when the canonical output is longer than [max_size]
    (the buffer is left as it was in both cases), and succeeds, storing the
    canonical bytes and setting the [normalized] flag, when the canonical
    output is non-empty and fits. *)
Theorem normalize_buffer_outcomes (n : Normalizer.obi_normalizer) (b : obi_buffer_t) :
  Normalizer.initialized n = true ->
  let '(r, _, b') := Normalizer.obi_normalize_buffer n b in
  (data b = [] -> r = OBI_ERROR_NORMALIZATION_FAILED /\ b' = b)
  /\ ((max_size b < List.length (canonical_bytes n (data b)))%nat ->
      r = OBI_ERROR_BUFFER_OVERFLOW /\ b' = b)
  /\ (canonical_bytes n (data b) <> [] ->
      (List.length (canonical_bytes n (data b)) <= max_size b)%nat ->
      r = OBI_SUCCESS /\ data b' = canonical_bytes n (data b)
      /\ normalized b' = true).
Proof.
  intros Hi.
  destruct (data b) as [|c d] eqn:Hd.
  - rewrite (obi_normalize_buffer_empty n b Hi Hd).
    split; [auto|]. split.
    + intros Hlt. exfalso. revert Hlt.
      assert (Hc : canonical_bytes n [] = []) by (unfold canonical_bytes;
        destruct (Normalizer.case_sensitive n), (Normalizer.whitespace_normalize n);
        reflexivity).
      rewrite Hc. simpl. lia.
    + intros Hne. exfalso. apply Hne.
      unfold canonical_bytes;
        destruct (Normalizer.case_sensitive n), (Normalizer.whitespace_normalize n);
        reflexivity.
  - assert (Hne : data b <> []) by (rewrite Hd; discriminate).
    rewrite <- Hd.
    destruct (Nat.lt_ge_cases (max_size b)
                (List.length (canonical_bytes n (data b)))) as [Hlt|Hge].
    + rewrite (obi_normalize_buffer_overflow n b Hi Hne Hlt).
      split; [intros He; rewrite He in Hne; contradiction|].
      split; [auto|]. intros _ Hle. lia.
    + rewrite (obi_normalize_buffer_success n b Hi Hne Hge).
      split; [intros He; rewrite He in Hne; contradiction|].
      split; [intros Hlt; lia|]. intros _ _. simpl. auto.
Qed.

Lemma normalize_buffer_outcomes_witness :
  let b := {| data := str "A%20  b"; max_size := 8; normalized := false;
              validated := false; pattern_hash := [] |} in
  Normalizer.initialized Normalizer.obi_normalizer_create = true
  /\ fst (fst (Normalizer.obi_normalize_buffer Normalizer.obi_normalizer_create b))
     = OBI_SUCCESS
  /\ data (snd (Normalizer.obi_normalize_buffer Normalizer.obi_normalizer_create b))
     = str "a b".
Proof.
  intros b.
  pose proof (normalize_buffer_outcomes Normalizer.obi_normalizer_create b eq_refl) as H.
  destruct (Normalizer.obi_normalize_buffer Normalizer.obi_normalizer_create b)
    as [[r n'] b'].
  destruct H as (_ & _ & H).
  assert (Hc : canonical_bytes Normalizer.obi_normalizer_create (data b) = str "a b")
    by (vm_compute; reflexivity).
  rewrite Hc in H.
  destruct H as (Hr & Hdata & _); [discriminate|simpl; lia|].
  split; [reflexivity|]. split; [exact Hr|exact Hdata].
Defined.

(* ================================================================= *)
(** * Properties of the automaton *)

Section AutomatonFacts.

Import Automaton.
Local Open Scope Z_scope.

Lemma set_transition_other_row t s c v s' c' :
  s' <> s -> set_transition t s c v s' c' = t s' c'.
Proof.
  intros Hne. unfold set_transition.
  destruct (Z.eqb_spec s' s); [contradiction|reflexivity].
Qed.

Lemma fold_transition_other_row (f : Z -> bool) s v s' c' : forall l t,
  s' <> s ->
  fold_left (fun t i => if f i then set_transition t s i v else t) l t s' c'
  = t s' c'.
Proof.
  induction l as [|i l IH]; intros t Hne; simpl; [reflexivity|].
  rewrite IH by assumption.
  destruct (f i); [apply set_transition_other_row; assumption|reflexivity].
Qed.

Lemma fold_transition_other_row' s v s' c' : forall l t,
  s' <> s ->
  fold_left (fun t i => set_transition t s i v) l t s' c' = t s' c'.
Proof.
  induction l as [|i l IH]; intros t Hne; simpl; [reflexivity|].
  rewrite IH by assumption. apply set_transition_other_row; assumption.
Qed.

Lemma reject_row (c : Z) : build_transition_table 5%Z c = 5%Z.
Proof.
  unfold build_transition_table. cbv zeta.
  repeat first
    [ rewrite set_transition_other_row by discriminate
    | rewrite fold_transition_other_row by discriminate
    | rewrite fold_transition_other_row' by discriminate ].
  reflexivity.
Qed.

(** An early return of the loop is not affected by further input. *)
Lemma process_loop_early_return : forall prefix suffix a x,
  process_loop a prefix = inl x ->
  process_loop a (prefix ++ suffix) = inl x.
Proof.
  induction prefix as [|c prefix IH]; intros suffix a x H; simpl in *.
  - discriminate.
  - destruct (state_count a <=? _)%Z; [exact H|].
    destruct (_ =? 5)%Z; [exact H|].
    apply IH. exact H.
Qed.

Lemma process_loop_early_result : forall input a r a',
  process_loop a input = inl (r, a') ->
  r <> OBI_SUCCESS /\ current_state a' = 5%Z.
Proof.
  induction input as [|c input IH]; intros a r a' H; simpl in *.
  - discriminate.
  - destruct (state_count a <=? _)%Z.
    + inversion H; subst. split; [discriminate|reflexivity].
    + destruct (_ =? 5)%Z eqn:E.
      * inversion H; subst. split; [discriminate|].
        simpl. apply Z.eqb_eq. exact E.
      * eapply IH. exact H.
Qed.

(** A loop that consumes all its input never stops in the reject state
    (unless it started there on no input). *)
Lemma process_loop_consumed : forall input a a',
  current_state a <> 5%Z ->
  process_loop a input = inr a' ->
  current_state a' <> 5%Z.
Proof.
  induction input as [|c input IH]; intros a a' Hs H; simpl in *.
  - inversion H; subst. exact Hs.
  - destruct (state_count a <=? _)%Z; [discriminate|].
    destruct (_ =? 5)%Z eqn:E; [discriminate|].
    eapply IH; [|exact H]. simpl. apply Z.eqb_neq. exact E.
Qed.

(** C7. The reject state is absorbing in the transition table, and a run
    of [obi_automaton_process] that ends in the reject state on some input
    ends with the same failure, in the same state, on every extension of
    that input. *)
Theorem reject_state_absorbing :
  (forall c : byte, transition_table obi_automaton_create 5%Z c = 5%Z)
  /\ (forall (b : obi_buffer_t) (prefix suffix : list byte) r a' b',
        obi_automaton_process obi_automaton_create (with_data b prefix) = (r, a', b') ->
        current_state a' = 5%Z ->
        r <> OBI_SUCCESS
        /\ obi_automaton_process obi_automaton_create (with_data b (prefix ++ suffix))
           = (r, a', with_data b (prefix ++ suffix))).
Proof.
  split; [exact reject_row|].
  intros b prefix suffix r a' b' H Hs.
  unfold obi_automaton_process in *. simpl initialized in *. simpl negb in *.
  cbv iota in *. simpl data in *.
  destruct (process_loop (set_run obi_automaton_create 0 []) prefix)
    as [[r0 a0]|a0] eqn:Hl.
  - inversion H; subst.
    rewrite (process_loop_early_return _ suffix _ _ Hl).
    split; [|reflexivity].
    apply (process_loop_early_result _ _ _ _ Hl).
  - exfalso.
    assert (Hne : current_state a0 <> 5%Z).
    { eapply process_loop_consumed; [|exact Hl]. simpl. discriminate. }
    destruct (negb (state_is_accepting a0 (current_state a0)));
      inversion H; subst; simpl in Hs; contradiction.
Qed.

Lemma reject_state_absorbing_witness :
  let b := {| data := []; max_size := 64; normalized := true;
              validated := false; pattern_hash := repeat 0%Z 32 |} in
  fst (fst (obi_automaton_process obi_automaton_create (with_data b (str "{x" ++ str "}"))))
  = OBI_ERROR_VALIDATION_FAILED.
Proof.
  intros b.
  destruct reject_state_absorbing as [_ H].
  destruct (obi_automaton_process obi_automaton_create (with_data b (str "{x")))
    as [[r a'] b'] eqn:E.
  assert (Hs : current_state a' = 5%Z).
  { vm_compute in E. inversion E. reflexivity. }
  destruct (H b (str "{x") (str "}") r a' b' E Hs) as [_ H2].
  rewrite H2. simpl.
  vm_compute in E. inversion E. reflexivity.
Defined.

(** In the JSON_START state, spaces are skipped and the closing brace
    accepts. *)
Lemma process_loop_spaces_then_close : forall (n : nat) (a : obi_automaton),
  transition_table a = build_transition_table ->
  state_count a = 6%Z ->
  current_state a = 1%Z ->
  exists a',
    process_loop a (repeat 32%Z n ++ [125%Z]) = inr a'
    /\ current_state a' = 4%Z /\ same_machine a a'.
Proof.
  induction n as [|n IH]; intros a Ht Hc Hs.
  - simpl. rewrite Ht, Hc, Hs.
    replace (normalize_character 125) with 125%Z by (vm_compute; reflexivity).
    replace (build_transition_table 1 125) with 4%Z by (vm_compute; reflexivity).
    simpl. eexists. split; [reflexivity|].
    split; [reflexivity|]. repeat split.
  - simpl repeat. simpl app. simpl process_loop. rewrite Ht, Hc, Hs.
    replace (normalize_character 32) with 32%Z by (vm_compute; reflexivity).
    replace (build_transition_table 1 32) with 1%Z by (vm_compute; reflexivity).
    change (6 <=? 1) with false. cbv iota.
    match goal with
    | |- context [process_loop ?a1 (repeat _ _ ++ _)] =>
      destruct (IH a1) as (a' & Hl & Hs' & Hm);
        [exact Ht|exact Hc|reflexivity|]
    end.
    exists a'. split; [exact Hl|]. split; [exact Hs'|].
    destruct Hm as (H1 & H2 & H3 & H4). repeat split; assumption.
Qed.

(** C10. The automaton accepts the empty object: on "{", any number of
    spaces, "}" the loop consumes the whole input, ends in the accepting
    state 4, and [obi_automaton_process] returns OBI_SUCCESS. *)
Theorem automaton_accepts_empty_object (b : obi_buffer_t) (n : nat) :
  let input := str "{" ++ repeat 32%Z n ++ str "}" in
  exists a1 a' b',
    process_loop (set_run obi_automaton_create 0 []) input = inr a1
    /\ current_state a1 = 4%Z
    /\ state_is_accepting a1 4 = true
    /\ obi_automaton_process obi_automaton_create (with_data b input)
       = (OBI_SUCCESS, a', b')
    /\ current_state a' = 4%Z.
Proof.
  intros input. unfold input.
  change (str "{") with [123%Z]. change (str "}") with [125%Z].
  unfold obi_automaton_process. simpl initialized. simpl negb. cbv iota.
  simpl data. simpl app.
  cbn [process_loop].
  replace (normalize_character 123) with 123%Z by (vm_compute; reflexivity).
  simpl current_state. simpl transition_table. simpl state_count.
  replace (build_transition_table 0 123) with 1%Z by (vm_compute; reflexivity).
  change (6 <=? 1) with false. change (1 =? 5) with false. cbv iota.
  match goal with
  | |- context [process_loop ?a0 (repeat _ _ ++ _)] =>
    destruct (process_loop_spaces_then_close n a0) as (a1 & Hl & Hs & Hm);
      [reflexivity|reflexivity|reflexivity|]
  end.
  rewrite Hl.
  assert (Hacc : state_is_accepting a1 4 = true).
  { unfold state_is_accepting. destruct Hm as (_ & _ & Hst & _).
    rewrite Hst. reflexivity. }
  exists a1. do 2 eexists.
  split; [reflexivity|]. split; [exact Hs|]. split; [exact Hacc|].
  rewrite Hs, Hacc. simpl negb. cbv iota.
  split; reflexivity.
Qed.

End AutomatonFacts.

(* ================================================================= *)
(** * Properties of the audit log *)

Section AuditFacts.

Import Audit.

(** The checksum does not read the compliance tag (nor the stored
    checksum). *)
Lemma checksum_independent_of_compliance (e : obi_audit_entry_t) (tag : list byte) :
  calculate_entry_checksum (set_compliance_level e tag) = calculate_entry_checksum e.
Proof.
  unfold calculate_entry_checksum, set_compliance_level.
  cbn [timestamp operation hash_reference context sequence_number].
  reflexivity.
Qed.

Lemma written_entry_verifies st now op hash :
  let '(_, _, e) := obi_audit_log_operation st now op hash in
  calculate_entry_checksum e = checksum e.
Proof.
  unfold obi_audit_log_operation, calculate_entry_checksum.
  cbn [timestamp operation hash_reference context sequence_number checksum].
  reflexivity.
Qed.

(** C5 (the code at the failing input). For every entry that
    [obi_audit_log_operation] writes, replacing the compliance tag of the
    written line by any other tag leaves the recomputed checksum equal to
    the stored one: [obi_audit_verify_integrity] counts no failure and
    returns OBI_SUCCESS. *)
Theorem tampered_compliance_tag_verifies
    (st : audit_state_t) (now : Z) (op hash tag : list byte) :
  let '(_, _, e) := obi_audit_log_operation st now op hash in
  obi_audit_verify_integrity (Some [read_back (set_compliance_level e tag)])
  = OBI_SUCCESS.
Proof.
  pose proof (written_entry_verifies st now op hash) as Hw.
  destruct (obi_audit_log_operation st now op hash) as [[r st'] e].
  unfold obi_audit_verify_integrity, read_back.
  cbn [count_failures].
  rewrite checksum_independent_of_compliance.
  replace (checksum (set_compliance_level e tag)) with (checksum e) by reflexivity.
  rewrite Hw, Z.eqb_refl. reflexivity.
Qed.

(** The same at a literal log line: the tag NASA-STD-8739.8 changed in its
    last byte. *)
Example tampered_compliance_tag_example :
  let st := {| initialized := true; log_file := Some [];
               sequence_counter := 0;
               current_session_id := str "OBI_6553F100_0BADF00D" |} in
  let '(_, _, e) :=
    obi_audit_log_operation st 1700000000 (str "BUFFER_VALIDATION") [37; 184; 101; 84]%Z in
  compliance_level e = str "NASA-STD-8739.8"
  /\ obi_audit_verify_integrity
       (Some [read_back (set_compliance_level e (str "NASA-STD-8739.9"))])
     = OBI_SUCCESS.
Proof. vm_compute. split; reflexivity. Qed.

End AuditFacts.

(* ================================================================= *)
(** * Properties of the cost evaluator and of validator construction *)

Section ValidatorFacts.

Import Validator.
Local Open Scope R_scope.

Lemma ln_2_pos : 0 < ln 2.
Proof. pose proof ln_lt_2. lra. Qed.

Lemma log2_1 : log2 1 = 0.
Proof. unfold log2. rewrite ln_1. pose proof ln_2_pos. field. lra. Qed.

Lemma fold_left_fixed {A B : Type} (f : A -> B -> A) (l : list B) (a : A) :
  (forall x, In x l -> f a x = a) -> fold_left f l a = a.
Proof.
  induction l as [|x l IH]; intros H; simpl; [reflexivity|].
  rewrite (H x) by (left; reflexivity).
  apply IH. intros y Hy. apply H. right. exact Hy.
Qed.

Lemma epsilon_below_sixteenth : OBI_EPSILON_MIN < / 16.
Proof. unfold OBI_EPSILON_MIN. simpl. lra. Qed.

Lemma sample_count_bounds (b : obi_buffer_t) :
  data b <> [] -> (1 <= sample_count b <= 16)%nat.
Proof.
  intros Hne. unfold sample_count.
  destruct (data b) as [|c d]; [contradiction|]. simpl List.length.
  destruct (S (List.length d) <? 16)%nat eqn:E.
  - apply Nat.ltb_lt in E. lia.
  - lia.
Qed.

Lemma uniform_weight_bounds (n : nat) :
  (1 <= n <= 16)%nat -> OBI_EPSILON_MIN < 1 / INR n /\ 0 < 1 / INR n.
Proof.
  intros [H1 H16].
  assert (Hpos : 0 < INR n) by (apply lt_0_INR; lia).
  assert (Hle : INR n <= 16).
  { replace 16 with (INR 16) by (simpl; lra). apply le_INR. exact H16. }
  assert (Hinv : / 16 <= / INR n) by (apply Rinv_le_contravar; assumption).
  pose proof epsilon_below_sixteenth.
  unfold Rdiv. rewrite Rmult_1_l. split; lra.
Qed.

(** The divergence of the uniform distribution from itself is zero. *)
Lemma kl_divergence_uniform (n : nat) :
  (1 <= n <= 16)%nat ->
  obi_kl_divergence (repeat (1 / INR n) n) (repeat (1 / INR n) n) n = 0.
Proof.
  intros Hn. unfold obi_kl_divergence.
  destruct (Nat.eqb_spec n 0) as [->|_]; [lia|].
  destruct (uniform_weight_bounds n Hn) as [He Hp].
  assert (Hpos : 0 < INR n) by (apply lt_0_INR; lia).
  apply fold_left_fixed. intros i Hi. apply in_seq in Hi.
  rewrite !nth_repeat_lt by lia.
  destruct (Rle_dec (1 / INR n) 0) as [|_]; [lra|].
  destruct (Rlt_dec (1 / INR n) OBI_EPSILON_MIN) as [|_]; [lra|].
  replace (1 / INR n / (1 / INR n)) with 1 by (field; lra).
  rewrite log2_1. ring.
Qed.

(** Both entropies are computed by the same rounds on the same values. *)
Lemma entropies_same (p : list R) (n : nat) :
  fst (entropies p p n) = snd (entropies p p n).
Proof.
  unfold entropies.
  assert (H : forall l (e : R * R), fst e = snd e ->
            fst (fold_left
                   (fun e i =>
                      let x := nth i p 0 in
                      let y := nth i p 0 in
                      let ei := if Rlt_dec 0 x then fst e - x * log2 x else fst e in
                      let ej := if Rlt_dec 0 y then snd e - y * log2 y else snd e in
                      (ei, ej)) l e)
            = snd (fold_left
                   (fun e i =>
                      let x := nth i p 0 in
                      let y := nth i p 0 in
                      let ei := if Rlt_dec 0 x then fst e - x * log2 x else fst e in
                      let ej := if Rlt_dec 0 y then snd e - y * log2 y else snd e in
                      (ei, ej)) l e)).
  { induction l as [|i l IH]; intros e He; simpl; [exact He|].
    apply IH. simpl. destruct (Rlt_dec 0 (nth i p 0)); rewrite He; reflexivity. }
  apply H. reflexivity.
Qed.

Lemma traversal_cost_uniform (n : nat) (a b : R) :
  (1 <= n <= 16)%nat ->
  0 <= a -> 0 <= b -> a + b <= 10001 / 10000 ->
  obi_calculate_traversal_cost (repeat (1 / INR n) n) (repeat (1 / INR n) n) n a b = 0.
Proof.
  intros Hn Ha Hb Hab. unfold obi_calculate_traversal_cost.
  destruct (Nat.eqb_spec n 0) as [->|_]; [lia|].
  destruct (Rlt_dec a 0) as [|_]; [lra|].
  destruct (Rlt_dec b 0) as [|_]; [lra|].
  destruct (Rlt_dec (10001 / 10000) (a + b)) as [|_]; [lra|].
  rewrite (kl_divergence_uniform n Hn).
  destruct (Rlt_dec 0 0) as [|_]; [lra|].
  unfold obi_entropy_change. rewrite entropies_same. ring.
Qed.

Lemma created_validator_parameters ctx v :
  obi_validator_create true (Some ctx) = (OBI_SUCCESS, Some v) ->
  context v = ctx
  /\ 0 <= alpha ctx /\ 0 <= beta ctx /\ alpha ctx + beta ctx <= 10001 / 10000.
Proof.
  unfold obi_validator_create. cbn [negb].
  destruct (Rlt_dec (alpha ctx) 0) as [|Ha]; [discriminate|].
  destruct (Rlt_dec (beta ctx) 0) as [|Hb]; [discriminate|].
  destruct (Rlt_dec (10001 / 10000) (alpha ctx + beta ctx)) as [|Hs]; [discriminate|].
  destruct (negb (zero_trust_enforced ctx)); [discriminate|].
  intros H. inversion H; subst. cbn [context]. repeat split; lra.
Qed.

(** C8. For a validator that [obi_validator_create] returned and a
    non-empty buffer whose derived distribution P equals the uniform
    comparison distribution Q, [validate_mathematical_properties] succeeds
    and stores the cost 0 and the zone AUTONOMOUS. *)
Theorem cost_identity (ctx : obi_validation_context_t) (v : obi_validator)
    (b : obi_buffer_t) :
  obi_validator_create true (Some ctx) = (OBI_SUCCESS, Some v) ->
  data b <> [] ->
  distribution_pi b = distribution_pj b ->
  validate_mathematical_properties v b =
  (OBI_SUCCESS,
   {| data := data b;
      security_level := security_level b;
      normalized := normalized b;
      validated := validated b;
      cost_value := 0;
      governance_zone := OBI_ZONE_AUTONOMOUS |})
  /\ obi_assess_governance_zone 0 = OBI_ZONE_AUTONOMOUS.
Proof.
  intros Hv Hne Heq.
  destruct (created_validator_parameters _ _ Hv) as (Hc & Ha & Hb & Hab).
  assert (Hz : obi_assess_governance_zone 0 = OBI_ZONE_AUTONOMOUS).
  { unfold obi_assess_governance_zone, OBI_COST_THRESHOLD.
    destruct (Rle_dec 0 (5 / 10)) as [|Hn]; [reflexivity|]. exfalso. apply Hn. lra. }
  split; [|exact Hz].
  unfold validate_mathematical_properties. rewrite Heq, Hc.
  unfold distribution_pj.
  rewrite (traversal_cost_uniform _ _ _ (sample_count_bounds b Hne) Ha Hb Hab).
  destruct (Rlt_dec 0 0) as [|_]; [lra|].
  cbn [governance_zone]. rewrite Hz. reflexivity.
Qed.

Lemma cost_identity_witness :
  let ctx := {| zero_trust_enforced := true; canonical_only := true;
                alpha := 6 / 10; beta := 4 / 10; epsilon_min := OBI_EPSILON_MIN |} in
  let v := {| context := ctx; initialized := true; validation_count := 0 |} in
  let b := {| data := [65; 65]%Z; security_level := 0; normalized := true;
              validated := false; cost_value := 0;
              governance_zone := OBI_ZONE_AUTONOMOUS |} in
  fst (validate_mathematical_properties v b) = OBI_SUCCESS
  /\ cost_value (snd (validate_mathematical_properties v b)) = 0.
Proof.
  intros ctx v b.
  assert (Hv : obi_validator_create true (Some ctx) = (OBI_SUCCESS, Some v)).
  { unfold obi_validator_create, ctx, v. cbn [negb alpha beta zero_trust_enforced].
    destruct (Rlt_dec (6 / 10) 0) as [|_]; [lra|].
    destruct (Rlt_dec (4 / 10) 0) as [|_]; [lra|].
    destruct (Rlt_dec (10001 / 10000) (6 / 10 + 4 / 10)) as [|_]; [lra|].
    reflexivity. }
  assert (Hne : data b <> []) by discriminate.
  assert (Heq : distribution_pi b = distribution_pj b).
  { unfold distribution_pi, distribution_pj, raw_weights, sample_count, b.
    simpl. f_equal; [|f_equal]; field. }
  destruct (cost_identity ctx v b Hv Hne Heq) as [H _].
  rewrite H. split; reflexivity.
Defined.

(** *** A negative cost *)

Lemma log2_2 : log2 2 = 1.
Proof. unfold log2. pose proof ln_2_pos. field. lra. Qed.

Lemma log2_half : log2 (1 / 2) = -1.
Proof.
  unfold log2, Rdiv. rewrite Rmult_1_l, ln_Rinv by lra.
  pose proof ln_2_pos. field. lra.
Qed.

Lemma log2_third : log2 (1 / 3) = - log2 3.
Proof.
  unfold log2, Rdiv. rewrite Rmult_1_l, ln_Rinv by lra.
  pose proof ln_2_pos. field. lra.
Qed.

Lemma log2_two_thirds : log2 (2 / 3) = 1 - log2 3.
Proof.
  unfold log2, Rdiv. rewrite ln_mult, ln_Rinv by lra.
  pose proof ln_2_pos. field. lra.
Qed.

(** 3^3 < 2^5. *)
Lemma log2_3_upper : log2 3 < 5 / 3.
Proof.
  assert (H : ln (3 ^ 3) < ln (2 ^ 5)) by (apply ln_increasing; simpl; lra).
  rewrite !ln_pow in H by lra. simpl INR in H.
  pose proof ln_2_pos as H2. unfold log2.
  apply (Rmult_lt_reg_r (ln 2)); [exact H2|].
  replace (ln 3 / ln 2 * ln 2) with (ln 3) by (field; lra). lra.
Qed.

Lemma skewed_distributions :
  distribution_pi skewed_buffer = [1 / 3; 2 / 3]
  /\ distribution_pj skewed_buffer = [1 / 2; 1 / 2].
Proof.
  unfold distribution_pi, distribution_pj, raw_weights, sample_count, skewed_buffer.
  simpl.
  split; (apply f_equal2; [field|apply f_equal2; [field|reflexivity]]).
Qed.

Lemma skewed_cost_negative :
  obi_calculate_traversal_cost
    (distribution_pi skewed_buffer) (distribution_pj skewed_buffer)
    (sample_count skewed_buffer) (alpha skewed_context) (beta skewed_context) < 0.
Proof.
  destruct skewed_distributions as [-> ->].
  change (sample_count skewed_buffer) with 2%nat.
  unfold obi_calculate_traversal_cost, skewed_context. cbn [alpha beta Nat.eqb].
  destruct (Rlt_dec 0 0) as [|_]; [lra|].
  destruct (Rlt_dec 1 0) as [|_]; [lra|].
  destruct (Rlt_dec (10001 / 10000) (0 + 1)) as [|_]; [lra|].
  destruct (Rlt_dec (obi_kl_divergence [1 / 3; 2 / 3] [1 / 2; 1 / 2] 2) 0) as [|_];
    [lra|].
  unfold entropies, obi_entropy_change. cbn [seq fold_left nth fst snd].
  destruct (Rlt_dec 0 (1 / 3)) as [_|]; [|lra].
  destruct (Rlt_dec 0 (2 / 3)) as [_|]; [|lra].
  destruct (Rlt_dec 0 (1 / 2)) as [_|]; [|lra].
  rewrite log2_half, log2_third, log2_two_thirds.
  pose proof log2_3_upper. lra.
Qed.

(** C4 (the code at the failing input). With the accepted parameters
    alpha = 0 and beta = 1, the two-byte payload "0a" gives P = (1/3, 2/3)
    against the uniform Q = (1/2, 1/2): the cost that
    [obi_calculate_traversal_cost] returns is negative, and
    [validate_mathematical_properties] reports NUMERICAL_INSTABILITY. *)
Theorem admission_cost_negative :
  exists v,
    obi_validator_create true (Some skewed_context) = (OBI_SUCCESS, Some v)
    /\ obi_calculate_traversal_cost
         (distribution_pi skewed_buffer) (distribution_pj skewed_buffer)
         (sample_count skewed_buffer) (alpha (context v)) (beta (context v)) < 0
    /\ validate_mathematical_properties v skewed_buffer
       = (OBI_ERROR_NUMERICAL_INSTABILITY, skewed_buffer).
Proof.
  exists {| context := skewed_context; initialized := true; validation_count := 0 |}.
  split; [|split].
  - unfold obi_validator_create, skewed_context.
    cbn [negb alpha beta zero_trust_enforced].
    destruct (Rlt_dec 0 0) as [|_]; [lra|].
    destruct (Rlt_dec 1 0) as [|_]; [lra|].
    destruct (Rlt_dec (10001 / 10000) (0 + 1)) as [|_]; [lra|].
    reflexivity.
  - exact skewed_cost_negative.
  - unfold validate_mathematical_properties. cbn [context].
    destruct (Rlt_dec _ 0) as [_|Hn]; [reflexivity|].
    exfalso. apply Hn. exact skewed_cost_negative.
Qed.

End ValidatorFacts.

(* ================================================================= *)
(** * Validator construction on doubles *)

Section ValidatorConstruction.

Import ValidatorDouble.
Import PrimFloat SpecFloat FloatAxioms.
#[local] Set Warnings "-inexact-float".

Lemma SFcompare_antisym (x y : spec_float) :
  SFcompare y x = option_map CompOpp (SFcompare x y).
Proof.
  destruct x as [sx|sx| |sx mx ex], y as [sy|sy| |sy my ey]; cbn;
    try reflexivity; try (destruct sx, sy; reflexivity);
    try (destruct sx; reflexivity); try (destruct sy; reflexivity).
  change (PosDef.Pos.compare_cont Eq my mx) with (Pos.compare my mx).
  change (PosDef.Pos.compare_cont Eq mx my) with (Pos.compare mx my).
  rewrite (Z.compare_antisym ex ey), (Pos.compare_antisym mx my).
  destruct sx, sy; cbn; try reflexivity;
    destruct (ex ?= ey)%Z; cbn; try reflexivity;
    destruct (mx ?= my)%positive; reflexivity.
Qed.

(** A comparison that holds excludes the opposite one. *)
Lemma ltb_not_leb (x y : float) :
  (x <? y)%float = true -> (y <=? x)%float = false.
Proof.
  rewrite ltb_spec, leb_spec. unfold SFltb, SFleb.
  rewrite (SFcompare_antisym (FloatOps.Prim2SF x) (FloatOps.Prim2SF y)).
  destruct (SFcompare (FloatOps.Prim2SF x) (FloatOps.Prim2SF y)) as [[]|];
    cbn; congruence.
Qed.

(** C9 (the code at the failing input).  With a context given and the
    allocation successful, [obi_validator_create] reports
    NUMERICAL_INSTABILITY only for weights that violate alpha >= 0,
    beta >= 0 or alpha + beta <= 1.0001, and then leaves no validator;
    alpha = 0.8 with beta = 0.5 is such a case.  The converse fails: the
    three tests are [<], [<] and [>], which are all false on a weight that
    is not a number, so alpha = NaN violates alpha >= 0 and is accepted
    with SUCCESS, the validator holding the NaN weight. *)
Theorem validator_create_accepts_nan_weight :
  (forall ctx,
     fst (obi_validator_create true (Some ctx)) = OBI_ERROR_NUMERICAL_INSTABILITY ->
     satisfies_constraints ctx = false
     /\ snd (obi_validator_create true (Some ctx)) = None)
  /\ obi_validator_create true (Some (weights 0.8 0.5))
     = (OBI_ERROR_NUMERICAL_INSTABILITY, None)
  /\ satisfies_constraints (weights nan 0.5) = false
  /\ obi_validator_create true (Some (weights nan 0.5))
     = (OBI_SUCCESS,
        Some {| context := weights nan 0.5; initialized := true;
                validation_count := 0 |}).
Proof.
  split; [|vm_compute; repeat split].
  intros ctx. unfold obi_validator_create, satisfies_constraints. cbn [negb].
  destruct (alpha ctx <? 0)%float eqn:Ea.
  { intros _. rewrite (ltb_not_leb _ _ Ea). split; reflexivity. }
  destruct (beta ctx <? 0)%float eqn:Eb.
  { intros _. rewrite (ltb_not_leb _ _ Eb), andb_false_r. split; reflexivity. }
  destruct (1.0001 <? alpha ctx + beta ctx)%float eqn:Es.
  { intros _. rewrite (ltb_not_leb _ _ Es), andb_false_r. split; reflexivity. }
  cbn [orb]. destruct (negb (zero_trust_enforced ctx)); cbn [fst];
    intros H; discriminate H.
Qed.

End ValidatorConstruction.

(* ================================================================= *)
(** * The mapping pass: exact matching and reduced outputs *)

Section MappingPass.

Import Normalizer.
Local Open Scope Z_scope.

Lemma bytes_eqb_eq : forall a b, bytes_eqb a b = true <-> a = b.
Proof.
  induction a as [|x a IH]; intros [|y b]; simpl; split; intros H;
    try reflexivity; try discriminate.
  - apply andb_true_iff in H. destruct H as [H1 H2].
    apply Z.eqb_eq in H1. apply IH in H2. subst. reflexivity.
  - inversion H; subst. rewrite Z.eqb_refl. simpl. apply IH. reflexivity.
Qed.

(** [memcmp] succeeds exactly on the bytes of the encoded form. *)
Lemma mapping_matches_iff (m : uscn_mapping_t) (rest : list byte) :
  encoded_len m = List.length (encoded_form m) ->
  (mapping_matches m rest = true
   <-> exists tl, rest = encoded_form m ++ tl).
Proof.
  intros Hlen. unfold mapping_matches. rewrite Hlen, firstn_all. split.
  - intros H. apply andb_true_iff in H. destruct H as [_ H].
    apply bytes_eqb_eq in H.
    exists (skipn (List.length (encoded_form m)) rest).
    pose proof (firstn_skipn (List.length (encoded_form m)) rest) as E.
    rewrite H in E. symmetry. exact E.
  - intros [tl ->]. apply andb_true_iff. split.
    + apply Nat.leb_le. rewrite length_app. lia.
    + apply bytes_eqb_eq. rewrite firstn_app, firstn_all, Nat.sub_diag. simpl.
      apply app_nil_r.
Qed.

Lemma table_lengths (m : uscn_mapping_t) :
  In m uscn_mappings ->
  encoded_len m = List.length (encoded_form m)
  /\ canonical_len m = List.length (canonical_form m).
Proof.
  intros Hin. simpl in Hin.
  repeat (destruct Hin as [<-|Hin]; [split; reflexivity|]). contradiction.
Qed.

Lemma find_mapping_none table rest opos omax :
  (forall m, In m table ->
     mapping_matches m rest && (opos + canonical_len m <? omax)%nat = false) ->
  find_mapping table rest opos omax = None.
Proof.
  unfold find_mapping. induction table as [|m table IH]; intros H; simpl.
  - reflexivity.
  - rewrite (H m) by (left; reflexivity). apply IH.
    intros m' Hm'. apply H. right. exact Hm'.
Qed.

Lemma in_prefix_in {A : Type} (x : A) (k tl l : list A) :
  l = k ++ tl -> In x k -> In x l.
Proof. intros -> H. apply in_or_app. left. exact H. Qed.

(** An entry with a lower-case letter cannot match input without one. *)
Lemma no_lower_no_match (m : uscn_mapping_t) (rest : list byte) :
  In m uscn_mappings ->
  Forall (fun c => is_lower c = false) rest ->
  mapping_matches m rest = true ->
  m = mk_mapping (str "%20") (str " ") 3 1.
Proof.
  intros Hin Hlow Hm.
  apply mapping_matches_iff in Hm; [|apply table_lengths; exact Hin].
  destruct Hm as [tl Htl].
  rewrite Forall_forall in Hlow.
  simpl in Hin.
  repeat (destruct Hin as [<-|Hin];
          [first [ reflexivity
                 | exfalso;
                   first [ assert (Hx : In 101 rest)
                             by (eapply in_prefix_in; [exact Htl|simpl; tauto]);
                           apply Hlow in Hx; discriminate Hx
                         | assert (Hx : In 99 rest)
                             by (eapply in_prefix_in; [exact Htl|simpl; tauto]);
                           apply Hlow in Hx; discriminate Hx
                         | assert (Hx : In 102 rest)
                             by (eapply in_prefix_in; [exact Htl|simpl; tauto]);
                           apply Hlow in Hx; discriminate Hx ] ]|]).
  contradiction.
Qed.

Lemma find_mapping_no_lower rest opos omax :
  Forall (fun c => is_lower c = false) rest ->
  find_mapping uscn_mappings rest opos omax = find_mapping space_table rest opos omax.
Proof.
  intros Hlow.
  assert (H : forall m, In m uscn_mappings ->
                m <> mk_mapping (str "%20") (str " ") 3 1 ->
                mapping_matches m rest = false).
  { intros m Hin Hne. destruct (mapping_matches m rest) eqn:E; [|reflexivity].
    exfalso. apply Hne. eapply no_lower_no_match; eassumption. }
  unfold find_mapping, uscn_mappings, space_table. cbn [find].
  repeat match goal with
         | |- context [mapping_matches ?m rest] =>
           rewrite (H m) by (simpl; first [tauto | discriminate])
         end.
  cbn [andb]. reflexivity.
Qed.

Lemma Forall_skipn_keep {A : Type} (P : A -> Prop) (n : nat) (l : list A) :
  Forall P l -> Forall P (skipn n l).
Proof.
  intros H. rewrite <- (firstn_skipn n l) in H.
  apply Forall_app in H. apply H.
Qed.

Lemma Forall_firstn_keep {A : Type} (P : A -> Prop) (n : nat) (l : list A) :
  Forall P l -> Forall P (firstn n l).
Proof.
  intros H. rewrite <- (firstn_skipn n l) in H.
  apply Forall_app in H. apply H.
Qed.

Lemma apply_loop_no_lower omax fuel : forall rest opos,
  Forall (fun c => is_lower c = false) rest ->
  apply_loop uscn_mappings omax fuel rest opos
  = apply_loop space_table omax fuel rest opos.
Proof.
  induction fuel as [|fuel IH]; intros rest opos Hlow; cbn [apply_loop];
    [reflexivity|].
  destruct rest as [|c rest']; [reflexivity|].
  destruct (opos <? omax - 1)%nat; [|reflexivity].
  rewrite (find_mapping_no_lower _ _ _ Hlow).
  destruct (find_mapping space_table (c :: rest') opos omax) as [m|].
  - f_equal. apply IH. apply Forall_skipn_keep. exact Hlow.
  - f_equal. apply IH. inversion Hlow; assumption.
Qed.

End MappingPass.

(** C3 (the code at the failing input).  The normalizer that
    [obi_normalizer_create] builds is not case-sensitive, yet the mapping
    pass compares the table's lower-case keys byte for byte before the case
    is folded: the upper-case spelling "%2E%2E%2Fetc" is not reduced, it
    comes out as "%2e%2e%2fetc" with SUCCESS and the normalized flag set,
    while the lower-case spelling is reduced to "../etc"; likewise "%2E"
    gives "%2e" where "%2e" gives ".". *)
Theorem upper_case_hex_not_reduced :
  let run := fun s : string =>
    Normalizer.obi_normalize_buffer Normalizer.obi_normalizer_create
      {| data := str s; max_size := 64; normalized := false;
         validated := false; pattern_hash := [] |} in
  Normalizer.case_sensitive Normalizer.obi_normalizer_create = false
  /\ fst (fst (run "%2E%2E%2Fetc"%string)) = OBI_SUCCESS
  /\ data (snd (run "%2E%2E%2Fetc"%string)) = str "%2e%2e%2fetc"
  /\ normalized (snd (run "%2E%2E%2Fetc"%string)) = true
  /\ data (snd (run "%2e%2e%2fetc"%string)) = str "../etc"
  /\ data (snd (run "%2E"%string)) = str "%2e"
  /\ data (snd (run "%2e"%string)) = str ".".
Proof. vm_compute. repeat split. Qed.

(** X31. The reach of the mapping pass on upper-case input.  Every table
    entry but "%20" holds a lower-case letter and entries are compared byte
    for byte, so on an input without lower-case letters
    [apply_character_mappings] yields what the table reduced to the entry
    "%20" yields: nothing else is replaced. *)
Theorem mapping_pass_is_case_sensitive (input : list byte) (output_max : nat) :
  Forall (fun c => is_lower c = false) input ->
  Normalizer.apply_character_mappings input output_max
  = Normalizer.apply_character_mappings_with space_table input output_max.
Proof.
  intros Hlow. unfold Normalizer.apply_character_mappings,
    Normalizer.apply_character_mappings_with.
  apply apply_loop_no_lower. exact Hlow.
Qed.

Lemma mapping_pass_is_case_sensitive_witness :
  Forall (fun c => is_lower c = false) (str "%2E%2E%2F%20X")
  /\ Normalizer.apply_character_mappings (str "%2E%2E%2F%20X")
       Normalizer.USCN_CANONICAL_BUFFER_SIZE
     = str "%2E%2E%2F X".
Proof.
  assert (H : Forall (fun c => is_lower c = false) (str "%2E%2E%2F%20X"))
    by (repeat constructor).
  split; [exact H|].
  rewrite (mapping_pass_is_case_sensitive _ _ H).
  vm_compute. reflexivity.
Defined.

(* ================================================================= *)
(** * Idempotence of normalization *)

Section Idempotence.

Import Normalizer.
Local Open Scope Z_scope.

Variable omax : nat.

Local Abbreviation pass := (apply_loop uscn_mappings omax).

Lemma pass_step fuel c rest opos :
  pass (S fuel) (c :: rest) opos =
  if (opos <? omax - 1)%nat then
    match find_mapping uscn_mappings (c :: rest) opos omax with
    | Some m =>
        firstn (canonical_len m) (canonical_form m)
        ++ pass fuel (skipn (encoded_len m) (c :: rest)) (opos + canonical_len m)%nat
    | None => c :: pass fuel rest (opos + 1)%nat
    end
  else [].
Proof. reflexivity. Qed.

(** What a step emits when an entry matches. *)
Lemma table_canonical (m : uscn_mapping_t) :
  In m uscn_mappings ->
  firstn (canonical_len m) (canonical_form m) = [46; 46; 47]
  \/ firstn (canonical_len m) (canonical_form m) = [47]
  \/ firstn (canonical_len m) (canonical_form m) = [46]
  \/ firstn (canonical_len m) (canonical_form m) = [32].
Proof.
  intros Hin. simpl in Hin.
  repeat (destruct Hin as [<-|Hin]; [simpl; tauto|]). contradiction.
Qed.

(** Every iteration consumes input, so any fuel of at least the input
    length gives the same output: the loop has finished before the fuel
    runs out. *)
Lemma pass_fuel : forall f1 f2 rest opos,
  (List.length rest <= f1)%nat -> (List.length rest <= f2)%nat ->
  pass f1 rest opos = pass f2 rest opos.
Proof.
  induction f1 as [|f1 IH]; intros f2 rest opos H1 H2.
  - destruct rest; [destruct f2; reflexivity|simpl in H1; lia].
  - destruct rest as [|c rest]; [destruct f2; reflexivity|].
    destruct f2 as [|f2]; [simpl in H2; lia|].
    rewrite !pass_step. simpl in H1, H2.
    destruct (opos <? omax - 1)%nat; [|reflexivity].
    destruct (find_mapping uscn_mappings (c :: rest) opos omax) as [m|] eqn:Hf.
    + apply find_mapping_some in Hf. destruct Hf as (Hin & _ & _).
      assert (Hpos : (1 <= encoded_len m)%nat).
      { simpl in Hin.
        repeat (destruct Hin as [<-|Hin]; [simpl; lia|]). contradiction. }
      f_equal.
      apply IH; rewrite length_skipn;
        change (List.length (c :: rest)) with (S (List.length rest)); lia.
    + f_equal. apply IH; lia.
Qed.

(** A byte of the output that no canonical form starts with was copied. *)
Lemma pass_head_copied fuel rest opos b out :
  pass fuel rest opos = b :: out ->
  is_canonical_byte b = false ->
  exists fuel' rest',
    fuel = S fuel' /\ rest = b :: rest'
    /\ (opos < omax - 1)%nat
    /\ find_mapping uscn_mappings rest opos omax = None
    /\ out = pass fuel' rest' (opos + 1)%nat.
Proof.
  intros H Hb.
  destruct fuel as [|fuel]; [discriminate|].
  destruct rest as [|c rest]; [discriminate|].
  rewrite pass_step in H.
  destruct (opos <? omax - 1)%nat eqn:Hlt; [|discriminate].
  apply Nat.ltb_lt in Hlt.
  destruct (find_mapping uscn_mappings (c :: rest) opos omax) as [m|] eqn:Hf.
  - exfalso. apply find_mapping_some in Hf. destruct Hf as (Hin & _ & _).
    destruct (table_canonical m Hin) as [E|[E|[E|E]]];
      rewrite E in H; inversion H; subst; discriminate.
  - inversion H; subst. exists fuel, rest. auto.
Qed.

(** A run of such bytes at the head of the output is a run of the input,
    none of whose positions matched. *)
Lemma pass_prefix_copied : forall k fuel rest opos out,
  k <> [] ->
  Forall (fun c => is_canonical_byte c = false) k ->
  pass fuel rest opos = k ++ out ->
  exists rest',
    rest = k ++ rest'
    /\ (opos < omax - 1)%nat
    /\ find_mapping uscn_mappings rest opos omax = None.
Proof.
  induction k as [|b k IH]; intros fuel rest opos out Hne Hk H; [contradiction|].
  inversion Hk as [|? ? Hb Hk']; subst.
  simpl in H.
  destruct (pass_head_copied _ _ _ _ _ H Hb)
    as (fuel' & rest' & -> & -> & Hlt & Hf & Hout).
  destruct k as [|b' k].
  - exists rest'. auto.
  - destruct (IH fuel' rest' (opos + 1)%nat out) as (rest'' & -> & _ & _);
      [discriminate|exact Hk'|symmetry; exact Hout|].
    exists rest''. auto.
Qed.

Lemma core_matches (k tl : list byte) (opos : nat) :
  In k cores -> (opos < omax - 1)%nat ->
  find_mapping uscn_mappings (k ++ tl) opos omax <> None.
Proof.
  intros Hin Hlt Hnone.
  unfold find_mapping in Hnone.
  pose proof (find_none _ _ Hnone) as Hall. cbv beta in Hall.
  assert (Hroom : (opos + 1 <? omax)%nat = true) by (apply Nat.ltb_lt; lia).
  simpl in Hin.
  destruct Hin as [<-|[<-|[<-|[<-|[<-|[]]]]]].
  - specialize (Hall (mk_mapping (str "%2e") (str ".") 3 1)).
    cbn [canonical_len] in Hall. rewrite Hroom, andb_true_r in Hall.
    assert (E : mapping_matches (mk_mapping (str "%2e") (str ".") 3 1)
                  (str "%2e" ++ tl) = true)
      by (apply mapping_matches_iff; [reflexivity|eexists; reflexivity]).
    rewrite E in Hall. discriminate Hall. simpl. tauto.
  - specialize (Hall (mk_mapping (str "%2f") (str "/") 3 1)).
    cbn [canonical_len] in Hall. rewrite Hroom, andb_true_r in Hall.
    assert (E : mapping_matches (mk_mapping (str "%2f") (str "/") 3 1)
                  (str "%2f" ++ tl) = true)
      by (apply mapping_matches_iff; [reflexivity|eexists; reflexivity]).
    rewrite E in Hall. discriminate Hall. simpl. tauto.
  - specialize (Hall (mk_mapping (str "%20") (str " ") 3 1)).
    cbn [canonical_len] in Hall. rewrite Hroom, andb_true_r in Hall.
    assert (E : mapping_matches (mk_mapping (str "%20") (str " ") 3 1)
                  (str "%20" ++ tl) = true)
      by (apply mapping_matches_iff; [reflexivity|eexists; reflexivity]).
    rewrite E in Hall. discriminate Hall. simpl. tauto.
  - specialize (Hall (mk_mapping (str "%c0%ae") (str ".") 6 1)).
    cbn [canonical_len] in Hall. rewrite Hroom, andb_true_r in Hall.
    assert (E : mapping_matches (mk_mapping (str "%c0%ae") (str ".") 6 1)
                  (str "%c0%ae" ++ tl) = true)
      by (apply mapping_matches_iff; [reflexivity|eexists; reflexivity]).
    rewrite E in Hall. discriminate Hall. simpl. tauto.
  - specialize (Hall (mk_mapping (str "%c0%af") (str "/") 6 1)).
    cbn [canonical_len] in Hall. rewrite Hroom, andb_true_r in Hall.
    assert (E : mapping_matches (mk_mapping (str "%c0%af") (str "/") 6 1)
                  (str "%c0%af" ++ tl) = true)
      by (apply mapping_matches_iff; [reflexivity|eexists; reflexivity]).
    rewrite E in Hall. discriminate Hall. simpl. tauto.
Qed.

(** The output of the pass never starts with one of these sequences. *)
Lemma pass_no_core fuel rest opos k out :
  In k cores -> pass fuel rest opos <> k ++ out.
Proof.
  intros Hin H.
  assert (Hk : k <> [] /\ Forall (fun c => is_canonical_byte c = false) k).
  { simpl in Hin.
    destruct Hin as [<-|[<-|[<-|[<-|[<-|[]]]]]];
      (split; [discriminate|repeat constructor]). }
  destruct Hk as [Hne Hk].
  destruct (pass_prefix_copied k fuel rest opos out Hne Hk H)
    as (rest' & -> & Hlt & Hf).
  exact (core_matches k rest' opos Hin Hlt Hf).
Qed.

Lemma matches_decompose (m : uscn_mapping_t) (s : list byte) :
  In m uscn_mappings -> mapping_matches m s = true ->
  exists tl, s = encoded_form m ++ tl.
Proof.
  intros Hin H. apply mapping_matches_iff in H; [exact H|].
  apply table_lengths. exact Hin.
Qed.

(** No entry matches at the head of the output of the pass. *)
Lemma pass_unmatched fuel rest opos : unmatched (pass fuel rest opos).
Proof.
  intros m Hin.
  destruct (mapping_matches m (pass fuel rest opos)) eqn:E; [exfalso|reflexivity].
  destruct (matches_decompose m _ Hin E) as [tl Htl]. clear E.
  assert (Hcore : forall k out, In k cores -> pass fuel rest opos <> k ++ out)
    by (intros; apply pass_no_core; assumption).
  assert (Hdot : pass fuel rest opos <> 46 :: str "%2e" ++ 47 :: tl).
  { intros H.
    destruct fuel as [|fuel]; [discriminate|].
    destruct rest as [|c rest]; [discriminate|].
    rewrite pass_step in H.
    destruct (opos <? omax - 1)%nat; [|discriminate].
    destruct (find_mapping uscn_mappings (c :: rest) opos omax) as [m'|] eqn:Hf.
    - apply find_mapping_some in Hf. destruct Hf as (Hin' & _ & _).
      destruct (table_canonical m' Hin') as [E|[E|[E|E]]];
        rewrite E in H; simpl in H; try discriminate H.
      inversion H as [H1].
      apply (pass_no_core _ _ _ (str "%2e") (47 :: tl)) in H1; [exact H1|].
      simpl. tauto.
    - inversion H as [[Hc H1]].
      apply (pass_no_core _ _ _ (str "%2e") (47 :: tl)) in H1; [exact H1|].
      simpl. tauto. }
  simpl in Hin.
  destruct Hin as [<-|[<-|[<-|[<-|[<-|[<-|[<-|[<-|[<-|[]]]]]]]]]];
    cbn [encoded_form] in Htl.
  - apply (Hcore (str "%2e") (str "%2e%2f" ++ tl)); [simpl; tauto|exact Htl].
  - apply (Hcore (str "%c0%af") tl); [simpl; tauto|exact Htl].
  - apply Hdot. exact Htl.
  - apply (Hcore (str "%2e") (str "%2e/" ++ tl)); [simpl; tauto|exact Htl].
  - apply (Hcore (str "%2f") tl); [simpl; tauto|exact Htl].
  - apply (Hcore (str "%2e") tl); [simpl; tauto|exact Htl].
  - apply (Hcore (str "%20") tl); [simpl; tauto|exact Htl].
  - apply (Hcore (str "%c0%ae") tl); [simpl; tauto|exact Htl].
  - apply (Hcore (str "%c0%af") tl); [simpl; tauto|exact Htl].
Qed.

Lemma unmatched_after_dot (tl : list byte) : unmatched (46 :: 47 :: tl).
Proof.
  intros m Hin.
  destruct (mapping_matches m (46 :: 47 :: tl)) eqn:E; [exfalso|reflexivity].
  destruct (matches_decompose m _ Hin E) as [tl' Htl]. clear E.
  refute_matches Hin Htl.
Qed.

Lemma unmatched_slash (tl : list byte) : unmatched (47 :: tl).
Proof.
  intros m Hin.
  destruct (mapping_matches m (47 :: tl)) eqn:E; [exfalso|reflexivity].
  destruct (matches_decompose m _ Hin E) as [tl' Htl]. clear E.
  refute_matches Hin Htl.
Qed.

Lemma unmatched_space (tl : list byte) : unmatched (32 :: tl).
Proof.
  intros m Hin.
  destruct (mapping_matches m (32 :: tl)) eqn:E; [exfalso|reflexivity].
  destruct (matches_decompose m _ Hin E) as [tl' Htl]. clear E.
  refute_matches Hin Htl.
Qed.

(** No entry matches anywhere in the output of the pass. *)
Lemma pass_reduced fuel : forall rest opos, reduced (pass fuel rest opos).
Proof.
  induction fuel as [|fuel IH]; intros rest opos; [exact I|].
  pose proof (pass_unmatched (S fuel) rest opos) as Hun.
  destruct rest as [|c rest]; [exact I|].
  rewrite pass_step in *.
  destruct (opos <? omax - 1)%nat; [|exact I].
  destruct (find_mapping uscn_mappings (c :: rest) opos omax) as [m|] eqn:Hf.
  - apply find_mapping_some in Hf. destruct Hf as (Hin & _ & _).
    destruct (table_canonical m Hin) as [E|[E|[E|E]]];
      rewrite E in *; simpl app in *; simpl reduced.
    + repeat split; auto using unmatched_after_dot, unmatched_slash.
    + split; auto.
    + split; auto.
    + split; auto.
  - simpl reduced. split; auto.
Qed.

Lemma unmatched_find_none (s : list byte) (opos : nat) :
  unmatched s -> find_mapping uscn_mappings s opos omax = None.
Proof.
  intros H. apply find_mapping_none. intros m Hin. rewrite (H m Hin). reflexivity.
Qed.

(** The pass leaves reduced input that fits the output buffer unchanged. *)
Lemma pass_reduced_id : forall y fuel opos,
  reduced y ->
  (List.length y <= fuel)%nat ->
  (opos + List.length y <= omax - 1)%nat ->
  pass fuel y opos = y.
Proof.
  induction y as [|c y IH]; intros fuel opos Hr Hf Ho.
  - destruct fuel; reflexivity.
  - simpl in Hf, Ho. destruct fuel as [|fuel]; [lia|].
    rewrite pass_step.
    replace (opos <? omax - 1)%nat with true by (symmetry; apply Nat.ltb_lt; lia).
    destruct Hr as [Hun Hr].
    rewrite (unmatched_find_none _ _ Hun).
    f_equal. apply IH; [exact Hr|lia|lia].
Qed.

(** *** Whitespace folding *)

Lemma unmatched_extend (a b : list byte) : unmatched (a ++ b) -> unmatched a.
Proof.
  intros H m Hin.
  destruct (mapping_matches m a) eqn:E; [|reflexivity].
  destruct (matches_decompose m _ Hin E) as [tl ->].
  rewrite <- (H m Hin). symmetry.
  apply mapping_matches_iff; [apply table_lengths; exact Hin|].
  exists (tl ++ b). rewrite app_assoc. reflexivity.
Qed.

Lemma reduced_prefix : forall a b, reduced (a ++ b) -> reduced a.
Proof.
  induction a as [|c a IH]; intros b H; [exact I|].
  simpl in H. destruct H as [Hun Hr]. split.
  - apply (unmatched_extend (c :: a) b). exact Hun.
  - apply (IH b). exact Hr.
Qed.

Lemma reduced_firstn (k : nat) (y : list byte) : reduced y -> reduced (firstn k y).
Proof.
  intros H. rewrite <- (firstn_skipn k y) in H. apply reduced_prefix in H. exact H.
Qed.

Lemma table_no_space (m : uscn_mapping_t) :
  In m uscn_mappings -> Forall (fun c => isspace c = false) (encoded_form m).
Proof.
  intros Hin. simpl in Hin.
  repeat (destruct Hin as [<-|Hin]; [repeat constructor|]). contradiction.
Qed.

(** A run without whitespace at the head of the folded bytes is a run of
    the bytes that were folded. *)
Lemma fold_whitespace_prefix : forall k y tl,
  Forall (fun c => isspace c = false) k ->
  fold_whitespace false y = k ++ tl ->
  exists tl', y = k ++ tl'.
Proof.
  induction k as [|a k IH]; intros y tl Hk H.
  - exists y. reflexivity.
  - inversion Hk as [|? ? Ha Hk']; subst.
    destruct y as [|c y]; [discriminate|].
    simpl in H. destruct (isspace c) eqn:Hc.
    + inversion H; subst. discriminate Ha.
    + inversion H; subst.
      destruct (IH y tl Hk' H2) as [tl' ->]. exists tl'. reflexivity.
Qed.

Lemma fold_whitespace_unmatched (y : list byte) :
  unmatched y -> unmatched (fold_whitespace false y).
Proof.
  intros H m Hin.
  destruct (mapping_matches m (fold_whitespace false y)) eqn:E; [|reflexivity].
  destruct (matches_decompose m _ Hin E) as [tl Htl].
  destruct (fold_whitespace_prefix _ _ _ (table_no_space m Hin) Htl) as [tl' ->].
  rewrite <- (H m Hin). symmetry.
  apply mapping_matches_iff; [apply table_lengths; exact Hin|].
  exists tl'. reflexivity.
Qed.

Lemma fold_whitespace_reduced : forall y w,
  reduced y -> reduced (fold_whitespace w y).
Proof.
  induction y as [|c y IH]; intros w Hr; [exact I|].
  destruct Hr as [Hun Hr].
  pose proof (fold_whitespace_unmatched _ Hun) as Hun'.
  simpl in *. destruct (isspace c).
  - destruct w; [apply IH; exact Hr|].
    split; [apply unmatched_space|apply IH; exact Hr].
  - split; [exact Hun'|apply IH; exact Hr].
Qed.

Lemma normalize_whitespace_reduced (y : list byte) :
  reduced y -> reduced (normalize_whitespace y).
Proof.
  intros H. unfold normalize_whitespace.
  apply reduced_firstn. apply fold_whitespace_reduced. exact H.
Qed.

Lemma fold_whitespace_folded : forall y w, folded w (fold_whitespace w y).
Proof.
  induction y as [|c y IH]; intros w; simpl; [exact I|].
  destruct (isspace c) eqn:Hc.
  - destruct w; [apply IH|]. simpl. repeat split. apply IH.
  - simpl. rewrite Hc. apply IH.
Qed.

Lemma folded_fixed : forall l w, folded w l -> fold_whitespace w l = l.
Proof.
  induction l as [|c l IH]; intros w H; simpl in *; [reflexivity|].
  destruct (isspace c).
  - destruct H as (-> & -> & H). f_equal. apply IH. exact H.
  - f_equal. apply IH. exact H.
Qed.

Lemma folded_firstn : forall l k w, folded w l -> folded w (firstn k l).
Proof.
  induction l as [|c l IH]; intros k w H; destruct k; simpl in *; try exact I.
  destruct (isspace c).
  - destruct H as (H1 & H2 & H3). repeat split; auto.
  - apply IH. exact H.
Qed.

Lemma trim_trailing_le (s : list byte) : forall p, (trim_trailing s p <= p)%nat.
Proof.
  induction p as [|p IH]; simpl; [lia|].
  destruct (nth p s 0 =? 32); lia.
Qed.

(** Where the trailing loop stops, the byte before is not a space. *)
Lemma trim_trailing_stop (s : list byte) : forall p,
  match trim_trailing s p with
  | O => True
  | S q => nth q s 0 <> 32
  end.
Proof.
  induction p as [|p IH]; simpl; [exact I|].
  destruct (Z.eqb_spec (nth p s 0) 32); [exact IH|assumption].
Qed.

Lemma normalize_whitespace_idempotent (y : list byte) :
  normalize_whitespace (normalize_whitespace y) = normalize_whitespace y.
Proof.
  unfold normalize_whitespace at 2.
  set (g := fold_whitespace false y).
  set (k := trim_trailing g (List.length g)).
  assert (Hk : (k <= List.length g)%nat) by apply trim_trailing_le.
  assert (Hlen : List.length (firstn k g) = k) by (rewrite length_firstn; lia).
  assert (Hfold : fold_whitespace false (firstn k g) = firstn k g).
  { apply folded_fixed. apply folded_firstn. apply fold_whitespace_folded. }
  unfold normalize_whitespace. rewrite Hfold, Hlen.
  assert (Hstop : trim_trailing (firstn k g) k = k).
  { pose proof (trim_trailing_stop g (List.length g)) as Hs. fold k in Hs.
    destruct k as [|q]; [reflexivity|]. cbn [trim_trailing].
    rewrite nth_firstn.
    replace (q <? S q)%nat with true by (symmetry; apply Nat.ltb_lt; lia).
    destruct (Z.eqb_spec (nth q g 0) 32); [contradiction|reflexivity]. }
  rewrite Hstop. rewrite <- Hlen at 1. apply firstn_all.
Qed.

(** *** Case folding *)

Lemma tolower_fixed (c : byte) : is_upper c = false -> tolower c = c.
Proof. unfold is_upper, tolower. intros ->. reflexivity. Qed.

Lemma map_tolower_fixed : forall y,
  Forall (fun c => is_upper c = false) y -> map tolower y = y.
Proof.
  induction y as [|c y IH]; intros H; [reflexivity|].
  inversion H; subst. simpl. rewrite tolower_fixed by assumption.
  f_equal. apply IH. assumption.
Qed.

Lemma pass_no_upper fuel : forall rest opos,
  Forall (fun c => is_upper c = false) rest ->
  Forall (fun c => is_upper c = false) (pass fuel rest opos).
Proof.
  induction fuel as [|fuel IH]; intros rest opos H; [constructor|].
  destruct rest as [|c rest]; [constructor|].
  rewrite pass_step.
  destruct (opos <? omax - 1)%nat; [|constructor].
  destruct (find_mapping uscn_mappings (c :: rest) opos omax) as [m|] eqn:Hf.
  - apply find_mapping_some in Hf. destruct Hf as (Hin & _ & _).
    apply Forall_app. split.
    + destruct (table_canonical m Hin) as [E|[E|[E|E]]]; rewrite E;
        repeat constructor.
    + apply IH. apply Forall_skipn_keep. exact H.
  - inversion H; subst. constructor; [assumption|]. apply IH. assumption.
Qed.

Lemma fold_whitespace_no_upper : forall y w,
  Forall (fun c => is_upper c = false) y ->
  Forall (fun c => is_upper c = false) (fold_whitespace w y).
Proof.
  induction y as [|c y IH]; intros w H; [constructor|].
  inversion H; subst. simpl. destruct (isspace c).
  - destruct w; [apply IH; assumption|].
    constructor; [reflexivity|apply IH; assumption].
  - constructor; [assumption|apply IH; assumption].
Qed.

Lemma normalize_whitespace_no_upper (y : list byte) :
  Forall (fun c => is_upper c = false) y ->
  Forall (fun c => is_upper c = false) (normalize_whitespace y).
Proof.
  intros H. unfold normalize_whitespace.
  apply Forall_firstn_keep. apply fold_whitespace_no_upper. exact H.
Qed.

End Idempotence.

Section IdempotenceOfBuffers.

Import Normalizer.

Lemma mappings_reduced (x : list byte) (omax : nat) :
  reduced (apply_character_mappings x omax).
Proof. apply pass_reduced. Qed.

Lemma mappings_fixed (y : list byte) (omax : nat) :
  reduced y -> (List.length y <= omax - 1)%nat ->
  apply_character_mappings y omax = y.
Proof.
  intros Hr Hl. unfold apply_character_mappings, apply_character_mappings_with.
  apply pass_reduced_id; [exact Hr|lia|lia].
Qed.

(** The canonical bytes are a fixed point of the three phases, for a
    case-sensitive normalizer and for input without upper-case letters. *)
Lemma canonical_bytes_idempotent (n : obi_normalizer) (x : list byte) :
  case_sensitive n = true \/ Forall (fun c => is_upper c = false) x ->
  canonical_bytes n (canonical_bytes n x) = canonical_bytes n x.
Proof.
  intros Hcase.
  set (m := apply_character_mappings x USCN_CANONICAL_BUFFER_SIZE).
  assert (Hm : reduced m) by apply mappings_reduced.
  assert (Hlen : (List.length m <= USCN_CANONICAL_BUFFER_SIZE - 1)%nat)
    by apply apply_character_mappings_length.
  assert (Hfold : forall z,
            z = m \/ z = normalize_whitespace m ->
            normalize_case z (case_sensitive n) = z).
  { intros z Hz. unfold normalize_case.
    destruct (case_sensitive n) eqn:Hcs; [reflexivity|].
    destruct Hcase as [Hc|Hup]; [discriminate|].
    apply map_tolower_fixed.
    assert (Hmu : Forall (fun c => is_upper c = false) m)
      by (apply pass_no_upper; exact Hup).
    destruct Hz as [->| ->]; [exact Hmu|].
    apply normalize_whitespace_no_upper. exact Hmu. }
  assert (Hy : canonical_bytes n x
               = if whitespace_normalize n then normalize_whitespace m else m).
  { unfold canonical_bytes. fold m. rewrite (Hfold m) by (left; reflexivity).
    reflexivity. }
  rewrite Hy. unfold canonical_bytes.
  destruct (whitespace_normalize n).
  - rewrite mappings_fixed.
    + rewrite Hfold by (right; reflexivity).
      apply normalize_whitespace_idempotent.
    + apply normalize_whitespace_reduced. exact Hm.
    + pose proof (normalize_whitespace_length m). lia.
  - rewrite mappings_fixed by assumption.
    apply Hfold. left. reflexivity.
Qed.

Lemma canonical_bytes_store (n : obi_normalizer) (z x : list byte) :
  canonical_bytes (store_canonical n z) x = canonical_bytes n x.
Proof. reflexivity. Qed.

End IdempotenceOfBuffers.

(** C1 (the code at the failing input).  "%2E" is normalized to "%2e"
    (the table does not match the upper-case spelling, case folding then
    lowers it), and normalizing that gives ".": a second normalization
    changes the result of the first. *)
Lemma normalization_not_idempotent :
  let b := {| data := str "%2E"; max_size := 64; normalized := false;
              validated := false; pattern_hash := [] |} in
  let '(_, n1, b1) :=
    Normalizer.obi_normalize_buffer Normalizer.obi_normalizer_create b in
  let '(_, _, b2) := Normalizer.obi_normalize_buffer n1 b1 in
  (List.length (data b) <= OBI_MAX_BUFFER_SIZE)%nat
  /\ data b1 = str "%2e" /\ data b2 = str "." /\ data b2 <> data b1.
Proof.
  intros b.
  assert (H1 : Normalizer.obi_normalize_buffer Normalizer.obi_normalizer_create b
               = (OBI_SUCCESS,
                  store_canonical Normalizer.obi_normalizer_create (str "%2e"),
                  store_data b (str "%2e"))) by (vm_compute; reflexivity).
  rewrite H1.
  assert (H2 : Normalizer.obi_normalize_buffer
                 (store_canonical Normalizer.obi_normalizer_create (str "%2e"))
                 (store_data b (str "%2e"))
               = (OBI_SUCCESS,
                  store_canonical Normalizer.obi_normalizer_create (str "."),
                  store_data b (str "."))) by (vm_compute; reflexivity).
  rewrite H2.
  split; [apply Nat.leb_le; vm_compute; reflexivity|].
  simpl. repeat split; discriminate.
Qed.

(** X30. Normalizing twice.  For every buffer of at most 8192 bytes, when
    the input contains no upper-case letter (or the normalizer is
    case-sensitive), normalizing the result of [obi_normalize_buffer]
    again leaves the same bytes in the buffer. *)
Theorem normalization_idempotent
    (n : Normalizer.obi_normalizer) (b : obi_buffer_t) :
  (List.length (data b) <= OBI_MAX_BUFFER_SIZE)%nat ->
  Normalizer.case_sensitive n = true
  \/ Forall (fun c => is_upper c = false) (data b) ->
  let '(_, n1, b1) := Normalizer.obi_normalize_buffer n b in
  let '(_, _, b2) := Normalizer.obi_normalize_buffer n1 b1 in
  data b2 = data b1.
Proof.
  intros _ Hcase.
  destruct (Normalizer.initialized n) eqn:Hi.
  2:{ unfold Normalizer.obi_normalize_buffer. rewrite Hi. simpl.
      rewrite Hi. reflexivity. }
  destruct (data b) as [|c d] eqn:Hd.
  { rewrite (obi_normalize_buffer_empty n b Hi Hd).
    rewrite (obi_normalize_buffer_empty n b Hi Hd). reflexivity. }
  assert (Hne : data b <> []) by (rewrite Hd; discriminate).
  rewrite <- Hd in Hcase. clear c d Hd.
  remember (canonical_bytes n (data b)) as y eqn:Hy.
  assert (Hfix : canonical_bytes n y = y)
    by (rewrite Hy; apply canonical_bytes_idempotent; exact Hcase).
  destruct (Nat.lt_ge_cases (max_size b) (List.length y)) as [Hlt|Hge].
  - rewrite (obi_normalize_buffer_overflow n b Hi Hne) by (rewrite <- Hy; exact Hlt).
    rewrite <- Hy.
    rewrite (obi_normalize_buffer_overflow (store_canonical n y) b Hi Hne);
      [reflexivity|].
    rewrite canonical_bytes_store, <- Hy. exact Hlt.
  - rewrite (obi_normalize_buffer_success n b Hi Hne) by (rewrite <- Hy; exact Hge).
    rewrite <- Hy.
    destruct (list_eq_dec Z.eq_dec y []) as [Hnil|Hnn].
    + rewrite obi_normalize_buffer_empty;
        [reflexivity|exact Hi|simpl; exact Hnil].
    + rewrite (obi_normalize_buffer_success (store_canonical n y) (store_data b y));
        [| exact Hi | simpl; exact Hnn | ].
      * simpl. rewrite canonical_bytes_store. exact Hfix.
      * simpl data. simpl max_size. rewrite canonical_bytes_store, Hfix. exact Hge.
Qed.

Lemma normalization_idempotent_witness :
  let b := {| data := str "%2e%2e%2fetc%20 %20passwd "; max_size := 64;
              normalized := false; validated := false; pattern_hash := [] |} in
  (List.length (data b) <= OBI_MAX_BUFFER_SIZE)%nat
  /\ Forall (fun c => is_upper c = false) (data b)
  /\ (let '(_, n1, b1) :=
        Normalizer.obi_normalize_buffer Normalizer.obi_normalizer_create b in
      let '(_, _, b2) := Normalizer.obi_normalize_buffer n1 b1 in
      data b2 = data b1).
Proof.
  intros b.
  assert (Hlen : (List.length (data b) <= OBI_MAX_BUFFER_SIZE)%nat)
    by (apply Nat.leb_le; vm_compute; reflexivity).
  assert (Hup : Forall (fun c => is_upper c = false) (data b))
    by (repeat constructor).
  split; [exact Hlen|]. split; [exact Hup|].
  exact (normalization_idempotent Normalizer.obi_normalizer_create b Hlen
           (or_intror Hup)).
Defined.

(* ================================================================= *)
(** * Further properties of the automaton *)

Section AutomatonRuns.

Import Automaton.
Local Open Scope Z_scope.

Lemma normalize_character_spec (c : byte) :
  normalize_character c = canonical_character c.
Proof.
  unfold normalize_character.
  let t := eval vm_compute in uscn_mappings in change uscn_mappings with t.
  cbn [find fst snd].
  repeat match goal with
         | |- context [(?k =? c)] =>
           destruct (Z.eqb_spec k c); [subst c; reflexivity|]
         end.
  unfold canonical_character.
  destruct (Z.leb_spec 65 c), (Z.leb_spec c 90), (Z.leb_spec 9 c), (Z.leb_spec c 13);
    cbn [andb]; try reflexivity; exfalso; lia.
Qed.

Lemma normalize_character_idempotent (c : byte) :
  normalize_character (normalize_character c) = normalize_character c.
Proof.
  rewrite !normalize_character_spec. unfold canonical_character.
  destruct (Z.leb_spec 65 c), (Z.leb_spec c 90), (Z.leb_spec 9 c), (Z.leb_spec c 13);
    cbn [andb]; try reflexivity;
    repeat match goal with
           | |- context [(?a <=? ?b)] => destruct (Z.leb_spec a b)
           end; cbn [andb]; lia.
Qed.

(** Every entry of the built table is one of the six states. *)
Lemma set_transition_in_range (t : transition_table_t) s c v :
  table_in_range t -> 0 <= v <= 5 -> table_in_range (set_transition t s c v).
Proof.
  intros Ht Hv s' c'. unfold set_transition.
  destruct ((s' =? s) && (c' =? c)); [exact Hv|apply Ht].
Qed.

Lemma fold_transition_in_range (f : Z -> bool) s v : forall l (t : transition_table_t),
  table_in_range t -> 0 <= v <= 5 ->
  table_in_range
    (fold_left (fun t i => if f i then set_transition t s i v else t) l t).
Proof.
  induction l as [|i l IH]; intros t Ht Hv; simpl; [exact Ht|].
  apply IH; [|exact Hv].
  destruct (f i); [apply set_transition_in_range; assumption|exact Ht].
Qed.

Lemma fold_transition_in_range' s v : forall l (t : transition_table_t),
  table_in_range t -> 0 <= v <= 5 ->
  table_in_range (fold_left (fun t i => set_transition t s i v) l t).
Proof.
  induction l as [|i l IH]; intros t Ht Hv; simpl; [exact Ht|].
  apply IH; [|exact Hv]. apply set_transition_in_range; assumption.
Qed.

Lemma transition_table_in_range : table_in_range build_transition_table.
Proof.
  unfold build_transition_table. cbv zeta.
  repeat match goal with
         | |- table_in_range (set_transition ?t ?s ?c ?v) =>
           apply (set_transition_in_range t s c v); [|lia]
         | |- table_in_range
                (fold_left (fun t i => if @?f i then set_transition t ?s i ?v else t) ?l ?t0) =>
           apply (fold_transition_in_range f s v l t0); [|lia]
         | |- table_in_range (fold_left (fun t i => set_transition t ?s i ?v) ?l ?t0) =>
           apply (fold_transition_in_range' s v l t0); [|lia]
         end.
  intros s c. lia.
Qed.

Lemma accept_row (c : Z) : build_transition_table 4 c = 5.
Proof.
  unfold build_transition_table. cbv zeta.
  repeat first
    [ rewrite set_transition_other_row by discriminate
    | rewrite fold_transition_other_row by discriminate
    | rewrite fold_transition_other_row' by discriminate ].
  reflexivity.
Qed.

(** Only a closing brace leads to the accepting state. *)
Lemma set_transition_accept (t : transition_table_t) s0 c0 v :
  accepts_on_brace t -> (v = 4 -> c0 = 125) ->
  accepts_on_brace (set_transition t s0 c0 v).
Proof.
  intros Ht Hv s c. unfold set_transition.
  destruct (s =? s0); cbn [andb]; [|apply Ht].
  destruct (Z.eqb_spec c c0); [|apply Ht].
  intros E. subst. auto.
Qed.

Lemma fold_transition_accept (f : Z -> bool) s0 v : forall l (t : transition_table_t),
  accepts_on_brace t -> v <> 4 ->
  accepts_on_brace
    (fold_left (fun t i => if f i then set_transition t s0 i v else t) l t).
Proof.
  induction l as [|i l IH]; intros t Ht Hv; simpl; [exact Ht|].
  apply IH; [|exact Hv].
  destruct (f i); [|exact Ht].
  apply set_transition_accept; [exact Ht|intros; contradiction].
Qed.

Lemma fold_transition_accept' s0 v : forall l (t : transition_table_t),
  accepts_on_brace t -> v <> 4 ->
  accepts_on_brace (fold_left (fun t i => set_transition t s0 i v) l t).
Proof.
  induction l as [|i l IH]; intros t Ht Hv; simpl; [exact Ht|].
  apply IH; [|exact Hv].
  apply set_transition_accept; [exact Ht|intros; contradiction].
Qed.

Lemma accept_only_on_brace : accepts_on_brace build_transition_table.
Proof.
  unfold build_transition_table. cbv zeta.
  repeat match goal with
         | |- accepts_on_brace (set_transition ?t ?s ?c ?v) =>
           apply (set_transition_accept t s c v);
             [|first [reflexivity|intros E; discriminate E]]
         | |- accepts_on_brace
                (fold_left (fun t i => if @?f i then set_transition t ?s i ?v else t) ?l ?t0) =>
           apply (fold_transition_accept f s v l t0); [|discriminate]
         | |- accepts_on_brace (fold_left (fun t i => set_transition t ?s i ?v) ?l ?t0) =>
           apply (fold_transition_accept' s v l t0); [|discriminate]
         end.
  intros s c H. discriminate H.
Qed.

(** *** Runs of the loop *)

Lemma process_loop_app : forall x y a,
  process_loop a (x ++ y) =
  match process_loop a x with
  | inl e => inl e
  | inr a1 => process_loop a1 y
  end.
Proof.
  induction x as [|c x IH]; intros y a; simpl; [reflexivity|].
  destruct (state_count a <=? _); [reflexivity|].
  destruct (_ =? 5); [reflexivity|]. apply IH.
Qed.

Lemma same_machine_set_run a st pb : same_machine a (set_run a st pb).
Proof. repeat split. Qed.

Lemma same_machine_trans a b c : same_machine a b -> same_machine b c -> same_machine a c.
Proof.
  intros (H1 & H2 & H3 & H4) (G1 & G2 & G3 & G4).
  repeat split; congruence.
Qed.

Lemma process_loop_same_machine : forall x a,
  match process_loop a x with
  | inl (_, a1) => same_machine a a1
  | inr a1 => same_machine a a1
  end.
Proof.
  induction x as [|c x IH]; intros a; simpl; [repeat split|].
  destruct (state_count a <=? _); [apply same_machine_set_run|].
  destruct (_ =? 5); [apply same_machine_set_run|].
  match goal with |- context [process_loop ?a' x] => specialize (IH a') end.
  destruct (process_loop _ x) as [[r a1]|a1];
    (eapply same_machine_trans; [apply same_machine_set_run|exact IH]).
Qed.

(** With the built table no transition leaves the six states: an early
    return is always the rejection. *)
Lemma process_loop_failure_code : forall x a r a1,
  transition_table a = build_transition_table -> state_count a = 6 ->
  process_loop a x = inl (r, a1) -> r = OBI_ERROR_VALIDATION_FAILED.
Proof.
  induction x as [|c x IH]; intros a r a1 Ht Hc H; simpl in H; [discriminate|].
  rewrite Ht, Hc in H.
  pose proof (transition_table_in_range (current_state a) (normalize_character c)) as Hr.
  destruct (Z.leb_spec 6 (build_transition_table (current_state a) (normalize_character c)));
    [lia|].
  destruct (_ =? 5).
  - inversion H. reflexivity.
  - eapply IH; [| |exact H]; assumption.
Qed.

(** The pattern buffer records the canonical characters, up to its
    capacity. *)
Lemma process_loop_pattern : forall x a a1,
  (List.length (pattern_buffer a) <= DFA_PATTERN_BUFFER_SIZE - 1)%nat ->
  process_loop a x = inr a1 ->
  pattern_buffer a1
  = firstn (DFA_PATTERN_BUFFER_SIZE - 1)
      (pattern_buffer a ++ map normalize_character x).
Proof.
  induction x as [|c x IH]; intros a a1 Hlen H; cbn [process_loop] in H.
  - inversion H; subst. cbn [map]. rewrite app_nil_r. symmetry.
    apply firstn_all2. exact Hlen.
  - destruct (state_count a <=? _); [discriminate|].
    destruct (_ =? 5); [discriminate|].
    apply IH in H.
    + rewrite H. cbn [pattern_buffer set_run map].
      destruct (Nat.ltb_spec (List.length (pattern_buffer a))
                  (DFA_PATTERN_BUFFER_SIZE - 1)).
      * rewrite <- app_assoc. reflexivity.
      * rewrite !firstn_app.
        replace (DFA_PATTERN_BUFFER_SIZE - 1 - List.length (pattern_buffer a))%nat
          with O by lia.
        reflexivity.
    + cbn [pattern_buffer set_run].
      destruct (Nat.ltb_spec (List.length (pattern_buffer a))
                  (DFA_PATTERN_BUFFER_SIZE - 1));
        [rewrite length_app; cbn [List.length]; lia|lia].
Qed.

Lemma accepting_state_is_four (a : obi_automaton) (s : Z) :
  states a = initialize_default_states ->
  state_is_accepting a s = true -> s = 4.
Proof.
  intros Hs. unfold state_is_accepting. rewrite Hs.
  destruct (Z.to_nat s) as [|[|[|[|[|[|n]]]]]] eqn:E; simpl;
    try discriminate; [intros _; lia|].
  destruct n; discriminate.
Qed.

(** The loop treats a byte and its canonical character alike. *)
Lemma process_loop_canonical_input : forall x a,
  process_loop a (map normalize_character x) = process_loop a x.
Proof.
  induction x as [|c x IH]; intros a; simpl; [reflexivity|].
  rewrite normalize_character_idempotent.
  destruct (state_count a <=? _); [reflexivity|].
  destruct (_ =? 5); [reflexivity|]. apply IH.
Qed.

(** Leaving the accepting state is a rejection. *)
Lemma process_loop_after_accept (c : byte) (x : list byte) (a : obi_automaton) :
  transition_table a = build_transition_table -> state_count a = 6 ->
  current_state a = 4 ->
  exists a1, process_loop a (c :: x) = inl (OBI_ERROR_VALIDATION_FAILED, a1).
Proof.
  intros Ht Hc Hs. simpl. rewrite Ht, Hc, Hs, accept_row.
  change (6 <=? 5) with false. change (5 =? 5) with true. cbv iota.
  eexists. reflexivity.
Qed.

(** A run that ends in the accepting state read a closing brace last. *)
Lemma process_loop_accept_last : forall x a a1,
  transition_table a = build_transition_table -> state_count a = 6 ->
  current_state a <> 4 ->
  process_loop a x = inr a1 -> current_state a1 = 4 ->
  x <> [] /\ normalize_character (last x 0) = 125.
Proof.
  induction x as [|c x IH]; intros a a1 Ht Hc Hs H H4.
  - simpl in H. inversion H; subst. contradiction.
  - split; [discriminate|].
    simpl in H. rewrite Ht, Hc in H.
    destruct (6 <=? _); [discriminate|].
    destruct (_ =? 5); [discriminate|].
    destruct x as [|c' x].
    + simpl in H. inversion H; subst. simpl in H4.
      simpl. apply (accept_only_on_brace _ _ H4).
    + match type of H with
      | process_loop ?a' _ = _ =>
        destruct (Z.eq_dec (current_state a') 4) as [E|E];
          [destruct (process_loop_after_accept c' x a' Ht Hc E) as [a2 Ha2];
           rewrite Ha2 in H; discriminate H
          |destruct (IH a' a1 Ht Hc E H H4) as [_ Hl]]
      end.
      exact Hl.
Qed.

Lemma canonical_character_brace (c : byte) : canonical_character c = 125 -> c = 125.
Proof.
  unfold canonical_character.
  destruct (Z.leb_spec 65 c), (Z.leb_spec c 90), (Z.leb_spec 9 c), (Z.leb_spec c 13);
    cbn [andb]; lia.
Qed.

Lemma canonical_character_space (c : byte) :
  Normalizer.isspace c = true -> canonical_character c = 32.
Proof.
  unfold Normalizer.isspace, canonical_character.
  destruct (Z.eqb_spec c 32), (Z.leb_spec 65 c), (Z.leb_spec c 90),
    (Z.leb_spec 9 c), (Z.leb_spec c 13); cbn [andb orb]; try lia; discriminate.
Qed.

(** X1. The verdicts of the automaton.  On the automaton that
    [obi_automaton_create] builds, [obi_automaton_process] either rejects
    with VALIDATION_FAILED and leaves the buffer as it was (it never
    reports DFA_TRANSITION_FAILED), or succeeds in state 4 with the FNV
    hash of the first 4095 canonical characters, written to the first four
    bytes of [pattern_hash] and to nothing else. *)
Theorem automaton_process_outcomes (b : obi_buffer_t) :
  let '(r, a', b') := obi_automaton_process obi_automaton_create b in
  (r = OBI_ERROR_VALIDATION_FAILED /\ b' = b)
  \/ (r = OBI_SUCCESS /\ current_state a' = 4
      /\ canonical_hash a'
         = calculate_pattern_hash
             (firstn (DFA_PATTERN_BUFFER_SIZE - 1) (map normalize_character (data b)))
      /\ b' = {| data := data b;
                 max_size := max_size b;
                 normalized := normalized b;
                 validated := validated b;
                 pattern_hash :=
                   hash_bytes_le (canonical_hash a') ++ skipn 4 (pattern_hash b) |}).
Proof.
  unfold obi_automaton_process. cbn [initialized obi_automaton_create negb].
  pose proof (process_loop_same_machine (data b) (set_run obi_automaton_create 0 []))
    as Hm.
  destruct (process_loop (set_run obi_automaton_create 0 []) (data b))
    as [[r a1]|a1] eqn:Hl.
  - left. split; [|reflexivity].
    eapply process_loop_failure_code; [| |exact Hl]; reflexivity.
  - destruct (state_is_accepting a1 (current_state a1)) eqn:Hacc; cbn [negb].
    + right. destruct Hm as (_ & _ & Hst & _).
      apply accepting_state_is_four in Hacc; [|exact Hst].
      apply process_loop_pattern in Hl; [|cbn; lia].
      cbn [current_state canonical_hash]. rewrite Hl.
      repeat split. exact Hacc.
    + left. split; reflexivity.
Qed.

(** X2. The end of an accepted input.  An input that the automaton accepts
    ends with a closing brace, and it is rejected as soon as any byte
    follows it. *)
Theorem accepted_input_is_closed (b : obi_buffer_t) (x : list byte) :
  fst (fst (obi_automaton_process obi_automaton_create (with_data b x))) = OBI_SUCCESS ->
  x <> [] /\ last x 0 = 125
  /\ forall c rest,
       fst (fst (obi_automaton_process obi_automaton_create
                   (with_data b (x ++ c :: rest))))
       = OBI_ERROR_VALIDATION_FAILED.
Proof.
  unfold obi_automaton_process. cbn [initialized obi_automaton_create negb data with_data].
  pose proof (process_loop_same_machine x (set_run obi_automaton_create 0 [])) as Hm.
  destruct (process_loop (set_run obi_automaton_create 0 []) x) as [[r a1]|a1] eqn:Hl.
  - cbn [fst]. intros ->.
    apply process_loop_failure_code in Hl; [discriminate|reflexivity|reflexivity].
  - destruct Hm as (_ & Hc & Hst & Ht). cbn in Hc, Hst, Ht.
    destruct (state_is_accepting a1 (current_state a1)) eqn:Hacc; cbn [negb fst];
      [intros _|discriminate].
    apply accepting_state_is_four in Hacc; [|exact Hst].
    destruct (process_loop_accept_last x (set_run obi_automaton_create 0 []) a1
                eq_refl eq_refl ltac:(cbn; discriminate) Hl Hacc) as [Hne Hlast].
    split; [exact Hne|]. split.
    + apply canonical_character_brace. rewrite <- normalize_character_spec.
      exact Hlast.
    + intros c rest. rewrite process_loop_app, Hl.
      destruct (process_loop_after_accept c rest a1 Ht Hc Hacc) as [a2 Ha2].
      rewrite Ha2. reflexivity.
Qed.

Lemma accepted_input_is_closed_witness :
  let b := {| data := []; max_size := 64; normalized := true;
              validated := false; pattern_hash := repeat 0 32 |} in
  fst (fst (obi_automaton_process obi_automaton_create (with_data b (str "{}"))))
  = OBI_SUCCESS
  /\ fst (fst (obi_automaton_process obi_automaton_create
                 (with_data b (str "{}" ++ 32 :: []))))
     = OBI_ERROR_VALIDATION_FAILED.
Proof.
  intros b.
  assert (H : fst (fst (obi_automaton_process obi_automaton_create
                          (with_data b (str "{}")))) = OBI_SUCCESS)
    by (vm_compute; reflexivity).
  split; [exact H|].
  destruct (accepted_input_is_closed b (str "{}") H) as (_ & _ & Hext).
  apply Hext.
Defined.

(** X3. Letter case and the kind of whitespace.  Two inputs with the same
    canonical characters (the same bytes up to the case of letters and to
    which of tab, newline, carriage return, vertical tab, form feed or
    space is used) get the same result, the same final automaton and the
    same pattern hash. *)
Theorem automaton_reads_canonical_characters
    (a : obi_automaton) (b : obi_buffer_t) (x y : list byte) :
  map normalize_character x = map normalize_character y ->
  let '(r1, a1, b1) := obi_automaton_process a (with_data b x) in
  let '(r2, a2, b2) := obi_automaton_process a (with_data b y) in
  r1 = r2 /\ a1 = a2 /\ pattern_hash b1 = pattern_hash b2.
Proof.
  intros Hxy. unfold obi_automaton_process.
  destruct (negb (initialized a)); [repeat split|].
  cbn [data with_data].
  rewrite <- (process_loop_canonical_input x), <- (process_loop_canonical_input y), Hxy.
  destruct (process_loop (set_run a 0 []) (map normalize_character y)) as [[r a1]|a1];
    [repeat split|].
  destruct (negb (state_is_accepting a1 (current_state a1))); repeat split.
Qed.

Lemma automaton_reads_canonical_characters_witness :
  let b := {| data := []; max_size := 64; normalized := true;
              validated := false; pattern_hash := repeat 0 32 |} in
  let x := [123; 9; 34; 73; 68; 34; 58; 49; 125] in
  let y := [123; 32; 34; 105; 100; 34; 58; 49; 125] in
  map normalize_character x = map normalize_character y
  /\ fst (fst (obi_automaton_process obi_automaton_create (with_data b x)))
     = OBI_SUCCESS
  /\ pattern_hash (snd (obi_automaton_process obi_automaton_create (with_data b x)))
     = pattern_hash (snd (obi_automaton_process obi_automaton_create (with_data b y))).
Proof.
  intros b x y.
  assert (Hxy : map normalize_character x = map normalize_character y)
    by (vm_compute; reflexivity).
  split; [exact Hxy|]. split; [vm_compute; reflexivity|].
  pose proof (automaton_reads_canonical_characters obi_automaton_create b x y Hxy) as H.
  destruct (obi_automaton_process obi_automaton_create (with_data b x)) as [[r1 a1] b1].
  destruct (obi_automaton_process obi_automaton_create (with_data b y)) as [[r2 a2] b2].
  destruct H as (_ & _ & H). exact H.
Defined.

(** X4. Input of whitespace only.  An input that consists of whitespace
    bytes only (the empty input included) is consumed in the initial state
    and rejected with VALIDATION_FAILED. *)
Theorem whitespace_only_input_rejected (b : obi_buffer_t) (x : list byte) :
  Forall (fun c => Normalizer.isspace c = true) x ->
  fst (fst (obi_automaton_process obi_automaton_create (with_data b x)))
  = OBI_ERROR_VALIDATION_FAILED
  /\ current_state (snd (fst (obi_automaton_process obi_automaton_create
                                (with_data b x)))) = 0.
Proof.
  intros Hx. unfold obi_automaton_process.
  cbn [initialized obi_automaton_create negb data with_data].
  assert (Hl : forall a,
            transition_table a = build_transition_table -> state_count a = 6 ->
            current_state a = 0 -> states a = initialize_default_states ->
            exists a1, process_loop a x = inr a1 /\ current_state a1 = 0
                       /\ states a1 = initialize_default_states).
  { induction Hx as [|c x Hc Hx IH]; intros a Ht Hcnt Hs Hst.
    - exists a. auto.
    - cbn [process_loop]. rewrite Ht, Hcnt, Hs, normalize_character_spec,
        (canonical_character_space c Hc).
      replace (build_transition_table 0 32) with 0 by (vm_compute; reflexivity).
      change (6 <=? 0) with false. change (0 =? 5) with false. cbv iota.
      apply IH; reflexivity || assumption. }
  destruct (Hl (set_run obi_automaton_create 0 [])) as (a1 & Ha1 & Hs1 & Hst1);
    try reflexivity.
  rewrite Ha1. unfold state_is_accepting. rewrite Hs1, Hst1. cbn. auto.
Qed.

Lemma whitespace_only_input_rejected_witness :
  let b := {| data := []; max_size := 64; normalized := true;
              validated := false; pattern_hash := repeat 0 32 |} in
  Forall (fun c => Normalizer.isspace c = true) [32; 9; 10; 11; 12; 13]
  /\ fst (fst (obi_automaton_process obi_automaton_create
                 (with_data b [32; 9; 10; 11; 12; 13])))
     = OBI_ERROR_VALIDATION_FAILED.
Proof.
  intros b.
  assert (H : Forall (fun c => Normalizer.isspace c = true) [32; 9; 10; 11; 12; 13])
    by (repeat constructor).
  split; [exact H|].
  exact (proj1 (whitespace_only_input_rejected b _ H)).
Defined.

(** *** The pattern hash *)

Lemma calculate_pattern_hash_range (pattern : list byte) :
  0 <= calculate_pattern_hash pattern < 2 ^ 32.
Proof.
  unfold calculate_pattern_hash.
  assert (H : forall l acc, 0 <= acc < 2 ^ 32 ->
            0 <= fold_left (fun hash c => (Z.lxor hash c * 16777619) mod 2 ^ 32) l acc
            < 2 ^ 32).
  { induction l as [|c l IH]; intros acc Hacc; simpl; [exact Hacc|].
    apply IH. apply Z.mod_pos_bound. reflexivity. }
  apply H. split; [discriminate|reflexivity].
Qed.

Lemma le_value_hash_bytes (h : Z) :
  0 <= h < 2 ^ 32 -> le_value (hash_bytes_le h) = h.
Proof.
  intros Hh. unfold hash_bytes_le, le_value. cbn [map fold_right].
  change (0 * 8) with 0. change (1 * 8) with 8.
  change (2 * 8) with 16. change (3 * 8) with 24.
  rewrite Z.shiftr_0_r.
  rewrite !Z.shiftr_div_pow2 by lia.
  change (2 ^ 8) with 256. change (2 ^ 16) with 65536. change (2 ^ 24) with 16777216.
  change (2 ^ 32) with 4294967296 in Hh.
  replace (h / 65536) with (h / 256 / 256) by (rewrite Z.div_div by lia; reflexivity).
  replace (h / 16777216) with (h / 256 / 256 / 256)
    by (rewrite !Z.div_div by lia; reflexivity).
  assert (h / 256 / 256 / 256 < 256).
  { apply Z.div_lt_upper_bound; [lia|]. apply Z.div_lt_upper_bound; [lia|].
    apply Z.div_lt_upper_bound; lia. }
  assert (0 <= h / 256 / 256 / 256) by (repeat apply Z.div_pos; lia).
  rewrite (Z.mod_small (h / 256 / 256 / 256)) by lia.
  pose proof (Z.div_mod h 256 ltac:(lia)).
  pose proof (Z.div_mod (h / 256) 256 ltac:(lia)).
  pose proof (Z.div_mod (h / 256 / 256) 256 ltac:(lia)).
  lia.
Qed.

Lemma hash_bytes_are_bytes (h : Z) :
  Forall (fun c => 0 <= c < 256) (hash_bytes_le h).
Proof.
  unfold hash_bytes_le. cbn [map].
  repeat constructor; apply Z.mod_pos_bound; reflexivity.
Qed.

(** X5. The stored pattern hash.  When the automaton accepts, the hash is a
    32-bit number, the first four bytes of [pattern_hash] are its bytes
    from the least significant one on (reading them back gives the hash),
    and the remaining bytes of the field are left as they were. *)
Theorem pattern_hash_is_little_endian (a : obi_automaton) (b : obi_buffer_t) :
  fst (fst (obi_automaton_process a b)) = OBI_SUCCESS ->
  let a' := snd (fst (obi_automaton_process a b)) in
  let b' := snd (obi_automaton_process a b) in
  0 <= canonical_hash a' < 2 ^ 32
  /\ Forall (fun c => 0 <= c < 256) (firstn 4 (pattern_hash b'))
  /\ le_value (firstn 4 (pattern_hash b')) = canonical_hash a'
  /\ skipn 4 (pattern_hash b') = skipn 4 (pattern_hash b).
Proof.
  unfold obi_automaton_process.
  destruct (negb (initialized a)); [discriminate|].
  destruct (process_loop (set_run a 0 []) (data b)) as [[r a1]|a1] eqn:Hl.
  - cbn [fst snd]. intros ->.
    apply process_loop_early_result in Hl. destruct Hl as [Hl _]. contradiction.
  - destruct (negb (state_is_accepting a1 (current_state a1))); [discriminate|].
    intros _. cbn [fst snd canonical_hash pattern_hash].
    pose proof (calculate_pattern_hash_range (pattern_buffer a1)) as Hr.
    change (hash_bytes_le ?h ++ ?t) with
      ((fun l => l ++ t) (hash_bytes_le h)).
    cbv beta.
    assert (Hf : forall h t, firstn 4 (hash_bytes_le h ++ t) = hash_bytes_le h)
      by reflexivity.
    assert (Hs : forall h t, skipn 4 (hash_bytes_le h ++ t) = t) by reflexivity.
    rewrite Hf, Hs.
    split; [exact Hr|]. split; [apply hash_bytes_are_bytes|].
    split; [apply le_value_hash_bytes; exact Hr|reflexivity].
Qed.

Lemma pattern_hash_is_little_endian_witness :
  let b := {| data := str "{}"; max_size := 64; normalized := true;
              validated := false; pattern_hash := repeat 7 32 |} in
  fst (fst (obi_automaton_process obi_automaton_create b)) = OBI_SUCCESS
  /\ le_value (firstn 4 (pattern_hash (snd (obi_automaton_process obi_automaton_create b))))
     = 1415952421
  /\ skipn 4 (pattern_hash (snd (obi_automaton_process obi_automaton_create b)))
     = repeat 7 28.
Proof.
  intros b.
  assert (H : fst (fst (obi_automaton_process obi_automaton_create b)) = OBI_SUCCESS)
    by (vm_compute; reflexivity).
  destruct (pattern_hash_is_little_endian obi_automaton_create b H)
    as (_ & _ & Hle & Hrest).
  split; [exact H|]. split.
  - rewrite Hle. vm_compute. reflexivity.
  - rewrite Hrest. reflexivity.
Defined.

(** X6. The reach of the pattern hash.  The pattern buffer holds 4095
    characters: two accepted inputs that agree on their first 4095 bytes
    get the same pattern hash, whatever follows. *)
Theorem pattern_hash_reads_a_prefix (a : obi_automaton) (b : obi_buffer_t)
    (x y : list byte) :
  fst (fst (obi_automaton_process a (with_data b x))) = OBI_SUCCESS ->
  fst (fst (obi_automaton_process a (with_data b y))) = OBI_SUCCESS ->
  firstn (DFA_PATTERN_BUFFER_SIZE - 1) x = firstn (DFA_PATTERN_BUFFER_SIZE - 1) y ->
  canonical_hash (snd (fst (obi_automaton_process a (with_data b x))))
  = canonical_hash (snd (fst (obi_automaton_process a (with_data b y))))
  /\ pattern_hash (snd (obi_automaton_process a (with_data b x)))
     = pattern_hash (snd (obi_automaton_process a (with_data b y))).
Proof.
  unfold obi_automaton_process.
  destruct (negb (initialized a)); [discriminate|].
  cbn [data with_data].
  destruct (process_loop (set_run a 0 []) x) as [[r1 a1]|a1] eqn:H1.
  { cbn [fst]. intros ->. apply process_loop_early_result in H1.
    destruct H1 as [H1 _]. contradiction. }
  destruct (process_loop (set_run a 0 []) y) as [[r2 a2]|a2] eqn:H2.
  { cbn [fst]. intros _ ->. apply process_loop_early_result in H2.
    destruct H2 as [H2 _]. contradiction. }
  destruct (negb (state_is_accepting a1 (current_state a1))); [discriminate|].
  destruct (negb (state_is_accepting a2 (current_state a2))); [discriminate|].
  intros _ _ Hxy. cbn [fst snd canonical_hash pattern_hash].
  apply process_loop_pattern in H1; [|cbn [pattern_buffer set_run List.length]; lia].
  apply process_loop_pattern in H2; [|cbn [pattern_buffer set_run List.length]; lia].
  cbn [pattern_buffer set_run app] in H1, H2.
  rewrite firstn_map in H1, H2.
  rewrite H1, H2, Hxy. split; reflexivity.
Qed.

End AutomatonRuns.

Lemma pattern_hash_reads_a_prefix_witness :
  let b := {| data := []; max_size := 64; normalized := true;
              validated := false; pattern_hash := repeat 0%Z 32 |} in
  let x := (123 :: repeat 32 4094 ++ [34; 97; 34; 58; 49; 125])%Z in
  let y := (123 :: repeat 32 4094 ++ [34; 98; 34; 58; 50; 125])%Z in
  x <> y
  /\ pattern_hash (snd (Automaton.obi_automaton_process Automaton.obi_automaton_create
                          (with_data b x)))
     = pattern_hash (snd (Automaton.obi_automaton_process Automaton.obi_automaton_create
                            (with_data b y))).
Proof.
  intros b x y.
  split.
  - intros E. apply (f_equal (fun l => nth 4096 l 0%Z)) in E.
    vm_compute in E. discriminate E.
  - apply (pattern_hash_reads_a_prefix Automaton.obi_automaton_create b x y).
    + vm_compute. reflexivity.
    + vm_compute. reflexivity.
    + vm_compute. reflexivity.
Defined.

(** X7. Minimization of the built automaton.  The six states are pairwise
    distinguishable: the refinement has reached its fixed point (a further
    round changes nothing), [minimize_dfa_states] marks every state
    minimal, and [obi_automaton_is_state_minimal] answers true exactly for
    the state ids 0 to 5. *)
Theorem built_automaton_is_minimal (state_id : Z) :
  snd (Automaton.refine_round Automaton.obi_automaton_create
         (Automaton.refined_equivalence Automaton.obi_automaton_create)) = false
  /\ Automaton.minimize_dfa_states Automaton.obi_automaton_create
     = [true; true; true; true; true; true]
  /\ Automaton.obi_automaton_is_state_minimal Automaton.obi_automaton_create state_id
     = ((0 <=? state_id)%Z && (state_id <? 6)%Z).
Proof.
  assert (H : Automaton.minimize_dfa_states Automaton.obi_automaton_create
              = [true; true; true; true; true; true]) by (vm_compute; reflexivity).
  split; [vm_compute; reflexivity|]. split; [exact H|].
  unfold Automaton.obi_automaton_is_state_minimal. rewrite H.
  cbn [Automaton.initialized Automaton.state_count Automaton.obi_automaton_create
       negb orb].
  destruct (Z.ltb_spec state_id 0), (Z.leb_spec 6 state_id),
    (Z.leb_spec 0 state_id), (Z.ltb_spec state_id 6);
    cbn [orb andb]; try lia; try reflexivity.
  assert (E : (state_id = 0 \/ state_id = 1 \/ state_id = 2 \/ state_id = 3
               \/ state_id = 4 \/ state_id = 5)%Z) by lia.
  destruct E as [->|[->|[->|[->|[->| ->]]]]]; reflexivity.
Qed.

(* ================================================================= *)
(** * Further properties of the normalizer *)

Section NormalizerOutput.

Import Normalizer.
Local Open Scope Z_scope.

(** The outcome of [obi_normalize_buffer], whatever the normalizer. *)
Lemma obi_normalize_buffer_cases (n : obi_normalizer) (b : obi_buffer_t) :
  let y := canonical_bytes n (data b) in
  (obi_normalize_buffer n b = (OBI_SUCCESS, store_canonical n y, store_data b y)
   /\ (List.length y <= max_size b)%nat /\ data b <> [])
  \/ (exists r n', obi_normalize_buffer n b = (r, n', b) /\ r <> OBI_SUCCESS).
Proof.
  intros y.
  destruct (initialized n) eqn:Hi.
  2:{ right. exists OBI_ERROR_INVALID_INPUT, n. unfold obi_normalize_buffer.
      rewrite Hi. split; [reflexivity|discriminate]. }
  destruct (list_eq_dec Z.eq_dec (data b) []) as [Hd|Hd].
  { right. exists OBI_ERROR_NORMALIZATION_FAILED, n.
    rewrite (obi_normalize_buffer_empty n b Hi Hd). split; [reflexivity|discriminate]. }
  destruct (Nat.lt_ge_cases (max_size b) (List.length y)) as [Hlt|Hge].
  - right. exists OBI_ERROR_BUFFER_OVERFLOW, (store_canonical n y).
    rewrite (obi_normalize_buffer_overflow n b Hi Hd Hlt).
    split; [reflexivity|discriminate].
  - left. rewrite (obi_normalize_buffer_success n b Hi Hd Hge). auto.
Qed.

Lemma mapping_matches_room (m : uscn_mapping_t) (rest : list byte) :
  mapping_matches m rest = true -> (encoded_len m <= List.length rest)%nat.
Proof.
  unfold mapping_matches. intros H. apply andb_true_iff in H.
  destruct H as [H _]. apply Nat.leb_le. exact H.
Qed.

(** Every entry of the table is a reduction. *)
Lemma table_reduces (m : uscn_mapping_t) :
  In m uscn_mappings -> (canonical_len m <= encoded_len m)%nat.
Proof.
  intros Hin. simpl in Hin.
  repeat (destruct Hin as [<-|Hin]; [simpl; lia|]). contradiction.
Qed.

Lemma apply_loop_shrinks omax fuel : forall rest opos,
  (List.length (apply_loop uscn_mappings omax fuel rest opos) <= List.length rest)%nat.
Proof.
  induction fuel as [|fuel IH]; intros rest opos; cbn [apply_loop]; [simpl; lia|].
  destruct rest as [|c rest]; [simpl; lia|].
  destruct (opos <? omax - 1)%nat; [|simpl; lia].
  destruct (find_mapping uscn_mappings (c :: rest) opos omax) as [m|] eqn:Hf.
  - apply find_mapping_some in Hf. destruct Hf as (Hin & Hm & _).
    apply mapping_matches_room in Hm. pose proof (table_reduces m Hin) as Hred.
    rewrite length_app.
    pose proof (firstn_le_length (canonical_len m) (canonical_form m)) as Hc.
    specialize (IH (skipn (encoded_len m) (c :: rest)) (opos + canonical_len m)%nat).
    rewrite length_skipn in IH. lia.
  - specialize (IH rest (opos + 1)%nat). simpl. lia.
Qed.

Lemma canonical_bytes_shrinks (n : obi_normalizer) (x : list byte) :
  (List.length (canonical_bytes n x) <= List.length x)%nat.
Proof.
  unfold canonical_bytes.
  pose proof (apply_loop_shrinks USCN_CANONICAL_BUFFER_SIZE (List.length x) x 0) as H.
  fold (apply_character_mappings_with uscn_mappings x USCN_CANONICAL_BUFFER_SIZE) in H.
  fold (apply_character_mappings x USCN_CANONICAL_BUFFER_SIZE) in H.
  pose proof (normalize_case_length
                (apply_character_mappings x USCN_CANONICAL_BUFFER_SIZE)
                (case_sensitive n)) as H2.
  destruct (whitespace_normalize n); [|lia].
  pose proof (normalize_whitespace_length
                (normalize_case (apply_character_mappings x USCN_CANONICAL_BUFFER_SIZE)
                   (case_sensitive n))). lia.
Qed.

(** X8. Normalization never grows a buffer.  After [obi_normalize_buffer]
    the buffer is never longer than before; after a success it holds at
    most [max_size] bytes, and fewer than 8192. *)
Theorem normalization_never_grows (n : obi_normalizer) (b : obi_buffer_t) :
  let '(r, _, b') := obi_normalize_buffer n b in
  (List.length (data b') <= List.length (data b))%nat
  /\ (r = OBI_SUCCESS ->
      (List.length (data b') <= max_size b')%nat
      /\ (List.length (data b') < USCN_CANONICAL_BUFFER_SIZE)%nat
      /\ max_size b' = max_size b).
Proof.
  destruct (obi_normalize_buffer_cases n b) as [(E & Hle & _)|(r & n' & E & Hr)];
    rewrite E.
  - cbn [data max_size store_data]. split; [apply canonical_bytes_shrinks|].
    intros _. split; [exact Hle|]. split; [apply canonical_bytes_length|reflexivity].
  - split; [lia|]. intros Hs. contradiction.
Qed.

Lemma tolower_not_upper (c : byte) : is_upper (tolower c) = false.
Proof.
  unfold is_upper, tolower.
  destruct (Z.leb_spec 65 c), (Z.leb_spec c 90); cbn [andb];
    repeat match goal with
           | |- context [(?a <=? ?b)] => destruct (Z.leb_spec a b)
           end; cbn [andb]; try reflexivity; lia.
Qed.

Lemma canonical_bytes_no_upper (n : obi_normalizer) (x : list byte) :
  case_sensitive n = false ->
  Forall (fun c => is_upper c = false) (canonical_bytes n x).
Proof.
  intros Hcs. unfold canonical_bytes, normalize_case. rewrite Hcs.
  assert (H : Forall (fun c => is_upper c = false)
                (map tolower (apply_character_mappings x USCN_CANONICAL_BUFFER_SIZE))).
  { apply Forall_map. apply Forall_forall. intros c _. apply tolower_not_upper. }
  destruct (whitespace_normalize n); [|exact H].
  apply normalize_whitespace_no_upper. exact H.
Qed.

(** X9. Case folding.  A normalizer that is not case-sensitive (the
    default) leaves no upper-case letter in a buffer it normalizes
    successfully. *)
Theorem normalized_buffer_has_no_upper_case (n : obi_normalizer) (b : obi_buffer_t) :
  case_sensitive n = false ->
  let '(r, _, b') := obi_normalize_buffer n b in
  r = OBI_SUCCESS -> Forall (fun c => is_upper c = false) (data b').
Proof.
  intros Hcs.
  destruct (obi_normalize_buffer_cases n b) as [(E & _ & _)|(r & n' & E & Hr)];
    rewrite E; [|intros; contradiction].
  intros _. cbn [data store_data]. apply canonical_bytes_no_upper. exact Hcs.
Qed.

Lemma normalized_buffer_has_no_upper_case_witness :
  let b := {| data := str "Hello%20WORLD"; max_size := 64; normalized := false;
              validated := false; pattern_hash := [] |} in
  data (snd (obi_normalize_buffer obi_normalizer_create b)) = str "hello world"
  /\ Forall (fun c => is_upper c = false)
       (data (snd (obi_normalize_buffer obi_normalizer_create b))).
Proof.
  intros b.
  pose proof (normalized_buffer_has_no_upper_case obi_normalizer_create b eq_refl) as H.
  assert (E : obi_normalize_buffer obi_normalizer_create b
              = (OBI_SUCCESS,
                 store_canonical obi_normalizer_create (str "hello world"),
                 store_data b (str "hello world"))) by (vm_compute; reflexivity).
  rewrite E in *. split; [reflexivity|]. apply H. reflexivity.
Defined.

(** *** The shape of folded whitespace *)

Lemma folded_only_spaces : forall l w,
  folded w l -> Forall (fun c => isspace c = true -> c = 32) l.
Proof.
  induction l as [|c l IH]; intros w H; [constructor|].
  simpl in H. destruct (isspace c) eqn:Hc.
  - destruct H as (-> & _ & H). constructor; [reflexivity|]. eapply IH. exact H.
  - constructor; [intros Habs; congruence|]. eapply IH. exact H.
Qed.

Lemma folded_suffix : forall pre l w, folded w (pre ++ l) -> exists w', folded w' l.
Proof.
  induction pre as [|c pre IH]; intros l w H; [exists w; exact H|].
  simpl in H. destruct (isspace c).
  - destruct H as (_ & _ & H). eapply IH. exact H.
  - eapply IH. exact H.
Qed.

Lemma folded_no_double_space (w : bool) (pre post : list byte) :
  ~ folded w (pre ++ 32 :: 32 :: post).
Proof.
  intros H. apply folded_suffix in H. destruct H as [w' H].
  simpl in H. destruct H as (_ & _ & _ & Habs & _). discriminate Habs.
Qed.

Lemma normalize_whitespace_folded (x : list byte) : folded false (normalize_whitespace x).
Proof.
  unfold normalize_whitespace. apply folded_firstn. apply fold_whitespace_folded.
Qed.

Lemma normalize_whitespace_no_trailing_space (x pre : list byte) :
  normalize_whitespace x <> pre ++ [32].
Proof.
  unfold normalize_whitespace.
  set (g := fold_whitespace false x).
  pose proof (trim_trailing_stop g (List.length g)) as Hs.
  pose proof (trim_trailing_le g (List.length g)) as Hk.
  set (k := trim_trailing g (List.length g)) in *.
  intros E.
  assert (Hlen : List.length (firstn k g) = k) by (rewrite length_firstn; lia).
  rewrite E, length_app in Hlen. cbn [List.length] in Hlen.
  destruct k as [|q]; [lia|].
  assert (Hq : q = List.length pre) by lia.
  apply (f_equal (fun l => nth q l 0)) in E.
  rewrite nth_firstn in E.
  replace (q <? S q)%nat with true in E by (symmetry; apply Nat.ltb_lt; lia).
  rewrite Hq, nth_middle in E. rewrite Hq in Hs. contradiction.
Qed.

Lemma canonical_bytes_whitespace (n : obi_normalizer) (x : list byte) :
  whitespace_normalize n = true ->
  Forall (fun c => isspace c = true -> c = 32) (canonical_bytes n x)
  /\ (forall pre post, canonical_bytes n x <> pre ++ 32 :: 32 :: post)
  /\ (forall pre, canonical_bytes n x <> pre ++ [32]).
Proof.
  intros Hws. unfold canonical_bytes. rewrite Hws.
  set (t := normalize_case _ _).
  pose proof (normalize_whitespace_folded t) as Hf.
  split; [eapply folded_only_spaces; exact Hf|]. split.
  - intros pre post E'. rewrite E' in Hf. exact (folded_no_double_space _ _ _ Hf).
  - intros pre. apply normalize_whitespace_no_trailing_space.
Qed.

(** X10. Whitespace in a normalized buffer.  With whitespace normalization
    on (the default), a successfully normalized buffer contains no
    whitespace byte other than the space, no two spaces in a row, and no
    space at its end. *)
Theorem normalized_buffer_whitespace (n : obi_normalizer) (b : obi_buffer_t) :
  whitespace_normalize n = true ->
  let '(r, _, b') := obi_normalize_buffer n b in
  r = OBI_SUCCESS ->
  Forall (fun c => isspace c = true -> c = 32) (data b')
  /\ (forall pre post, data b' <> pre ++ 32 :: 32 :: post)
  /\ (forall pre, data b' <> pre ++ [32]).
Proof.
  intros Hws.
  destruct (obi_normalize_buffer_cases n b) as [(E & _ & _)|(r & n' & E & Hr)];
    rewrite E; [|intros; contradiction].
  intros _. cbn [data store_data]. apply canonical_bytes_whitespace. exact Hws.
Qed.

Lemma normalized_buffer_whitespace_witness :
  let b := {| data := [97; 9; 10; 32; 98; 13; 32]; max_size := 64; normalized := false;
              validated := false; pattern_hash := [] |} in
  data (snd (obi_normalize_buffer obi_normalizer_create b)) = [97; 32; 98]
  /\ Forall (fun c => isspace c = true -> c = 32)
       (data (snd (obi_normalize_buffer obi_normalizer_create b))).
Proof.
  intros b.
  pose proof (normalized_buffer_whitespace obi_normalizer_create b eq_refl) as H.
  assert (E : obi_normalize_buffer obi_normalizer_create b
              = (OBI_SUCCESS,
                 store_canonical obi_normalizer_create [97; 32; 98],
                 store_data b [97; 32; 98])) by (vm_compute; reflexivity).
  rewrite E in *. split; [reflexivity|]. apply H. reflexivity.
Defined.

End NormalizerOutput.

Section NormalizerComposition.

Import Normalizer.
Local Open Scope Z_scope.

Lemma canonical_bytes_reduced (n : obi_normalizer) (x : list byte) :
  case_sensitive n = true \/ Forall (fun c => is_upper c = false) x ->
  reduced (canonical_bytes n x).
Proof.
  intros Hcase. unfold canonical_bytes.
  set (m := apply_character_mappings x USCN_CANONICAL_BUFFER_SIZE).
  assert (Hm : reduced m) by apply mappings_reduced.
  assert (Hfold : normalize_case m (case_sensitive n) = m).
  { unfold normalize_case. destruct (case_sensitive n); [reflexivity|].
    destruct Hcase as [Hc|Hup]; [discriminate|].
    apply map_tolower_fixed. apply pass_no_upper. exact Hup. }
  rewrite Hfold.
  destruct (whitespace_normalize n); [|exact Hm].
  apply normalize_whitespace_reduced. exact Hm.
Qed.

Lemma reduced_suffix : forall pre s, reduced (pre ++ s) -> reduced s.
Proof.
  induction pre as [|c pre IH]; intros s H; [exact H|].
  simpl in H. apply IH. apply H.
Qed.

Lemma table_encoded_nonempty (m : uscn_mapping_t) :
  In m uscn_mappings -> encoded_form m <> [].
Proof.
  intros Hin. simpl in Hin.
  repeat (destruct Hin as [<-|Hin]; [discriminate|]). contradiction.
Qed.

(** X11. Nothing left to reduce.  When the normalizer is case-sensitive or
    the input has no upper-case letter, no encoded form of the mapping
    table occurs anywhere in a successfully normalized buffer. *)
Theorem no_encoded_form_left (n : obi_normalizer) (b : obi_buffer_t) :
  case_sensitive n = true \/ Forall (fun c => is_upper c = false) (data b) ->
  let '(r, _, b') := obi_normalize_buffer n b in
  r = OBI_SUCCESS ->
  forall m pre post,
    In m uscn_mappings -> data b' <> pre ++ encoded_form m ++ post.
Proof.
  intros Hcase.
  pose proof (canonical_bytes_reduced n (data b) Hcase) as Hr.
  destruct (obi_normalize_buffer_cases n b) as [(E & _ & _)|(r & n' & E & Hne)];
    rewrite E; [|intros; contradiction].
  intros _ m pre post Hin Habs. cbn [data store_data] in Habs.
  rewrite Habs in Hr. apply reduced_suffix in Hr.
  pose proof (table_encoded_nonempty m Hin) as Hnil.
  destruct (encoded_form m ++ post) as [|c l] eqn:El.
  { apply app_eq_nil in El. destruct El. contradiction. }
  destruct Hr as [Hun _]. specialize (Hun m Hin).
  assert (Hm : mapping_matches m (c :: l) = true).
  { apply mapping_matches_iff; [apply table_lengths; exact Hin|].
    exists post. symmetry. exact El. }
  rewrite Hm in Hun. discriminate Hun.
Qed.

Lemma no_encoded_form_left_witness :
  let b := {| data := str "a%2e%2e%2fb%c0%aec%2"; max_size := 64; normalized := false;
              validated := false; pattern_hash := [] |} in
  data (snd (obi_normalize_buffer obi_normalizer_create b)) = str "a../b.c%2"
  /\ forall pre post,
       data (snd (obi_normalize_buffer obi_normalizer_create b))
       <> pre ++ str "%2e" ++ post.
Proof.
  intros b.
  assert (Hup : Forall (fun c => is_upper c = false) (data b)) by (repeat constructor).
  pose proof (no_encoded_form_left obi_normalizer_create b (or_intror Hup)) as H.
  assert (E : obi_normalize_buffer obi_normalizer_create b
              = (OBI_SUCCESS,
                 store_canonical obi_normalizer_create (str "a../b.c%2"),
                 store_data b (str "a../b.c%2"))) by (vm_compute; reflexivity).
  rewrite E in *. split; [reflexivity|].
  intros pre post.
  apply (H eq_refl (mk_mapping (str "%2e") (str ".") 3 1) pre post).
  simpl. tauto.
Defined.

Lemma successful_normalization (n n1 : obi_normalizer) (b b1 : obi_buffer_t) :
  obi_normalize_buffer n b = (OBI_SUCCESS, n1, b1) ->
  initialized n = true
  /\ n1 = store_canonical n (canonical_bytes n (data b))
  /\ b1 = store_data b (canonical_bytes n (data b)).
Proof.
  intros E.
  destruct (obi_normalize_buffer_cases n b) as [(E' & _ & _)|(r & n' & E' & Hne)];
    rewrite E' in E; inversion E; subst; [|contradiction].
  split; [|auto].
  destruct (initialized n) eqn:Hi; [reflexivity|].
  unfold obi_normalize_buffer in E'. rewrite Hi in E'. discriminate E'.
Qed.

Lemma canonical_hash_of_stored (n : obi_normalizer) (y out : list byte) (size : nat) :
  initialized n = true -> (USCN_PATTERN_HASH_SIZE <= size)%nat ->
  obi_generate_canonical_hash (store_canonical n y) out size =
  match y with
  | [] => (OBI_ERROR_NORMALIZATION_FAILED, out)
  | _ => (OBI_SUCCESS,
          hash_to_bytes (canonical_fnv1a y) ++ repeat 0 (size - 4) ++ skipn size out)
  end.
Proof.
  intros Hi Hsize. unfold obi_generate_canonical_hash.
  replace (size <? USCN_PATTERN_HASH_SIZE)%nat with false
    by (symmetry; apply Nat.ltb_ge; exact Hsize).
  cbn [initialized buffer_used canonical_buffer store_canonical].
  rewrite Hi. cbn [negb orb]. rewrite firstn_all.
  destruct y as [|c l]; reflexivity.
Qed.

(** X12. The canonical hash of a normalized buffer.  After a successful
    [obi_normalize_buffer], [obi_generate_canonical_hash] (asked for at
    least 32 bytes) fails with NORMALIZATION_FAILED when the canonical
    form is empty, and otherwise writes the four bytes of the FNV-1a hash
    of the buffer's bytes followed by zeros, leaving the output beyond
    [hash_size] as it was. *)
Theorem canonical_hash_after_normalization
    (n n1 : obi_normalizer) (b b1 : obi_buffer_t) (out : list byte) (size : nat) :
  obi_normalize_buffer n b = (OBI_SUCCESS, n1, b1) ->
  (USCN_PATTERN_HASH_SIZE <= size)%nat ->
  obi_generate_canonical_hash n1 out size =
  match data b1 with
  | [] => (OBI_ERROR_NORMALIZATION_FAILED, out)
  | _ => (OBI_SUCCESS,
          hash_to_bytes (canonical_fnv1a (data b1)) ++ repeat 0 (size - 4)
          ++ skipn size out)
  end.
Proof.
  intros E Hsize.
  destruct (successful_normalization n n1 b b1 E) as (Hi & -> & ->).
  cbn [data store_data]. apply canonical_hash_of_stored; assumption.
Qed.

Lemma canonical_hash_after_normalization_witness :
  let b := {| data := str "  "; max_size := 64; normalized := false;
              validated := false; pattern_hash := [] |} in
  fst (fst (obi_normalize_buffer obi_normalizer_create b)) = OBI_SUCCESS
  /\ fst (obi_generate_canonical_hash
            (snd (fst (obi_normalize_buffer obi_normalizer_create b)))
            (repeat 0 32) 32)
     = OBI_ERROR_NORMALIZATION_FAILED.
Proof.
  intros b.
  assert (E : obi_normalize_buffer obi_normalizer_create b
              = (OBI_SUCCESS, store_canonical obi_normalizer_create [],
                 store_data b [])) by (vm_compute; reflexivity).
  pose proof (canonical_hash_after_normalization _ _ _ _ (repeat 0 32) 32 E
                (Nat.le_refl _)) as H.
  rewrite E. cbn [fst snd]. split; [reflexivity|]. rewrite H. reflexivity.
Defined.

Lemma canonical_character_fixed (c : byte) :
  is_upper c = false -> (isspace c = true -> c = 32) -> canonical_character c = c.
Proof.
  unfold is_upper, isspace, canonical_character. intros Hu Hs.
  rewrite Hu.
  destruct (Z.leb_spec 9 c), (Z.leb_spec c 13); cbn [andb] in *; try reflexivity.
  symmetry. apply Hs. apply orb_true_r.
Qed.

(** X13. The two fingerprints agree.  For a normalizer with the default
    settings, when a buffer has been normalized successfully, holds at most
    4095 bytes and is accepted by the automaton, the pattern hash that the
    automaton stores is the canonical hash that
    [obi_generate_canonical_hash] reports. *)
Theorem pattern_hash_is_canonical_hash
    (n n1 : obi_normalizer) (b b1 : obi_buffer_t) (out : list byte) :
  case_sensitive n = false -> whitespace_normalize n = true ->
  obi_normalize_buffer n b = (OBI_SUCCESS, n1, b1) ->
  (List.length (data b1) <= Automaton.DFA_PATTERN_BUFFER_SIZE - 1)%nat ->
  fst (fst (Automaton.obi_automaton_process Automaton.obi_automaton_create b1))
  = OBI_SUCCESS ->
  fst (obi_generate_canonical_hash n1 out 32) = OBI_SUCCESS
  /\ firstn 4 (pattern_hash
                 (snd (Automaton.obi_automaton_process Automaton.obi_automaton_create b1)))
     = firstn 4 (snd (obi_generate_canonical_hash n1 out 32)).
Proof.
  intros Hcs Hws E Hlen Hacc.
  destruct (successful_normalization n n1 b b1 E) as (Hi & -> & ->).
  cbn [data store_data] in *.
  set (y := canonical_bytes n (data b)) in *.
  pose proof (canonical_bytes_no_upper n (data b) Hcs) as Hup.
  destruct (canonical_bytes_whitespace n (data b) Hws) as [Hsp _].
  fold y in Hup, Hsp.
  assert (Hid : map Automaton.normalize_character y = y).
  { clear - Hup Hsp. induction y as [|c l IH]; [reflexivity|].
    inversion Hup; subst. inversion Hsp; subst. simpl.
    rewrite normalize_character_spec, canonical_character_fixed by assumption.
    f_equal. apply IH; assumption. }
  rewrite (canonical_hash_of_stored n y out 32 Hi (Nat.le_refl _)).
  revert Hacc. unfold Automaton.obi_automaton_process.
  cbn [Automaton.initialized Automaton.obi_automaton_create negb data store_data].
  destruct y as [|c l] eqn:Hy.
  { vm_compute. intros Habs. discriminate Habs. }
  rewrite <- Hy in *.
  destruct (Automaton.process_loop
              (Automaton.set_run Automaton.obi_automaton_create 0 []) y)
    as [[r a1]|a1] eqn:Hl.
  { cbn [fst]. intros ->. apply process_loop_early_result in Hl.
    destruct Hl as [Hl _]. contradiction. }
  destruct (negb (Automaton.state_is_accepting a1 (Automaton.current_state a1)));
    [discriminate|].
  intros _.
  apply process_loop_pattern in Hl;
    [|cbn [Automaton.pattern_buffer Automaton.set_run List.length]; lia].
  cbn [Automaton.pattern_buffer Automaton.set_run app] in Hl.
  rewrite Hid, firstn_all2 in Hl by exact Hlen.
  cbn [fst snd pattern_hash]. rewrite Hl, Hy. split; reflexivity.
Qed.

Lemma pattern_hash_is_canonical_hash_witness :
  let b := {| data := str "{%20 }"; max_size := 64; normalized := false;
              validated := false; pattern_hash := repeat 0 32 |} in
  let '(_, n1, b1) := obi_normalize_buffer obi_normalizer_create b in
  data b1 = str "{ }"
  /\ firstn 4 (pattern_hash
                 (snd (Automaton.obi_automaton_process Automaton.obi_automaton_create b1)))
     = firstn 4 (snd (obi_generate_canonical_hash n1 (repeat 0 32) 32)).
Proof.
  intros b.
  assert (E : obi_normalize_buffer obi_normalizer_create b
              = (OBI_SUCCESS, store_canonical obi_normalizer_create (str "{ }"),
                 store_data b (str "{ }"))) by (vm_compute; reflexivity).
  rewrite E. split; [reflexivity|].
  apply (pattern_hash_is_canonical_hash obi_normalizer_create _ b _ (repeat 0 32)
           eq_refl eq_refl E).
  - vm_compute. lia.
  - vm_compute. reflexivity.
Defined.

End NormalizerComposition.

(* ================================================================= *)
(** * Further properties of the audit log *)

Section AuditLog.

Import Audit.
Local Open Scope Z_scope.

Lemma count_failures_app (l1 l2 : list parsed_line) :
  count_failures (l1 ++ l2) = (count_failures l1 + count_failures l2)%nat.
Proof.
  induction l1 as [|l l1 IH]; [reflexivity|].
  cbn [app count_failures]. rewrite IH.
  destruct l as [[e c]|]; [destruct (_ =? c)|]; lia.
Qed.

Lemma logged_entry (st : audit_state_t) (now : Z) (op hash : list byte) :
  let '(r, st1, e) := obi_audit_log_operation st now op hash in
  r = OBI_SUCCESS
  /\ log_file st1 = option_map (fun lines => lines ++ [e]) (log_file st)
  /\ sequence_counter st1 = (sequence_counter st + 1) mod 2 ^ 32
  /\ sequence_number e = (sequence_counter st + 1) mod 2 ^ 32
  /\ initialized st1 = initialized st
  /\ current_session_id st1 = current_session_id st
  /\ calculate_entry_checksum e = checksum e.
Proof.
  pose proof (written_entry_verifies st now op hash) as Hw.
  destruct (obi_audit_log_operation st now op hash) as [[r st1] e] eqn:E.
  unfold obi_audit_log_operation in E.
  apply pair_equal_spec in E. destruct E as [E He].
  apply pair_equal_spec in E. destruct E as [Hr Hst].
  subst r st1 e.
  cbn [log_file sequence_counter initialized current_session_id sequence_number].
  split; [reflexivity|]. split; [reflexivity|]. split; [reflexivity|].
  split; [reflexivity|]. split; [reflexivity|]. split; [reflexivity|].
  exact Hw.
Qed.

(** The log after a list of operations. *)
Lemma log_operations_spec : forall ops st lines,
  log_file st = Some lines ->
  0 <= sequence_counter st ->
  sequence_counter st + Z.of_nat (List.length ops) < 2 ^ 32 ->
  let '(st', es) := log_operations st ops in
  log_file st' = Some (lines ++ es)
  /\ sequence_counter st' = sequence_counter st + Z.of_nat (List.length ops)
  /\ map sequence_number es
     = map (fun k => sequence_counter st + Z.of_nat k) (seq 1 (List.length ops))
  /\ Forall (fun e => calculate_entry_checksum e = checksum e) es
  /\ initialized st' = initialized st.
Proof.
  induction ops as [|[[now op] hash] ops IH]; intros st lines Hf H0 Hlt.
  - cbn [log_operations List.length seq map]. rewrite app_nil_r, Z.add_0_r.
    split; [exact Hf|]. split; [reflexivity|]. split; [reflexivity|].
    split; [constructor|reflexivity].
  - cbn [log_operations].
    pose proof (logged_entry st now op hash) as Hl.
    destruct (obi_audit_log_operation st now op hash) as [[r st1] e].
    destruct Hl as (_ & Hf1 & Hc1 & Hs1 & Hi1 & _ & Hck).
    rewrite Hf in Hf1. cbn [option_map] in Hf1.
    cbn [List.length] in Hlt. rewrite Nat2Z.inj_succ in Hlt.
    rewrite Z.mod_small in Hc1, Hs1 by lia.
    specialize (IH st1 (lines ++ [e]) Hf1 ltac:(lia) ltac:(lia)).
    destruct (log_operations st1 ops) as [st2 es].
    destruct IH as (Hf2 & Hc2 & Hs2 & Hck2 & Hi2).
    split; [rewrite Hf2, <- app_assoc; reflexivity|].
    split; [rewrite Hc2, Hc1; cbn [List.length]; lia|].
    split; [|split; [constructor; assumption|congruence]].
    cbn [map List.length seq]. rewrite Hs1, Hs2. apply f_equal2; [lia|].
    rewrite <- (seq_shift (List.length ops) 1), map_map.
    apply map_ext. intros k. rewrite Hc1. lia.
Qed.

(** X14. The audit log is append-only and numbered.  Starting from an
    initialized state with an open log, a list of operations that does not
    exhaust the 32-bit counter leaves the earlier lines in place, appends
    one entry per operation, and numbers the entries consecutively from
    the counter on; the state stays initialized. *)
Theorem audit_log_is_append_only (st : audit_state_t) (lines : list log_line)
    (ops : list (Z * list byte * list byte)) :
  initialized st = true ->
  log_file st = Some lines ->
  0 <= sequence_counter st ->
  sequence_counter st + Z.of_nat (List.length ops) < 2 ^ 32 ->
  let '(st', es) := log_operations st ops in
  log_file st' = Some (lines ++ es)
  /\ List.length es = List.length ops
  /\ map sequence_number es
     = map (fun k => sequence_counter st + Z.of_nat k) (seq 1 (List.length ops))
  /\ sequence_counter st' = sequence_counter st + Z.of_nat (List.length ops)
  /\ initialized st' = true.
Proof.
  intros Hi Hf H0 Hlt.
  pose proof (log_operations_spec ops st lines Hf H0 Hlt) as H.
  destruct (log_operations st ops) as [st' es].
  destruct H as (H1 & H2 & H3 & _ & H5).
  split; [exact H1|]. split; [|split; [assumption|split; [assumption|congruence]]].
  apply (f_equal (@List.length Z)) in H3.
  rewrite !length_map, length_seq in H3. exact H3.
Qed.

Lemma audit_log_is_append_only_witness :
  let st := {| initialized := true; log_file := Some [];
               sequence_counter := 41;
               current_session_id := str "OBI_6553F100_0BADF00D" |} in
  let ops := [ (1700000000, str "BUFFER_VALIDATION", [37; 184; 101; 84]);
               (1700000001, str "AUDIT_CLEANUP", []) ] in
  map sequence_number (snd (log_operations st ops)) = [42; 43].
Proof.
  intros st ops.
  pose proof (audit_log_is_append_only st [] ops eq_refl eq_refl) as H.
  destruct (log_operations st ops) as [st' es].
  destruct H as (_ & _ & H & _); [cbn; lia|cbn; lia|].
  cbn [snd]. rewrite H. reflexivity.
Defined.

Lemma lxor_cancel (a x y : Z) : Z.lxor a x = Z.lxor a y -> x = y.
Proof.
  intros H. apply (f_equal (Z.lxor a)) in H.
  rewrite <- !Z.lxor_assoc, Z.lxor_nilpotent, !Z.lxor_0_l in H. exact H.
Qed.

(** X16. A changed sequence number is detected.  Take a line whose stored
    checksum is the checksum of its fields (every written line).  If the
    number that [%u] converts its SEQ field to (a value below 2^32) is any
    other than the one written, while the other conversions give what was
    written, [obi_audit_verify_integrity] fails with VALIDATION_FAILED.
    (Another spelling of the same number, such as a leading zero or the
    number plus 2^32, converts to the number written and is no change.) *)
Theorem changed_sequence_number_is_detected (e : obi_audit_entry_t) (seq : Z)
    (before after : list parsed_line) :
  calculate_entry_checksum e = checksum e ->
  0 <= seq < 2 ^ 32 ->
  seq <> sequence_number e ->
  obi_audit_verify_integrity
    (Some (before ++ Some (set_sequence_number e seq, checksum e) :: after))
  = OBI_ERROR_VALIDATION_FAILED.
Proof.
  intros Hck _ Hseq. unfold obi_audit_verify_integrity.
  rewrite count_failures_app. cbn [count_failures].
  assert (Hne : calculate_entry_checksum (set_sequence_number e seq) <> checksum e).
  { rewrite <- Hck. unfold calculate_entry_checksum, set_sequence_number.
    cbn [timestamp operation hash_reference context sequence_number].
    intros E. apply lxor_cancel in E. contradiction. }
  apply Z.eqb_neq in Hne. rewrite Hne.
  replace (0 <? _)%nat with true; [reflexivity|].
  symmetry. apply Nat.ltb_lt. lia.
Qed.

Lemma changed_sequence_number_is_detected_witness :
  let st := {| initialized := true; log_file := Some [];
               sequence_counter := 6;
               current_session_id := str "OBI_6553F100_0BADF00D" |} in
  let e := snd (obi_audit_log_operation st 1700000000 (str "BUFFER_VALIDATION") []) in
  sequence_number e = 7
  /\ obi_audit_verify_integrity
       (Some ([] ++ Some (set_sequence_number e 8, checksum e) :: []))
     = OBI_ERROR_VALIDATION_FAILED.
Proof.
  intros st e.
  assert (Hs : sequence_number e = 7) by (vm_compute; reflexivity).
  split; [exact Hs|].
  apply changed_sequence_number_is_detected.
  - vm_compute. reflexivity.
  - lia.
  - rewrite Hs. discriminate.
Defined.

(** X17. The checksum does not tell the fields apart.  The checksum combines
    the hashes of the text fields with exclusive or, so exchanging the
    operation tag and the context of an entry leaves it unchanged: when
    the context fits the operation field (63 characters), the line with
    the two exchanged verifies whenever the original does. *)
Theorem exchanged_fields_verify (e : obi_audit_entry_t) :
  (List.length (context e) <= 63)%nat ->
  calculate_entry_checksum e = checksum e ->
  calculate_entry_checksum (swap_operation_context e) = calculate_entry_checksum e
  /\ obi_audit_verify_integrity (Some [read_back (swap_operation_context e)])
     = OBI_SUCCESS.
Proof.
  intros _ Hck.
  assert (H : calculate_entry_checksum (swap_operation_context e)
              = calculate_entry_checksum e).
  { unfold calculate_entry_checksum, swap_operation_context.
    cbn [timestamp operation hash_reference context sequence_number].
    generalize (calculate_fnv1a_hash (uint64_bytes (timestamp e))).
    generalize (calculate_fnv1a_hash (operation e)).
    generalize (calculate_fnv1a_hash (context e)).
    generalize (calculate_fnv1a_hash (hash_reference e)).
    intros h c o t. apply Z.bits_inj'. intros n _.
    rewrite !Z.lxor_spec.
    destruct (Z.testbit t n), (Z.testbit c n), (Z.testbit h n), (Z.testbit o n);
      reflexivity. }
  split; [exact H|].
  unfold obi_audit_verify_integrity, read_back.
  cbn [count_failures]. rewrite H.
  replace (checksum (swap_operation_context e)) with (checksum e) by reflexivity.
  rewrite Hck, Z.eqb_refl. reflexivity.
Qed.

Lemma exchanged_fields_verify_witness :
  let st := {| initialized := true; log_file := Some [];
               sequence_counter := 0;
               current_session_id := str "OBI_6553F100_0BADF00D" |} in
  let e := snd (obi_audit_log_operation st 1700000000 (str "BUFFER_VALIDATION") []) in
  operation (swap_operation_context e) = str "SESSION_OBI_6553F100_0BADF00D_SEQ_1"
  /\ obi_audit_verify_integrity (Some [read_back (swap_operation_context e)])
     = OBI_SUCCESS.
Proof.
  intros st e. split; [vm_compute; reflexivity|].
  apply (exchanged_fields_verify e).
  - apply Nat.leb_le. vm_compute. reflexivity.
  - vm_compute. reflexivity.
Defined.

(** *** The hash reference *)

Lemma nibble_range (x : Z) : 0 <= Z.land x 15 < 16.
Proof.
  change 15 with (Z.ones 4). rewrite Z.land_ones by lia.
  apply Z.mod_pos_bound. lia.
Qed.

Lemma hex_char_upper (x : Z) :
  is_upper_hex (nth (Z.to_nat (Z.land x 15)) hex_chars 0) = true.
Proof.
  pose proof (nibble_range x) as Hx.
  assert (Hall : forallb is_upper_hex hex_chars = true) by (vm_compute; reflexivity).
  rewrite forallb_forall in Hall. apply Hall. apply nth_In.
  change (List.length hex_chars) with 16%nat. lia.
Qed.

Lemma bytes_to_hex_length (bytes : list byte) (hex_size : nat) :
  List.length (bytes_to_hex bytes hex_size)
  = (2 * Nat.min ((hex_size - 1) / 2) (List.length bytes))%nat.
Proof.
  unfold bytes_to_hex. rewrite <- length_firstn.
  induction (firstn ((hex_size - 1) / 2) bytes) as [|b l IH]; [reflexivity|].
  cbn [flat_map app List.length]. rewrite IH. lia.
Qed.

Lemma bytes_to_hex_upper (bytes : list byte) (hex_size : nat) :
  forallb is_upper_hex (bytes_to_hex bytes hex_size) = true.
Proof.
  unfold bytes_to_hex.
  induction (firstn ((hex_size - 1) / 2) bytes) as [|b l IH]; [reflexivity|].
  cbn [flat_map app forallb]. rewrite !hex_char_upper, IH. reflexivity.
Qed.

(** X18. The hash reference of a logged entry.  When hash bytes are given, the
    reference written is two upper-case hexadecimal digits for each of at
    most the first 32 bytes, whatever the bytes are: it fits the 65-byte
    array and holds no field separator. *)
Theorem hash_reference_is_upper_case_hex (st : audit_state_t) (now : Z)
    (op hash : list byte) :
  hash <> [] ->
  let e := snd (obi_audit_log_operation st now op hash) in
  List.length (hash_reference e) = (2 * Nat.min 32 (List.length hash))%nat
  /\ forallb is_upper_hex (hash_reference e) = true
  /\ ~ In 124 (hash_reference e).
Proof.
  intros Hne e.
  assert (E : hash_reference e = bytes_to_hex hash (OBI_AUDIT_HASH_SIZE * 2 + 1)).
  { unfold e, obi_audit_log_operation. cbn [snd hash_reference].
    destruct hash; [contradiction|reflexivity]. }
  rewrite E. split; [apply bytes_to_hex_length|].
  split; [apply bytes_to_hex_upper|].
  intros Hin. pose proof (bytes_to_hex_upper hash (OBI_AUDIT_HASH_SIZE * 2 + 1)) as Hu.
  rewrite forallb_forall in Hu. specialize (Hu _ Hin). discriminate Hu.
Qed.

Lemma hash_reference_is_upper_case_hex_witness :
  let st := {| initialized := true; log_file := Some [];
               sequence_counter := 0;
               current_session_id := str "OBI_6553F100_0BADF00D" |} in
  let e := snd (obi_audit_log_operation st 1700000000 (str "BUFFER_VALIDATION")
                  [37; 184; 101; 84]) in
  hash_reference e = str "25B86554"
  /\ List.length (hash_reference e) = 8%nat
  /\ ~ In 124 (hash_reference e).
Proof.
  intros st e.
  destruct (hash_reference_is_upper_case_hex st 1700000000
              (str "BUFFER_VALIDATION") [37; 184; 101; 84]) as (H1 & _ & H3);
    [discriminate|].
  split; [vm_compute; reflexivity|]. split; [exact H1|exact H3].
Defined.

(** *** Lines that convert back *)

Lemma logged_fields (st : audit_state_t) (now : Z) (op hash : list byte) :
  let e := snd (obi_audit_log_operation st now op hash) in
  operation e = firstn 63 op
  /\ timestamp e = now
  /\ hash_reference e
     = match hash with
       | [] => str "NULL_HASH"
       | _ => bytes_to_hex hash (OBI_AUDIT_HASH_SIZE * 2 + 1)
       end.
Proof.
  unfold obi_audit_log_operation. cbn [snd operation timestamp hash_reference].
  split; [reflexivity|]. split; reflexivity.
Qed.

Lemma forallb_firstn {A : Type} (f : A -> bool) : forall n l,
  forallb f l = true -> forallb f (firstn n l) = true.
Proof.
  induction n as [|n IH]; intros l H; [reflexivity|].
  destruct l as [|x l]; [reflexivity|].
  cbn [forallb] in H. apply andb_prop in H. destruct H as [Hx Hl].
  cbn [firstn forallb]. rewrite Hx, (IH l Hl). reflexivity.
Qed.

Lemma forallb_weaken {A : Type} (f g : A -> bool) (l : list A) :
  (forall x, f x = true -> g x = true) ->
  forallb f l = true -> forallb g l = true.
Proof.
  intros Hfg H. rewrite forallb_forall in *. intros x Hx. apply Hfg, H, Hx.
Qed.

Lemma upper_hex_field_byte (c : byte) :
  is_upper_hex c = true -> field_byte c = true.
Proof. unfold is_upper_hex, field_byte. lia. Qed.

Lemma text_field_intro (width : nat) (s : list byte) :
  s <> [] -> (List.length s <= width)%nat -> forallb field_byte s = true ->
  text_field width s = true.
Proof.
  intros Hne Hlen Hall. unfold text_field. rewrite Hall.
  destruct s as [|c s]; [contradiction|].
  apply Nat.leb_le in Hlen. rewrite Hlen. reflexivity.
Qed.

Lemma digits_field_bytes (d : Decimal.uint) :
  forallb field_byte (bytes_of_string (NilEmpty.string_of_uint d)) = true.
Proof. induction d; [reflexivity|exact IHd..]. Qed.

Lemma calculate_fnv1a_hash_range (bytes : list byte) :
  0 <= calculate_fnv1a_hash bytes < 2 ^ 32.
Proof.
  unfold calculate_fnv1a_hash.
  assert (H : forall l h, 0 <= h < 2 ^ 32 ->
            0 <= fold_left
                   (fun hash c => (Z.lxor hash c * 16777619) mod 2 ^ 32) l h
            < 2 ^ 32).
  { induction l as [|c l IH]; intros h Hh; [exact Hh|].
    cbn [fold_left]. apply IH. apply Z.mod_pos_bound. lia. }
  apply H. lia.
Qed.

Lemma lxor_range (a b : Z) :
  0 <= a < 2 ^ 32 -> 0 <= b < 2 ^ 32 -> 0 <= Z.lxor a b < 2 ^ 32.
Proof.
  intros [Ha Ha'] [Hb Hb'].
  assert (H0 : 0 <= Z.lxor a b) by (apply Z.lxor_nonneg; tauto).
  split; [exact H0|].
  destruct (Z.eq_dec (Z.lxor a b) 0) as [E|E]; [rewrite E; lia|].
  apply Z.log2_lt_pow2; [lia|].
  eapply Z.le_lt_trans; [apply Z.log2_lxor; assumption|].
  apply Z.max_lub_lt.
  - destruct (Z.eq_dec a 0) as [->|Hn]; [cbn; lia|apply Z.log2_lt_pow2; lia].
  - destruct (Z.eq_dec b 0) as [->|Hn]; [cbn; lia|apply Z.log2_lt_pow2; lia].
Qed.

Lemma entry_checksum_range (e : obi_audit_entry_t) :
  0 <= sequence_number e < 2 ^ 32 -> 0 <= calculate_entry_checksum e < 2 ^ 32.
Proof.
  intros Hs. unfold calculate_entry_checksum.
  repeat apply lxor_range; try apply calculate_fnv1a_hash_range. exact Hs.
Qed.

Lemma logged_context (st : audit_state_t) (now : Z) (op hash : list byte) :
  let e := snd (obi_audit_log_operation st now op hash) in
  context e
  = firstn (OBI_AUDIT_CONTEXT_MAX - 1)
      (str "SESSION_" ++ current_session_id st ++ str "_SEQ_"
       ++ decimal (sequence_number e))
  /\ compliance_level e = str "NASA-STD-8739.8"
  /\ sequence_number e = (sequence_counter st + 1) mod 2 ^ 32
  /\ calculate_entry_checksum e = checksum e.
Proof.
  pose proof (written_entry_verifies st now op hash) as Hw.
  destruct (obi_audit_log_operation st now op hash) as [[r st1] e] eqn:E.
  unfold obi_audit_log_operation in E.
  apply pair_equal_spec in E. destruct E as [_ He]. subst e.
  cbn [snd context compliance_level sequence_number].
  split; [reflexivity|]. split; [reflexivity|]. split; [reflexivity|exact Hw].
Qed.

(** What [obi_audit_log_operation] writes converts back. *)
Lemma logged_entry_converts (st : audit_state_t) (now : Z) (op hash : list byte) :
  forallb field_byte (current_session_id st) = true ->
  0 <= now < 2 ^ 64 -> op <> [] -> forallb field_byte op = true ->
  converts_back (snd (obi_audit_log_operation st now op hash)) = true.
Proof.
  intros Hid Hnow Hne Hop.
  pose proof (logged_fields st now op hash) as F.
  pose proof (logged_context st now op hash) as C.
  set (e := snd (obi_audit_log_operation st now op hash)) in *.
  cbv zeta in F, C.
  destruct F as (Fo & Ft & Fh). destruct C as (Cc & Cl & Cs & Ck).
  assert (Hseq : 0 <= sequence_number e < 2 ^ 32)
    by (rewrite Cs; apply Z.mod_pos_bound; lia).
  assert (Hsum : 0 <= checksum e < 2 ^ 32)
    by (rewrite <- Ck; apply entry_checksum_range; exact Hseq).
  assert (T1 : text_field 63 (operation e) = true).
  { rewrite Fo. apply text_field_intro.
    - destruct op; [contradiction|discriminate].
    - rewrite length_firstn. lia.
    - apply forallb_firstn. exact Hop. }
  assert (T2 : text_field 64 (hash_reference e) = true).
  { rewrite Fh. destruct hash as [|h0 hs]; [reflexivity|].
    pose proof (bytes_to_hex_length (h0 :: hs) (OBI_AUDIT_HASH_SIZE * 2 + 1)) as HL.
    change ((OBI_AUDIT_HASH_SIZE * 2 + 1 - 1) / 2)%nat with 32%nat in HL.
    cbn [List.length] in HL.
    apply text_field_intro.
    - intros E. rewrite E in HL. cbn [List.length] in HL. lia.
    - lia.
    - apply (forallb_weaken is_upper_hex); [exact upper_hex_field_byte|].
      apply bytes_to_hex_upper. }
  assert (T3 : text_field 127 (context e) = true).
  { rewrite Cc. change (OBI_AUDIT_CONTEXT_MAX - 1)%nat with 127%nat.
    apply text_field_intro.
    - change (str "SESSION_") with (83 :: tl (str "SESSION_")).
      cbn [app firstn]. discriminate.
    - rewrite length_firstn. lia.
    - apply forallb_firstn. rewrite !forallb_app, Hid.
      unfold decimal. rewrite digits_field_bytes. reflexivity. }
  assert (T4 : text_field 31 (compliance_level e) = true)
    by (rewrite Cl; reflexivity).
  unfold converts_back. rewrite T1, T2, T3, T4, Ft. cbn [andb].
  repeat (apply andb_true_intro; split);
    try (apply Z.leb_le; lia); apply Z.ltb_lt; lia.
Qed.

Lemma log_operations_convert : forall ops st,
  forallb field_byte (current_session_id st) = true ->
  Forall loggable ops ->
  Forall (fun e => converts_back e = true) (snd (log_operations st ops)).
Proof.
  induction ops as [|[[now op] hash] ops IH]; intros st Hid Hops;
    cbn [log_operations]; [constructor|].
  inversion Hops as [|? ? Hop Hrest]; subst.
  destruct Hop as (Hnow & Hne & Hbytes). cbn [fst snd] in Hnow, Hne, Hbytes.
  pose proof (logged_entry st now op hash) as Hl.
  pose proof (logged_entry_converts st now op hash Hid Hnow Hne Hbytes) as Hc.
  destruct (obi_audit_log_operation st now op hash) as [[r st1] e].
  cbn [snd] in Hc.
  destruct Hl as (_ & _ & _ & _ & _ & Hid1 & _).
  rewrite <- Hid1 in Hid. specialize (IH st1 Hid Hrest).
  destruct (log_operations st1 ops) as [st2 es]. cbn [snd] in *.
  constructor; assumption.
Qed.

Lemma hex8_upper (v : Z) : forallb is_upper_hex (hex8 v) = true.
Proof. unfold hex8. cbn [map forallb]. rewrite !hex_char_upper. reflexivity. Qed.

(** The session ids that [obi_audit_init] generates are made of field
    bytes. *)
Lemma generated_session_id_field_bytes (now : Z) (size : nat) :
  forallb field_byte (generate_session_id now size) = true.
Proof.
  unfold generate_session_id. apply forallb_firstn. rewrite !forallb_app.
  rewrite !(forallb_weaken _ _ _ upper_hex_field_byte (hex8_upper _)).
  reflexivity.
Qed.

(** X15. What was logged verifies.  Take an initialized state with an open
    log and a session id made of field bytes (as the generated ids are),
    and operations whose tags
    are non-empty and hold no separator and no line break.  Every line
    written for them is read back by [fgets] and [sscanf] as the seven
    fields written, and [obi_audit_verify_integrity] counts no failure on
    these lines: the verdict on the log is the verdict on the lines that
    were there before.  (A tag that is empty or holds a separator or a
    line break gives a line that does not convert back; such operations
    are outside this property.) *)
Theorem logged_entries_verify (st : audit_state_t) (lines : list log_line)
    (ops : list (Z * list byte * list byte)) :
  initialized st = true ->
  log_file st = Some lines ->
  0 <= sequence_counter st ->
  sequence_counter st + Z.of_nat (List.length ops) < 2 ^ 32 ->
  forallb field_byte (current_session_id st) = true ->
  Forall loggable ops ->
  let '(st', es) := log_operations st ops in
  log_file st' = Some (lines ++ es)
  /\ Forall (fun e => converts_back e = true) es
  /\ forall earlier : list parsed_line,
       obi_audit_verify_integrity (Some (earlier ++ map read_back es))
       = obi_audit_verify_integrity (Some earlier).
Proof.
  intros _ Hf H0 Hlt Hid Hops.
  pose proof (log_operations_spec ops st lines Hf H0 Hlt) as H.
  pose proof (log_operations_convert ops st Hid Hops) as Hc.
  destruct (log_operations st ops) as [st' es].
  destruct H as (H1 & _ & _ & Hck & _). cbn [snd] in Hc.
  split; [exact H1|]. split; [exact Hc|].
  intros earlier. unfold obi_audit_verify_integrity.
  rewrite count_failures_app.
  assert (Hz : count_failures (map read_back es) = 0%nat).
  { clear - Hck. induction Hck as [|e es He Hes IH]; [reflexivity|].
    cbn [map count_failures read_back]. rewrite He, Z.eqb_refl. exact IH. }
  rewrite Hz, Nat.add_0_r. reflexivity.
Qed.

Lemma logged_entries_verify_witness :
  let st := {| initialized := true; log_file := Some [];
               sequence_counter := 0;
               current_session_id := generate_session_id 1700000000 32 |} in
  let ops := [ (1700000000, str "AUDIT_INIT", []);
               (1700000002, str "BUFFER_VALIDATION", [37; 184; 101; 84]) ] in
  obi_audit_verify_integrity (Some (map read_back (snd (log_operations st ops))))
  = OBI_SUCCESS.
Proof.
  intros st ops.
  assert (Hops : Forall loggable ops).
  { repeat constructor; cbn [fst snd]; try lia; try discriminate. }
  pose proof (logged_entries_verify st [] ops eq_refl eq_refl
                ltac:(cbn; lia) ltac:(cbn; lia)
                (generated_session_id_field_bytes 1700000000 32) Hops) as H.
  destruct (log_operations st ops) as [st' es].
  destruct H as (_ & _ & H). cbn [snd]. exact (H []).
Defined.

Lemma hash_to_bytes_four (h : Z) :
  exists a b c d, Normalizer.hash_to_bytes h = [a; b; c; d].
Proof. unfold Normalizer.hash_to_bytes. cbn [map]. eauto. Qed.

(** X19. The hash logged for a validated buffer.  The 32-byte canonical hash
    that [obi_generate_canonical_hash] writes carries a 32-bit value, so
    the hash reference logged for it has 64 characters of which the last
    56 are the digit 0. *)
Theorem canonical_hash_reference_is_padded (nz : Normalizer.obi_normalizer)
    (out h : list byte) (st : audit_state_t) (now : Z) (op : list byte) :
  Normalizer.obi_generate_canonical_hash nz out 32 = (OBI_SUCCESS, h) ->
  let e := snd (obi_audit_log_operation st now op h) in
  List.length (hash_reference e) = 64%nat
  /\ skipn 8 (hash_reference e) = repeat 48 56.
Proof.
  intros Hh e. unfold Normalizer.obi_generate_canonical_hash in Hh.
  change (32 <? Normalizer.USCN_PATTERN_HASH_SIZE)%nat with false in Hh.
  cbv iota in Hh.
  destruct (negb (Normalizer.initialized nz)
            || (Normalizer.buffer_used nz =? 0)%nat); [discriminate Hh|].
  apply pair_equal_spec in Hh. destruct Hh as [_ Hh].
  destruct (hash_to_bytes_four
              (Normalizer.canonical_fnv1a
                 (firstn (Normalizer.buffer_used nz) (Normalizer.canonical_buffer nz))))
    as (a & b & c & d & E).
  rewrite E in Hh. subst h.
  unfold e, obi_audit_log_operation. cbn [snd hash_reference app].
  unfold bytes_to_hex.
  change ((OBI_AUDIT_HASH_SIZE * 2 + 1 - 1) / 2)%nat with 32%nat.
  change (32 - 4)%nat with 28%nat.
  generalize (skipn 32 out). intros rest.
  cbn [repeat app firstn flat_map List.length skipn].
  split; reflexivity.
Qed.

Lemma canonical_hash_reference_is_padded_witness :
  let nz := {| Normalizer.initialized := true;
               Normalizer.case_sensitive := false;
               Normalizer.whitespace_normalize := true;
               Normalizer.canonical_buffer := str "{}";
               Normalizer.buffer_used := 2 |} in
  let st := {| initialized := true; log_file := Some [];
               sequence_counter := 0;
               current_session_id := str "OBI_6553F100_0BADF00D" |} in
  let h := snd (Normalizer.obi_generate_canonical_hash nz (repeat 255 32) 32) in
  skipn 8 (hash_reference
             (snd (obi_audit_log_operation st 1700000000
                     (str "BUFFER_VALIDATION") h)))
  = repeat 48 56.
Proof.
  intros nz st h.
  apply (canonical_hash_reference_is_padded nz (repeat 255 32) h st).
  vm_compute. reflexivity.
Defined.

(** X20. The two hash generators agree.  Whenever [obi_generate_canonical_hash]
    of the normalizer succeeds, [obi_generate_protocol_hash] of the audit
    module, given the canonical bytes and the same output array, succeeds
    with the same bytes. *)
Theorem protocol_hash_agrees_with_canonical_hash (nz : Normalizer.obi_normalizer)
    (out h : list byte) (hash_size : nat) :
  Normalizer.obi_generate_canonical_hash nz out hash_size = (OBI_SUCCESS, h) ->
  obi_generate_protocol_hash
    (firstn (Normalizer.buffer_used nz) (Normalizer.canonical_buffer nz))
    out hash_size
  = (OBI_SUCCESS, h).
Proof.
  unfold Normalizer.obi_generate_canonical_hash, obi_generate_protocol_hash.
  destruct (Nat.ltb_spec hash_size Normalizer.USCN_PATTERN_HASH_SIZE) as [Hlt|Hs];
    [intros H; discriminate H|].
  destruct (negb (Normalizer.initialized nz)
            || (Normalizer.buffer_used nz =? 0)%nat); [intros H; discriminate H|].
  unfold Normalizer.USCN_PATTERN_HASH_SIZE in Hs.
  destruct (Nat.ltb_spec hash_size 4) as [Hlt|_]; [lia|].
  intros H. exact H.
Qed.

Lemma protocol_hash_agrees_with_canonical_hash_witness :
  let nz := {| Normalizer.initialized := true;
               Normalizer.case_sensitive := false;
               Normalizer.whitespace_normalize := true;
               Normalizer.canonical_buffer := str "{}";
               Normalizer.buffer_used := 2 |} in
  obi_generate_protocol_hash (firstn 2 (str "{}")) (repeat 255 32) 32
  = Normalizer.obi_generate_canonical_hash nz (repeat 255 32) 32.
Proof.
  intros nz.
  transitivity
    (OBI_SUCCESS, snd (Normalizer.obi_generate_canonical_hash nz (repeat 255 32) 32)).
  - apply (protocol_hash_agrees_with_canonical_hash nz). vm_compute. reflexivity.
  - vm_compute. reflexivity.
Defined.

(** *** The session *)

(** X21. Initialization happens once.  After a call of [obi_audit_init] that
    returns SUCCESS the state is initialized, and every later call returns
    SUCCESS and leaves the state, its log and its counter as they are;
    when the log cannot be opened the state stays uninitialized. *)
Theorem audit_init_happens_once (st st1 : audit_state_t)
    (file : option (list log_line)) (now_id now_entry : Z) (r : obi_result_t) :
  obi_audit_init st file now_id now_entry = (r, st1) ->
  (r = OBI_SUCCESS ->
   initialized st1 = true
   /\ forall file' now_id' now_entry',
        obi_audit_init st1 file' now_id' now_entry' = (OBI_SUCCESS, st1))
  /\ (r <> OBI_SUCCESS -> r = OBI_ERROR_AUDIT_REQUIRED /\ initialized st1 = false).
Proof.
  unfold obi_audit_init at 1.
  destruct (initialized st) eqn:Hi.
  - intros H. inversion H; subst. split; [|intros Hn; contradiction].
    intros _. split; [exact Hi|]. intros.
    unfold obi_audit_init. rewrite Hi. reflexivity.
  - destruct file as [lines|].
    + pose proof (logged_entry
                    {| initialized := true; log_file := Some lines;
                       sequence_counter := 0;
                       current_session_id := generate_session_id now_id 32 |}
                    now_entry (str "AUDIT_INIT") []) as Hl.
      destruct (obi_audit_log_operation _ now_entry (str "AUDIT_INIT") [])
        as [[r1 st2] e].
      destruct Hl as (Hr & _ & _ & _ & Hi2 & _). cbn [initialized] in Hi2.
      intros H. inversion H; subst. split; [|intros Hn; contradiction].
      intros _. split; [exact Hi2|]. intros.
      unfold obi_audit_init. rewrite Hi2. reflexivity.
    + intros H. inversion H; subst. split; [intros Hn; discriminate Hn|].
      intros _. split; reflexivity.
Qed.

Lemma audit_init_happens_once_witness :
  let st := {| initialized := false; log_file := None; sequence_counter := 0;
               current_session_id := [] |} in
  let st1 := snd (obi_audit_init st (Some []) 1700000000 1700000000) in
  sequence_counter st1 = 1
  /\ obi_audit_init st1 None 1700000005 1700000005 = (OBI_SUCCESS, st1).
Proof.
  intros st st1.
  split; [vm_compute; reflexivity|].
  destruct (audit_init_happens_once st st1 (Some []) 1700000000 1700000000
              OBI_SUCCESS) as [H _].
  - vm_compute. reflexivity.
  - destruct (H eq_refl) as [_ H2]. apply H2.
Defined.

(** X22. A session brackets its entries, and the numbering starts again.
    [obi_audit_init] on the cleared state followed by [obi_audit_cleanup]
    appends exactly two lines to whatever the log holds, AUDIT_INIT with
    sequence number 1 and AUDIT_CLEANUP with sequence number 2, both of
    which verify, and leaves the cleared state: sequence numbers are
    counted per session, not per log. *)
Theorem audit_session_brackets_the_log (lines : list log_line)
    (now_id now_init now_cleanup : Z) :
  let cleared := {| initialized := false; log_file := None;
                    sequence_counter := 0; current_session_id := [] |} in
  let '(r, st1) := obi_audit_init cleared (Some lines) now_id now_init in
  let '(closed, st2) := obi_audit_cleanup st1 now_cleanup in
  r = OBI_SUCCESS /\ st2 = cleared
  /\ exists e1 e2,
       closed = Some (lines ++ [e1; e2])
       /\ operation e1 = str "AUDIT_INIT" /\ sequence_number e1 = 1
       /\ operation e2 = str "AUDIT_CLEANUP" /\ sequence_number e2 = 2
       /\ obi_audit_verify_integrity (Some (map read_back [e1; e2])) = OBI_SUCCESS.
Proof.
  intros cleared. subst cleared. unfold obi_audit_init. cbn [initialized].
  set (st0 := {| initialized := true; log_file := Some lines;
                 sequence_counter := 0;
                 current_session_id := generate_session_id now_id 32 |}).
  pose proof (logged_entry st0 now_init (str "AUDIT_INIT") []) as H1.
  pose proof (logged_fields st0 now_init (str "AUDIT_INIT") []) as F1.
  destruct (obi_audit_log_operation st0 now_init (str "AUDIT_INIT") [])
    as [[r st1] e1].
  destruct H1 as (Hr & Hf1 & Hc1 & Hs1 & Hi1 & _ & Hk1).
  destruct F1 as (Ho1 & _). cbn [snd] in Ho1.
  unfold obi_audit_cleanup. rewrite Hi1. cbn [initialized st0 negb].
  pose proof (logged_entry st1 now_cleanup (str "AUDIT_CLEANUP") []) as H2.
  pose proof (logged_fields st1 now_cleanup (str "AUDIT_CLEANUP") []) as F2.
  destruct (obi_audit_log_operation st1 now_cleanup (str "AUDIT_CLEANUP") [])
    as [[r2 st2] e2].
  destruct H2 as (_ & Hf2 & _ & Hs2 & _ & _ & Hk2).
  destruct F2 as (Ho2 & _). cbn [snd] in Ho2.
  cbn [sequence_counter st0] in Hc1, Hs1.
  change ((0 + 1) mod 2 ^ 32)%Z with 1%Z in Hc1, Hs1.
  rewrite Hc1 in Hs2. change ((1 + 1) mod 2 ^ 32)%Z with 2%Z in Hs2.
  split; [exact Hr|]. split; [reflexivity|].
  exists e1, e2.
  split.
  { rewrite Hf2, Hf1. cbn [log_file st0 option_map].
    rewrite <- app_assoc. reflexivity. }
  split; [rewrite Ho1; reflexivity|]. split; [exact Hs1|].
  split; [rewrite Ho2; reflexivity|]. split; [exact Hs2|].
  unfold obi_audit_verify_integrity. cbn [map count_failures read_back].
  rewrite Hk1, Hk2, !Z.eqb_refl. reflexivity.
Qed.

End AuditLog.

(* ================================================================= *)
(** * Properties of the field checks *)

Section FieldChecksFacts.

Import FieldChecks.
Local Open Scope Z_scope.

(** *** Base64 values *)

Lemma is_base64_not_padding (c : byte) : is_base64 c = true -> (c =? 61) = false.
Proof.
  intros H. destruct (Z.eqb_spec c 61) as [->|]; [|reflexivity].
  vm_compute in H. discriminate H.
Qed.

Lemma base64_scan_padding : forall value k m,
  (0 < k)%nat -> base64_scan value k = Some m ->
  value = repeat 61 (m - k) /\ (k <= m)%nat.
Proof.
  induction value as [|c value IH]; intros k m Hk H; cbn [base64_scan] in H.
  - inversion H; subst. rewrite Nat.sub_diag. split; [reflexivity|lia].
  - destruct (Z.eqb_spec c 61) as [->|_].
    + destruct (IH (S k) m ltac:(lia) H) as [-> Hle].
      split; [|lia].
      replace (m - k)%nat with (S (m - S k)) by lia. reflexivity.
    + destruct (Nat.ltb_spec 0 k) as [_|Hn]; [discriminate H|lia].
Qed.

Lemma base64_scan_body : forall value m,
  base64_scan value 0 = Some m ->
  exists body, value = body ++ repeat 61 m /\ forallb is_base64 body = true.
Proof.
  induction value as [|c value IH]; intros m H; cbn [base64_scan] in H.
  - inversion H; subst. exists []. split; reflexivity.
  - destruct (Z.eqb_spec c 61) as [->|_].
    + destruct (base64_scan_padding value 1 m ltac:(lia) H) as [-> Hle].
      exists []. split; [|reflexivity].
      cbn [app]. replace m with (S (m - 1)) at 2 by lia. reflexivity.
    + cbn [Nat.ltb Nat.leb] in H.
      destruct (is_base64 c) eqn:Hc; [|discriminate H].
      destruct (IH m H) as (body & -> & Hb).
      exists (c :: body). split; [reflexivity|].
      cbn [forallb]. rewrite Hc, Hb. reflexivity.
Qed.

Lemma base64_scan_repeat : forall p k,
  base64_scan (repeat 61 p) k = Some (k + p)%nat.
Proof.
  induction p as [|p IH]; intros k; cbn [repeat base64_scan].
  - rewrite Nat.add_0_r. reflexivity.
  - rewrite Z.eqb_refl, IH. f_equal. lia.
Qed.

Lemma base64_scan_app : forall body p,
  forallb is_base64 body = true ->
  base64_scan (body ++ repeat 61 p) 0 = Some p.
Proof.
  induction body as [|c body IH]; intros p H.
  - cbn [app]. rewrite base64_scan_repeat. reflexivity.
  - cbn [forallb] in H. apply andb_prop in H. destruct H as [Hc Hb].
    cbn [app base64_scan]. rewrite (is_base64_not_padding c Hc), Hc.
    cbn [Nat.ltb Nat.leb]. apply IH. exact Hb.
Qed.

(** X23. The values that [validate_base64_binary] accepts are exactly the
    strings of at most [max_length] characters that consist of base64
    characters followed by at most two padding characters; the length
    need not be a multiple of four. *)
Theorem base64_binary_accepts_padded_alphabet (value : list byte) (max_length : nat) :
  validate_base64_binary value max_length = true <->
  (List.length value <= max_length)%nat
  /\ exists body pad,
       value = body ++ repeat 61 pad
       /\ forallb is_base64 body = true /\ (pad <= 2)%nat.
Proof.
  unfold validate_base64_binary. split.
  - destruct (Nat.ltb_spec max_length (List.length value)) as [Hgt|Hle];
      [intros H; discriminate H|].
    destruct (base64_scan value 0) as [m|] eqn:E; [|intros H; discriminate H].
    intros H. apply Nat.leb_le in H. split; [exact Hle|].
    destruct (base64_scan_body value m E) as (body & Hv & Hb).
    exists body, m. split; [exact Hv|]. split; [exact Hb|exact H].
  - intros (Hle & body & pad & -> & Hb & Hp).
    apply Nat.ltb_ge in Hle. rewrite Hle.
    pose proof (base64_scan_app body pad Hb) as Hs. unfold byte in *.
    rewrite Hs. apply Nat.leb_le. exact Hp.
Qed.

Lemma base64_binary_accepts_padded_alphabet_witness :
  validate_base64_binary (str "QQ=") 4096 = true.
Proof.
  apply (proj2 (base64_binary_accepts_padded_alphabet (str "QQ=") 4096)).
  split; [apply Nat.leb_le; vm_compute; reflexivity|].
  exists (str "QQ"), 1%nat. split; [reflexivity|]. split; [reflexivity|lia].
Defined.

(** *** Unsigned numbers *)

Lemma digits_value_acc : forall value acc,
  fold_left (fun acc c => acc * 10 + (c - 48)) value acc
  = acc * 10 ^ Z.of_nat (List.length value) + digits_value value.
Proof.
  unfold digits_value.
  induction value as [|c value IH]; intros acc.
  - cbn [fold_left List.length]. change (10 ^ Z.of_nat 0) with 1. lia.
  - cbn [fold_left]. rewrite (IH (acc * 10 + (c - 48))), (IH (0 * 10 + (c - 48))).
    cbn [List.length]. rewrite Nat2Z.inj_succ, Z.pow_succ_r by lia.
    unfold byte in *. ring.
Qed.

Lemma digits_value_cons (c : byte) (value : list byte) :
  digits_value (c :: value)
  = (c - 48) * 10 ^ Z.of_nat (List.length value) + digits_value value.
Proof.
  unfold digits_value at 1. cbn [fold_left]. rewrite digits_value_acc.
  unfold byte in *. ring.
Qed.

Lemma is_digit_range (c : byte) : is_digit c = true -> 48 <= c <= 57.
Proof. unfold is_digit. lia. Qed.

Lemma digits_value_bounds : forall value,
  forallb is_digit value = true ->
  0 <= digits_value value < 10 ^ Z.of_nat (List.length value).
Proof.
  induction value as [|c value IH]; intros H.
  - vm_compute. split; [discriminate|reflexivity].
  - cbn [forallb] in H. apply andb_prop in H. destruct H as [Hc Hv].
    apply is_digit_range in Hc. specialize (IH Hv).
    rewrite digits_value_cons. cbn [List.length].
    rewrite Nat2Z.inj_succ, Z.pow_succ_r by lia. nia.
Qed.

Lemma digits_value_injective : forall v1 v2,
  List.length v1 = List.length v2 ->
  forallb is_digit v1 = true -> forallb is_digit v2 = true ->
  digits_value v1 = digits_value v2 -> v1 = v2.
Proof.
  induction v1 as [|c1 v1 IH]; intros [|c2 v2] Hl H1 H2 E;
    try discriminate Hl; [reflexivity|].
  cbn [List.length] in Hl. injection Hl as Hl.
  cbn [forallb] in H1, H2.
  apply andb_prop in H1. destruct H1 as [Hc1 Hv1].
  apply andb_prop in H2. destruct H2 as [Hc2 Hv2].
  rewrite !digits_value_cons, Hl in E.
  pose proof (digits_value_bounds v1 Hv1) as B1.
  pose proof (digits_value_bounds v2 Hv2) as B2.
  rewrite Hl in B1.
  assert (Hc : c1 = c2) by nia.
  subst c2. f_equal. apply IH; [exact Hl|exact Hv1|exact Hv2|lia].
Qed.

Lemma accepted_uint64_value (value : list byte) :
  validate_uint64_field value = true ->
  forallb is_digit value = true
  /\ (1 <= List.length value)%nat
  /\ ((1 < List.length value)%nat ->
      10 ^ Z.of_nat (List.length value - 1) <= digits_value value).
Proof.
  unfold validate_uint64_field.
  destruct (Nat.eqb_spec (List.length value) 0) as [Hz|Hn]; [intros H; discriminate H|].
  destruct (forallb is_digit value) eqn:Hd; [|intros H; discriminate H].
  cbn [negb].
  destruct (Nat.ltb_spec 1 (List.length value)) as [Hl|Hl].
  - cbn [andb]. destruct value as [|c value]; [cbn in Hl; lia|].
    cbn [nth]. destruct (Z.eqb_spec c 48) as [Hz|Hc]; [intros H; discriminate H|].
    intros _. split; [reflexivity|]. split; [lia|]. intros _.
    cbn [forallb] in Hd. apply andb_prop in Hd. destruct Hd as [Hc' Hv].
    apply is_digit_range in Hc'.
    pose proof (digits_value_bounds value Hv) as B.
    rewrite digits_value_cons. cbn [List.length].
    replace (S (List.length value) - 1)%nat with (List.length value) by lia.
    nia.
  - intros _. split; [reflexivity|]. split; lia.
Qed.

(** X24. A number has one accepted spelling.  Two values that
    [validate_uint64_field] accepts and that denote the same number are
    the same string. *)
Theorem uint64_field_spelling_is_unique (v1 v2 : list byte) :
  validate_uint64_field v1 = true ->
  validate_uint64_field v2 = true ->
  digits_value v1 = digits_value v2 ->
  v1 = v2.
Proof.
  intros H1 H2 E.
  destruct (accepted_uint64_value v1 H1) as (D1 & L1 & G1).
  destruct (accepted_uint64_value v2 H2) as (D2 & L2 & G2).
  pose proof (digits_value_bounds v1 D1) as B1.
  pose proof (digits_value_bounds v2 D2) as B2.
  apply digits_value_injective; [|exact D1|exact D2|exact E].
  destruct (Nat.lt_trichotomy (List.length v1) (List.length v2)) as [Hlt|[Heq|Hlt]];
    [exfalso|exact Heq|exfalso].
  - specialize (G2 ltac:(lia)).
    assert (10 ^ Z.of_nat (List.length v1) <= 10 ^ Z.of_nat (List.length v2 - 1))
      by (apply Z.pow_le_mono_r; lia).
    lia.
  - specialize (G1 ltac:(lia)).
    assert (10 ^ Z.of_nat (List.length v2) <= 10 ^ Z.of_nat (List.length v1 - 1))
      by (apply Z.pow_le_mono_r; lia).
    lia.
Qed.

Lemma uint64_field_spelling_is_unique_witness :
  str "1700000000" = str "1700000000"
  /\ validate_uint64_field (str "01700000000") = false.
Proof.
  split; [|reflexivity].
  apply uint64_field_spelling_is_unique; reflexivity.
Defined.

(** *** Field checks and case folding *)

Lemma is_digit_tolower (c : byte) : is_digit (Normalizer.tolower c) = is_digit c.
Proof. folded_letter c. Qed.

Lemma is_hex_tolower (c : byte) : is_hex (Normalizer.tolower c) = is_hex c.
Proof. folded_letter c. Qed.

Lemma is_base64_tolower (c : byte) : is_base64 (Normalizer.tolower c) = is_base64 c.
Proof. folded_letter c. Qed.

Lemma eqb_tolower (c k : byte) :
  k < 65 -> (Normalizer.tolower c =? k) = (c =? k).
Proof. intros Hk. folded_letter c. Qed.

Lemma forallb_map_tolower (f : byte -> bool) (value : list byte) :
  (forall c, f (Normalizer.tolower c) = f c) ->
  forallb f (map Normalizer.tolower value) = forallb f value.
Proof.
  intros Hf. induction value as [|c value IH]; [reflexivity|].
  cbn [map forallb]. rewrite Hf, IH. reflexivity.
Qed.

Lemma digits_are_lower_case : forall value,
  forallb is_digit value = true -> map Normalizer.tolower value = value.
Proof.
  induction value as [|c value IH]; intros H; [reflexivity|].
  cbn [forallb] in H. apply andb_prop in H. destruct H as [Hc Hv].
  cbn [map]. rewrite (IH Hv). f_equal.
  apply is_digit_range in Hc. unfold Normalizer.tolower.
  destruct (Z.leb_spec 65 c) as [H65|_]; [lia|reflexivity].
Qed.

Lemma validate_uint64_field_tolower (value : list byte) :
  validate_uint64_field (map Normalizer.tolower value) = validate_uint64_field value.
Proof.
  unfold validate_uint64_field.
  rewrite length_map, (forallb_map_tolower is_digit value is_digit_tolower).
  destruct value as [|c value]; [reflexivity|].
  cbn [map nth]. rewrite eqb_tolower by lia. reflexivity.
Qed.

Lemma base64_scan_tolower : forall value k,
  base64_scan (map Normalizer.tolower value) k = base64_scan value k.
Proof.
  induction value as [|c value IH]; intros k; [reflexivity|].
  cbn [map base64_scan]. rewrite eqb_tolower by lia.
  rewrite is_base64_tolower, !IH. reflexivity.
Qed.

(** X25. Case folding does not change the verdict of a field check.  The
    validator folds the buffer to lower case before it checks the fields;
    each of the four typed checks gives the folded value the verdict it
    gives the value as written. *)
Theorem field_checks_ignore_case_folding (value : list byte) (current_time : Z)
    (max_length : nat) :
  let folded := Normalizer.normalize_case value false in
  validate_uint64_field folded = validate_uint64_field value
  /\ validate_timestamp_field folded current_time
     = validate_timestamp_field value current_time
  /\ validate_sha256_digest folded = validate_sha256_digest value
  /\ validate_base64_binary folded max_length
     = validate_base64_binary value max_length.
Proof.
  cbn zeta. unfold Normalizer.normalize_case.
  split; [apply validate_uint64_field_tolower|].
  split; [|split].
  - unfold validate_timestamp_field. rewrite validate_uint64_field_tolower.
    destruct (validate_uint64_field value) eqn:H; [|reflexivity].
    apply accepted_uint64_value in H. destruct H as (Hd & _).
    rewrite (digits_are_lower_case value Hd). reflexivity.
  - unfold validate_sha256_digest.
    rewrite length_map, (forallb_map_tolower is_hex value is_hex_tolower).
    reflexivity.
  - unfold validate_base64_binary. rewrite length_map, base64_scan_tolower.
    reflexivity.
Qed.

End FieldChecksFacts.

(* ================================================================= *)
(** * Properties of buffer validation *)

Section ValidatorPipeline.

Import Validator.
Local Open Scope R_scope.

(** *** Validation of a buffer *)

Lemma mathematical_properties_success (v : obi_validator) (b b1 : obi_buffer_t) :
  validate_mathematical_properties v b = (OBI_SUCCESS, b1) ->
  data b1 = data b /\ normalized b1 = normalized b /\ validated b1 = validated b
  /\ security_level b1 = security_level b
  /\ 0 <= cost_value b1
  /\ governance_zone b1 = obi_assess_governance_zone (cost_value b1)
  /\ is_governance (governance_zone b1) = false.
Proof.
  unfold validate_mathematical_properties. cbv zeta.
  destruct (Rlt_dec _ 0) as [|Hc]; [intros H; discriminate H|].
  cbn [governance_zone].
  destruct (obi_assess_governance_zone _) eqn:Ez; intros H;
    try discriminate H; inversion H; subst;
      cbn [data normalized validated security_level cost_value governance_zone];
      rewrite Ez; repeat split; lra.
Qed.

Lemma mathematical_properties_failure (v : obi_validator) (b b1 : obi_buffer_t)
    (r : obi_result_t) :
  validate_mathematical_properties v b = (r, b1) ->
  r <> OBI_SUCCESS ->
  data b1 = data b /\ normalized b1 = normalized b /\ validated b1 = validated b
  /\ security_level b1 = security_level b
  /\ ((r = OBI_ERROR_NUMERICAL_INSTABILITY /\ b1 = b)
      \/ (r = OBI_ERROR_SINPHASE_VIOLATION
          /\ governance_zone b1 = OBI_ZONE_GOVERNANCE)).
Proof.
  unfold validate_mathematical_properties. cbv zeta.
  destruct (Rlt_dec _ 0) as [|Hc].
  - intros H Hr. inversion H; subst. repeat split. left. split; reflexivity.
  - cbn [governance_zone].
    destruct (obi_assess_governance_zone _) eqn:Ez; intros H Hr;
      inversion H; subst; try contradiction.
    cbn [data normalized validated security_level governance_zone].
    repeat split. right. split; reflexivity.
Qed.

(** X28. A validated buffer is compliant.  When [obi_validate_buffer] returns
    SUCCESS, the buffer it leaves passes both compliance checks, holds the
    data it held, carries the zone of its own cost, and the validator has
    counted one more validation. *)
Theorem validated_buffer_is_compliant (v v' : obi_validator) (b b' : obi_buffer_t) :
  obi_validate_buffer v b = (OBI_SUCCESS, v', b') ->
  obi_check_sinphase_compliance b' = true
  /\ obi_check_nasa_compliance b' = true
  /\ data b' = data b
  /\ governance_zone b' = obi_assess_governance_zone (cost_value b')
  /\ validation_count v' = ((validation_count v + 1) mod 2 ^ 64)%Z
  /\ context v' = context v.
Proof.
  unfold obi_validate_buffer.
  destruct (initialized v); cbn [negb]; [|intros H; discriminate H].
  destruct (validate_buffer_structure b) eqn:Es; try (intros H; discriminate H).
  destruct (enforce_canonical_validation v b) eqn:Ec; try (intros H; discriminate H).
  destruct (validate_mathematical_properties v b) as [r b1] eqn:Em.
  destruct r; intros H; try discriminate H.
  inversion H; subst. clear H.
  destruct (mathematical_properties_success v b b1 Em)
    as (Hd & Hn & _ & _ & Hc & Hz & Hg).
  unfold enforce_canonical_validation in Ec.
  destruct (negb (canonical_only (context v))); [discriminate Ec|].
  destruct (normalized b) eqn:Enorm; cbn [negb] in Ec; [|discriminate Ec].
  unfold validate_buffer_structure in Es.
  destruct (Nat.eqb_spec (List.length (data b)) 0) as [|Hlen0];
    [discriminate Es|].
  destruct (Nat.ltb_spec OBI_MAX_BUFFER_SIZE (List.length (data b))) as [|Hmax];
    [discriminate Es|].
  unfold obi_check_sinphase_compliance, obi_check_nasa_compliance.
  cbn [validated normalized governance_zone data cost_value validation_count context].
  rewrite Hn, Hg, Hd.
  destruct (Rle_dec 0 (cost_value b1)) as [_|Hn0]; [|contradiction].
  replace (0 <? List.length (data b))%nat with true
    by (symmetry; apply Nat.ltb_lt; lia).
  replace (List.length (data b) <=? OBI_MAX_BUFFER_SIZE)%nat with true
    by (symmetry; apply Nat.leb_le; exact Hmax).
  repeat split. exact Hz.
Qed.

Lemma constant_buffer_cost (v : obi_validator) :
  context v = default_context ->
  validate_mathematical_properties v constant_buffer
  = (OBI_SUCCESS,
     {| data := data constant_buffer;
        security_level := security_level constant_buffer;
        normalized := normalized constant_buffer;
        validated := validated constant_buffer;
        cost_value := 0;
        governance_zone := OBI_ZONE_AUTONOMOUS |}).
Proof.
  intros Hv.
  assert (Heq : distribution_pi constant_buffer = distribution_pj constant_buffer).
  { unfold distribution_pi, distribution_pj, raw_weights, sample_count,
      constant_buffer. simpl. f_equal; [|f_equal]; field. }
  assert (Hne : data constant_buffer <> []) by discriminate.
  unfold validate_mathematical_properties. rewrite Heq, Hv.
  unfold distribution_pj. cbn [alpha beta default_context].
  rewrite (traversal_cost_uniform _ _ _ (sample_count_bounds _ Hne))
    by lra.
  destruct (Rlt_dec 0 0) as [|_]; [lra|].
  cbn [governance_zone].
  assert (Hz : obi_assess_governance_zone 0 = OBI_ZONE_AUTONOMOUS).
  { unfold obi_assess_governance_zone, OBI_COST_THRESHOLD.
    destruct (Rle_dec 0 (5 / 10)) as [|Hn]; [reflexivity|]. exfalso. apply Hn. lra. }
  rewrite Hz. reflexivity.
Qed.

Lemma validated_buffer_is_compliant_witness :
  let v := {| context := default_context; initialized := true;
              validation_count := 7 |} in
  let b' := snd (obi_validate_buffer v constant_buffer) in
  obi_check_sinphase_compliance b' = true /\ obi_check_nasa_compliance b' = true.
Proof.
  intros v b'.
  assert (E : obi_validate_buffer v constant_buffer
              = (OBI_SUCCESS,
                 {| context := default_context; initialized := true;
                    validation_count := 8 |},
                 b')).
  { unfold b', obi_validate_buffer.
    rewrite (constant_buffer_cost v eq_refl). reflexivity. }
  destruct (validated_buffer_is_compliant _ _ _ _ E) as (H1 & H2 & _).
  split; assumption.
Defined.

(** X29. A failed validation sets no flag.  When [obi_validate_buffer] returns
    an error, the validator is as it was and so are the data and the
    normalized and validated flags of the buffer: a buffer that was
    validated earlier stays marked validated.  Only a SINPHASE_VIOLATION
    changes the buffer at all, leaving it in the GOVERNANCE zone. *)
Theorem failed_validation_sets_no_flag (v v' : obi_validator) (b b' : obi_buffer_t)
    (r : obi_result_t) :
  obi_validate_buffer v b = (r, v', b') ->
  r <> OBI_SUCCESS ->
  v' = v
  /\ data b' = data b /\ normalized b' = normalized b
  /\ validated b' = validated b
  /\ (r <> OBI_ERROR_SINPHASE_VIOLATION -> b' = b)
  /\ (r = OBI_ERROR_SINPHASE_VIOLATION -> governance_zone b' = OBI_ZONE_GOVERNANCE).
Proof.
  intros H Hr.
  assert (Hsame : forall r0, r0 <> OBI_ERROR_SINPHASE_VIOLATION ->
            (r0, v, b) = (r, v', b') ->
            v' = v /\ data b' = data b /\ normalized b' = normalized b
            /\ validated b' = validated b
            /\ (r <> OBI_ERROR_SINPHASE_VIOLATION -> b' = b)
            /\ (r = OBI_ERROR_SINPHASE_VIOLATION ->
                governance_zone b' = OBI_ZONE_GOVERNANCE)).
  { intros r0 Hr0 E. inversion E; subst.
    repeat split; try reflexivity. intros; contradiction. }
  assert (Hs : validate_buffer_structure b <> OBI_ERROR_SINPHASE_VIOLATION).
  { unfold validate_buffer_structure.
    destruct (_ || _)%bool; [discriminate|]. destruct (_ <? _)%Z; discriminate. }
  assert (Hc : enforce_canonical_validation v b <> OBI_ERROR_SINPHASE_VIOLATION).
  { unfold enforce_canonical_validation.
    destruct (negb (canonical_only _)); [discriminate|].
    destruct (negb (normalized b)); discriminate. }
  unfold obi_validate_buffer in H.
  destruct (initialized v); cbn [negb] in H;
    [|apply (Hsame OBI_ERROR_VALIDATION_FAILED); [discriminate|exact H]].
  destruct (validate_buffer_structure b) eqn:Es; try (apply (Hsame _ Hs H)).
  destruct (enforce_canonical_validation v b) eqn:Ec; try (apply (Hsame _ Hc H)).
  destruct (validate_mathematical_properties v b) as [r1 b1] eqn:Em.
  destruct r1; inversion H; subst; try contradiction;
    destruct (mathematical_properties_failure _ _ _ _ Em Hr)
      as (Hd & Hn & Hv & _ & [[Hr1 Hb]|[Hr1 Hz]]);
    try discriminate Hr1;
    repeat split; try assumption; try (intros; congruence).
Qed.

Lemma failed_validation_sets_no_flag_witness :
  let v := {| context := default_context; initialized := true;
              validation_count := 7 |} in
  let b := {| data := str "AA"; security_level := 0; normalized := false;
              validated := true; cost_value := 0;
              governance_zone := OBI_ZONE_AUTONOMOUS |} in
  fst (fst (obi_validate_buffer v b)) = OBI_ERROR_VALIDATION_FAILED
  /\ validated (snd (obi_validate_buffer v b)) = true.
Proof.
  intros v b.
  assert (E : obi_validate_buffer v b = (OBI_ERROR_VALIDATION_FAILED, v, b))
    by reflexivity.
  destruct (failed_validation_sets_no_flag v v b b _ E ltac:(discriminate))
    as (_ & _ & _ & Hv & _).
  rewrite E. split; [reflexivity|exact Hv].
Defined.

End ValidatorPipeline.
